(** * Table clipboard and clipboard-marker utilities of CKEditor 5

    A shallow embedding of
      - packages/ckeditor5-table/src/tableclipboard.ts
      - packages/ckeditor5-clipboard/src/utils/assignfragmentmarkers.ts
        (both revisions of the marker utilities, and the earlier one
        without boundary kinds)
    together with the properties of the clipboard transform that the
    specification states about them.

    Part I holds the model (the engine's tree, positions and writer, then
    the embedded functions); Part II holds the lemmas and theorems;
    Part III holds further properties of the embedded functions. *)

From Stdlib Require Import List String Ascii ZArith Arith Bool Lia Permutation Sorted.
Import ListNotations.
Open Scope string_scope.
Open Scope nat_scope.
Open Scope list_scope.

Set Implicit Arguments.
Set Warnings "-register-all".

(* ================================================================== *)
(** * Part I.  The model                                               *)
(* ================================================================== *)

(** ** The engine's tree *)

(** Attribute values of the model are strings or numbers. *)
Inductive value : Type :=
| VStr (s : string)
| VNum (n : Z).

Definition attrs : Type := list (string * value).

Fixpoint getAttr (key : string) (a : attrs) : option value :=
  match a with
  | [] => None
  | (k, v) :: rest => if String.eqb k key then Some v else getAttr key rest
  end.

(** A node is a text node (its data a list of UTF-16 code units) or an
    element.  [id] stands for the identity of the JS object: two nodes
    with equal attributes and children are still different objects. *)
Inductive node : Type :=
| Text (id : nat) (attributes : attrs) (data : list N)
| Element (id : nat) (name : string) (attributes : attrs) (children : list node).

Definition nodeId (n : node) : nat :=
  match n with Text i _ _ => i | Element i _ _ _ => i end.

Definition nodeAttrs (n : node) : attrs :=
  match n with Text _ a _ => a | Element _ _ a _ => a end.

Definition getAttribute (key : string) (n : node) : option value :=
  getAttr key (nodeAttrs n).

Definition childrenOf (n : node) : list node :=
  match n with Text _ _ _ => [] | Element _ _ _ ch => ch end.

(** [item.is( 'element' )] and [item.is( 'element', name )]. *)
Definition isElement (n : node) : bool :=
  match n with Text _ _ _ => false | Element _ _ _ _ => true end.

Definition isElementNamed (nm : string) (n : node) : bool :=
  match n with Text _ _ _ => false | Element _ x _ _ => String.eqb x nm end.

(** The items of a range placed on a node, in document order: the walker
    (element ends ignored) yields the node, then what is inside it. *)
Fixpoint items (n : node) : list node :=
  match n with
  | Text _ _ _ => [n]
  | Element _ _ _ ch => n :: flat_map items ch
  end.

(** The items of a range placed in a container. *)
Definition itemsIn (ch : list node) : list node := flat_map items ch.

(** ** The content classifier: [getTableIfOnlyTableInContent] *)

(** What [insertContent] receives: a document fragment or a single item. *)
Inductive content : Type :=
| DocumentFragment (children : list node)
| Item (n : node).

Definition contentChildren (c : content) : list node :=
  match c with
  | DocumentFragment ch => ch
  | Item n => childrenOf n
  end.

(** The part of the editor model that the classifier consults:
    [schema.isContent] on element names. *)
Record Model : Type := { schema_isContent : string -> bool }.

(** White space of the regular expression class [\s]. *)
Definition isWhiteSpace (c : N) : bool :=
  (N.leb 9 c && N.leb c 13) || N.eqb c 32 || N.eqb c 160 || N.eqb c 5760
  || (N.leb 8192 c && N.leb c 8202) || N.eqb c 8232 || N.eqb c 8233
  || N.eqb c 8239 || N.eqb c 8287 || N.eqb c 12288 || N.eqb c 65279.

(** [item.data.search( /\S/ ) !== -1] *)
Definition hasNonWhiteSpace (data : list N) : bool :=
  existsb (fun c => negb (isWhiteSpace c)) data.

(** The item loop of [model.hasContent( range, { ignoreWhitespaces: true } )],
    on the items of the range.  (The markers of the document live in
    another root than the pasted content and do not intersect it.) *)
Definition isContentItem (model : Model) (n : node) : bool :=
  match n with
  | Text _ _ data => hasNonWhiteSpace data
  | Element _ nm _ _ => schema_isContent model nm
  end.

Definition hasContent (model : Model) (rangeItems : list node) : bool :=
  existsb (isContentItem model) rangeItems.

(** The index of the first item that satisfies [p]. *)
Fixpoint findIndex (p : node -> bool) (l : list node) : option nat :=
  match l with
  | [] => None
  | x :: r => if p x then Some 0 else option_map S (findIndex p r)
  end.

Definition isTable : node -> bool := isElementNamed "table".

(** The part of the function that looks inside a container: the
    single-child shortcut, then the walk over [contentRange.getItems()]. *)
Definition tableAmongItems (model : Model) (ch : list node) : option node :=
  let all := itemsIn ch in
  match findIndex isTable all with
  | None => None
  | Some k =>
    let element := nth k all (Text 0 [] []) in
    let rangeBefore := firstn k all in
    let rangeAfter := skipn (k + List.length (items element)) all in
    if hasContent model rangeBefore then None
    else if hasContent model rangeAfter then None
    else Some element
  end.

Definition tableInContainer (model : Model) (ch : list node) : option node :=
  match ch with
  | [only] => if isTable only then Some only else tableAmongItems model ch
  | _ => tableAmongItems model ch
  end.

Definition getTableIfOnlyTableInContent (c : content) (model : Model) : option node :=
  match c with
  | Item (Text _ _ _) => None
  | Item (Element _ nm _ ch as n) =>
      if String.eqb nm "table" then Some n else tableInContainer model ch
  | DocumentFragment ch => tableInContainer model ch
  end.

(** The classifier as the specification words it (section 4.5): the
    content is a grid; or a container with exactly one child, a grid; or
    a container with exactly one grid among its top-level children and no
    content that is not white space before or after that grid.  Anything
    else is classified as none. *)
Definition spec_onlyTopLevelGrid (model : Model) (ch : list node) : option node :=
  match filter isTable ch, findIndex isTable ch with
  | [t], Some k =>
      if hasContent model (itemsIn (firstn k ch)) then None
      else if hasContent model (itemsIn (skipn (S k) ch)) then None
      else Some t
  | _, _ => None
  end.

Definition spec_classifyContainer (model : Model) (ch : list node) : option node :=
  match ch with
  | [only] => if isTable only then Some only else spec_onlyTopLevelGrid model ch
  | _ => spec_onlyTopLevelGrid model ch
  end.

Definition spec_classify (c : content) (model : Model) : option node :=
  match c with
  | Item (Text _ _ _) => None
  | Item (Element _ nm _ ch as n) =>
      if String.eqb nm "table" then Some n else spec_classifyContainer model ch
  | DocumentFragment ch => spec_classifyContainer model ch
  end.

(** [content] is something to look into: a fragment, or an element that
    is not itself a table. *)
Definition isContainer (c : content) : bool :=
  match c with
  | DocumentFragment _ => true
  | Item n => isElement n && negb (isTable n)
  end.

(** ** Positions, ranges and markers of the engine *)

(** The two roots an operation works on: the document and the document
    fragment (the copied fragment, or the pasted content). *)
Inductive rootId : Type := DocumentRoot | FragmentRoot.

Definition rootId_eqb (a b : rootId) : bool :=
  match a, b with
  | DocumentRoot, DocumentRoot | FragmentRoot, FragmentRoot => true
  | _, _ => false
  end.

(** A position is a root and a path of offsets; a text node takes as many
    offsets as it has characters, an element takes one. *)
Record Position : Type := mkPosition { root : rootId; path : list nat }.

Record Range : Type := mkRange { rstart : Position; rend : Position }.

Definition offsetSize (n : node) : nat :=
  match n with
  | Text _ _ data => List.length data
  | Element _ _ _ _ => 1
  end.

(** [compareArrays] on two paths, as [Position.compareWith] reads it: a
    prefix is before its extensions, otherwise the first offset that
    differs decides. *)
Fixpoint pathBefore (p q : list nat) : bool :=
  match p, q with
  | [], [] => false
  | [], _ :: _ => true
  | _ :: _, [] => false
  | a :: p', b :: q' =>
      if a <? b then true else if b <? a then false else pathBefore p' q'
  end.

(** [Position.isBefore]; positions of different roots are not comparable. *)
Definition isBefore (a b : Position) : bool :=
  rootId_eqb (root a) (root b) && pathBefore (path a) (path b).

Definition isAfter (a b : Position) : bool := isBefore b a.

(** [Range.isIntersecting], which decides [getIntersection( r ) !== null]. *)
Definition isIntersecting (a b : Range) : bool :=
  isBefore (rstart a) (rend b) && isAfter (rend a) (rstart b).

Record Marker : Type := mkMarker { name : string; markerRange : Range }.

(** [MarkerCollection.getMarkersIntersectingRange] *)
Definition getMarkersIntersectingRange (markers : list Marker) (r : Range) : list Marker :=
  filter (fun m => isIntersecting (markerRange m) r) markers.

(** A selection, as far as the utilities read it: [getRanges()]. *)
Record Selection : Type := mkSelection { getRanges : list Range }.

(** ** Locating, inserting and removing nodes *)

(** The path of offsets, inside [n], of the node with identity [i]:
    [createPositionAt( node, 'before' ).path] relative to [n]. *)
Fixpoint findPath (i : nat) (n : node) {struct n} : option (list nat) :=
  match n with
  | Text _ _ _ => None
  | Element _ _ _ ch =>
      (fix go (l : list node) (off : nat) {struct l} : option (list nat) :=
         match l with
         | [] => None
         | c :: r =>
             if nodeId c =? i then Some [off]
             else match findPath i c with
                  | Some p => Some (off :: p)
                  | None => go r (off + offsetSize c)
                  end
         end) ch 0
  end.

(** A root given by its children, as a node to search in. *)
Definition asRoot (ch : list node) : node := Element 0 "$root" [] ch.

Definition pathOf (i : nat) (ch : list node) : option (list nat) :=
  findPath i (asRoot ch).

(** Detaching the node with identity [i] from wherever it is in [n]. *)
Fixpoint removeNode (i : nat) (n : node) {struct n} : node :=
  match n with
  | Text _ _ _ => n
  | Element j nm a ch =>
      Element j nm a
        ((fix go (l : list node) {struct l} : list node :=
            match l with
            | [] => []
            | c :: r => if nodeId c =? i then r else removeNode i c :: go r
            end) ch)
  end.

Definition removeFrom (i : nat) (ch : list node) : list node :=
  childrenOf (removeNode i (asRoot ch)).

(** All identities in a node, in document order. *)
Definition idsOf (n : node) : list nat := map nodeId (items n).
Definition idsIn (ch : list node) : list nat := map nodeId (itemsIn ch).

(** Inserting [x] at offset [off] among the children [l].  An offset
    inside a text node splits it; the second half is a new node, [fresh]. *)
Fixpoint insertAtOffset (x : node) (fresh : nat) (off : nat) (l : list node) : list node :=
  match l with
  | [] => [x]
  | c :: r =>
      if off =? 0 then x :: l
      else match c with
           | Text i a d =>
               if off <? List.length d
               then Text i a (firstn off d) :: x :: Text fresh a (skipn off d) :: r
               else c :: insertAtOffset x fresh (off - List.length d) r
           | Element _ _ _ _ => c :: insertAtOffset x fresh (off - 1) r
           end
  end.

(** Applying [f] to the child that starts at offset [off]. *)
Fixpoint updateAtOffset (f : node -> node) (off : nat) (l : list node) : list node :=
  match l with
  | [] => []
  | c :: r =>
      if off =? 0 then f c :: r
      else c :: updateAtOffset f (off - offsetSize c) r
  end.

Definition withChildren (f : list node -> list node) (n : node) : node :=
  match n with
  | Text _ _ _ => n
  | Element j nm a ch => Element j nm a (f ch)
  end.

(** Inserting at a path below the children [l] of a root. *)
Fixpoint insertAtPath (x : node) (fresh : nat) (p : list nat) (l : list node) : list node :=
  match p with
  | [] => l
  | [off] => insertAtOffset x fresh off l
  | off :: p' => updateAtOffset (withChildren (insertAtPath x fresh p')) off l
  end.

(** ** The writer *)

(** The state a change block works on: the two roots, the markers of the
    model, the markers of the document fragment, the supply of node
    identities, and the record of the [insert] calls (element and
    position) in the order they were made.

    [modelMarkers] holds a marker of the model with the range it had when
    the change block began, and a marker registered with [addMarker] with
    the range that was handed to the writer.  The engine keeps the ranges
    of the model's markers live and moves them when nodes are inserted
    into the document or removed from it; that is the work of the engine's
    operations, which are not among the sources.  The utilities read the
    ranges of the model's markers before they change the tree, and never
    again; nothing below says what a range of the model is after a
    change.  The markers of a document fragment are plain ranges in a
    map, which nothing moves. *)
Record Writer : Type := mkWriter {
  documentRoot : list node;
  fragmentRoot : list node;
  modelMarkers : list Marker;
  fragmentMarkers : list (string * Range);
  nextId : nat;
  insertLog : list (node * Position)
}.

Definition setRoot (r : rootId) (ch : list node) (w : Writer) : Writer :=
  match r with
  | DocumentRoot =>
      mkWriter ch (fragmentRoot w) (modelMarkers w) (fragmentMarkers w) (nextId w) (insertLog w)
  | FragmentRoot =>
      mkWriter (documentRoot w) ch (modelMarkers w) (fragmentMarkers w) (nextId w) (insertLog w)
  end.

Definition getRoot (r : rootId) (w : Writer) : list node :=
  match r with
  | DocumentRoot => documentRoot w
  | FragmentRoot => fragmentRoot w
  end.

(** [writer.createElement( name, attributes )]: a new, childless element
    with an identity of its own. *)
Definition createElement (nm : string) (a : attrs) (w : Writer) : node * Writer :=
  (Element (nextId w) nm a [],
   mkWriter (documentRoot w) (fragmentRoot w) (modelMarkers w) (fragmentMarkers w)
            (S (nextId w)) (insertLog w)).

(** [writer.insert( element, position )] *)
Definition insert (x : node) (p : Position) (w : Writer) : Writer :=
  let w1 := setRoot (root p) (insertAtPath x (nextId w) (path p) (getRoot (root p) w)) w in
  mkWriter (documentRoot w1) (fragmentRoot w1) (modelMarkers w1) (fragmentMarkers w1)
           (S (nextId w1)) (insertLog w1 ++ [(x, p)]).

(** [writer.remove( element )]: the element is detached from the root it
    is in.  (A node that is in neither root is not followed further.) *)
Definition remove (x : node) (w : Writer) : Writer :=
  setRoot FragmentRoot (removeFrom (nodeId x) (fragmentRoot w))
    (setRoot DocumentRoot (removeFrom (nodeId x) (documentRoot w)) w).

(** [writer.createPositionAt( element, 'before' )] *)
Definition createPositionBefore (x : node) (w : Writer) : Position :=
  match pathOf (nodeId x) (fragmentRoot w) with
  | Some p => mkPosition FragmentRoot p
  | None =>
      match pathOf (nodeId x) (documentRoot w) with
      | Some p => mkPosition DocumentRoot p
      | None => mkPosition DocumentRoot []
      end
  end.

(** [writer.createPositionFromPath( root, path )] *)
Definition createPositionFromPath (r : rootId) (p : list nat) : Position :=
  mkPosition r p.

Definition maxOffset (ch : list node) : nat :=
  fold_right (fun c acc => offsetSize c + acc) 0 ch.

(** [writer.createPositionAt( documentFragment, 'end' )] *)
Definition createPositionAtEnd (w : Writer) : Position :=
  mkPosition FragmentRoot [maxOffset (fragmentRoot w)].

(** [writer.createRangeIn( documentFragment )] *)
Definition createRangeIn (w : Writer) : Range :=
  mkRange (mkPosition FragmentRoot [0]) (createPositionAtEnd w).

(** ** Objects and maps keyed by strings, in insertion order *)

Section Assoc.
Variable V : Type.

Fixpoint lookup (key : string) (m : list (string * V)) : option V :=
  match m with
  | [] => None
  | (k, v) :: rest => if String.eqb k key then Some v else lookup key rest
  end.

(** [m[ key ] = v], [map.set( key, v )] *)
Fixpoint assign (key : string) (v : V) (m : list (string * V)) : list (string * V) :=
  match m with
  | [] => [(key, v)]
  | (k, v') :: rest =>
      if String.eqb k key then (k, v) :: rest else (k, v') :: assign key v rest
  end.
End Assoc.

(** [( m[ key ] ||= [] ).push( x )] *)
Fixpoint pushTo (key : string) (x : node) (m : list (string * list node))
  : list (string * list node) :=
  match m with
  | [] => [(key, [x])]
  | (k, xs) :: rest =>
      if String.eqb k key then (k, xs ++ [x]) :: rest else (k, xs) :: pushTo key x rest
  end.

(** [documentFragment.markers.set( name, range )] *)
Definition setFragmentMarker (nm : string) (r : Range) (w : Writer) : Writer :=
  mkWriter (documentRoot w) (fragmentRoot w) (modelMarkers w)
           (assign nm r (fragmentMarkers w)) (nextId w) (insertLog w).

(** [model.markers.has( name )] *)
Definition hasMarker (nm : string) (w : Writer) : bool :=
  existsb (fun m => String.eqb (name m) nm) (modelMarkers w).

(** [writer.addMarker( name, { range, usingOperation, affectsData } )].
    The marker is registered with the range handed over.  When the model
    has a marker of that name the writer throws
    [writer-addmarker-marker-exists]: there is no writer to go on with. *)
Definition addMarker (nm : string) (r : Range) (w : Writer) : option Writer :=
  if hasMarker nm w then None
  else Some (mkWriter (documentRoot w) (fragmentRoot w) (modelMarkers w ++ [mkMarker nm r])
                      (fragmentMarkers w) (nextId w) (insertLog w)).

(** [Array.prototype.sort] with a comparator that answers 1 when its first
    argument is to come after the second: insertion of every element,
    from the last to the first, into the part already sorted. *)
Section Sort.
Variable A : Type.
Variable comesAfter : A -> A -> bool.

Fixpoint sortInsert (x : A) (l : list A) : list A :=
  match l with
  | [] => [x]
  | y :: r => if comesAfter x y then y :: sortInsert x r else x :: l
  end.

Definition sort (l : list A) : list A := fold_right sortInsert [] l.
End Sort.

(** ** assignfragmentmarkers.ts: markers as fake elements around a copy *)

Module AssignFragmentMarkers.

Definition _getCopyableMarkersFromSelection (w : Writer) (selection : Selection)
  : list Marker :=
  flat_map
    (fun selectionRange =>
       filter (fun marker => String.prefix "comment:" (name marker))
              (getMarkersIntersectingRange (modelMarkers w) selectionRange))
    (getRanges selection).

(** One entry of [sortedMarkers]. *)
Record Boundary : Type := mkBoundary {
  position : Position;
  marker : Marker;
  type : string
}.

Definition boundaries (m : Marker) : list Boundary :=
  [ mkBoundary (rstart (markerRange m)) m "start";
    mkBoundary (rend (markerRange m)) m "end" ].

(** Positions sorted backwards, so that an insertion does not move the
    positions still to come. *)
Definition sortedMarkers (markers : list Marker) : list Boundary :=
  sort (fun a b => isBefore (position a) (position b))
       (flat_map boundaries markers).

(** The body of the loop over [sortedMarkers]. *)
Definition insertFakeMarker (st : list (string * list node) * Writer) (b : Boundary)
  : list (string * list node) * Writer :=
  let (mappedMarkers, w) := st in
  let (fakeMarker, w1) :=
    createElement "$marker"
      [ ("data-name", VStr (name (marker b))); ("data-type", VStr (type b)) ] w in
  (pushTo (name (marker b)) fakeMarker mappedMarkers,
   insert fakeMarker (position b) w1).

(** The map is keyed by the marker; markers are unique by name. *)
Definition _insertFakeMarkersElements (w : Writer) (markers : list Marker)
  : list (string * list node) * Writer :=
  fold_left insertFakeMarker (sortedMarkers markers) ([], w).

(** [item.getAttribute( 'data-name' )], when it is a non-empty string. *)
Definition fakeMarkerName (item : node) : option string :=
  match getAttribute "data-name" item with
  | Some (VStr s) => if String.eqb s "" then None else Some s
  | _ => None
  end.

Definition collectFakeMarker (acc : list (string * list node)) (item : node)
  : list (string * list node) :=
  if isElement item then
    match fakeMarkerName item with
    | Some nm => pushTo nm item acc
    | None => acc
    end
  else acc.

Definition _getAllFakeMarkersFromElement (w : Writer) : list (string * list node) :=
  fold_left collectFakeMarker (itemsIn (fragmentRoot w)) [].

Definition dataTypeIs (t : string) (e : node) : bool :=
  match getAttribute "data-type" e with
  | Some (VStr s) => String.eqb s t
  | _ => false
  end.

(** The callback of the [reduce] in [_removeFakeMarkersFromFragment]
    (and, word for word, in [_removeFakeMarkersInsideFragment]). *)
Definition removeFakeMarkers (st : list (string * Range) * Writer)
           (entry : string * list node) : list (string * Range) * Writer :=
  let (acc, w) := st in
  let (markerName, elements) := entry in
  match elements with
  | [] => (acc, w)
  | startElement :: [] =>
      let '(acc1, w1) :=
        if dataTypeIs "end" startElement then
          let endPosition := createPositionBefore startElement w in
          let startPosition := createPositionFromPath (root endPosition) [0] in
          let w' := remove startElement w in
          (assign markerName (mkRange startPosition endPosition) acc, w')
        else (acc, w) in
      if dataTypeIs "start" startElement then
        let startPosition := createPositionBefore startElement w1 in
        let w' := remove startElement w1 in
        let endPosition := createPositionAtEnd w' in
        (assign markerName (mkRange startPosition endPosition) acc1, w')
      else (acc1, w1)
  | startElement :: endElement :: _ =>
      let startPosition := createPositionBefore startElement w in
      let w1 := remove startElement w in
      let endPosition := createPositionBefore endElement w1 in
      let w2 := remove endElement w1 in
      (assign markerName (mkRange startPosition endPosition) acc, w2)
  end.

Definition _removeFakeMarkersFromFragment (w : Writer)
           (markers : list (string * list node)) : list (string * Range) * Writer :=
  fold_left removeFakeMarkers markers ([], w).

Definition _removeFakeMarkersInsideFragment := _removeFakeMarkersFromFragment.

Definition beforeCopySelectionMarkersFragment (w : Writer) (selection : Selection)
  : list (string * list node) * Writer :=
  let copyableMarkers := _getCopyableMarkersFromSelection w selection in
  _insertFakeMarkersElements w copyableMarkers.

Definition insertAndCollectFakeMarkers := beforeCopySelectionMarkersFragment.

Definition setFragmentMarkers (ranges : list (string * Range)) (w : Writer) : Writer :=
  fold_left (fun w' '(nm, r) => setFragmentMarker nm r w') ranges w.

(** [Array.from( inserted.values() ).flat()] *)
Definition insertedElements (inserted : list (string * list node)) : list node :=
  flat_map snd inserted.

Definition removeAll (elements : list node) (w : Writer) : Writer :=
  fold_left (fun w' e => remove e w') elements w.

Definition afterCopySelectionMarkersFragment (w : Writer)
           (insertedFakeMarkersElements : list (string * list node)) : Writer :=
  let fakeFragmentMarkersInMap := _getAllFakeMarkersFromElement w in
  let (fakeMarkersRanges, w1) :=
    _removeFakeMarkersFromFragment w fakeFragmentMarkersInMap in
  let w2 := setFragmentMarkers fakeMarkersRanges w1 in
  removeAll (insertedElements insertedFakeMarkersElements) w2.

(** The loop "handle case when selection is inside marker". *)
Definition coverWholeFragment (ranges : list (string * Range)) (w : Writer)
           (entry : string * list node) : Writer :=
  match lookup (fst entry) ranges with
  | Some _ => w
  | None => setFragmentMarker (fst entry) (createRangeIn w) w
  end.

Definition collectAndRemoveFakeMarkers (w : Writer)
           (insertedFakeMarkersElements : list (string * list node)) : Writer :=
  let fakeFragmentMarkersInMap := _getAllFakeMarkersFromElement w in
  let (fakeMarkersRangesInsideRange, w1) :=
    _removeFakeMarkersInsideFragment w fakeFragmentMarkersInMap in
  let w2 := setFragmentMarkers fakeMarkersRangesInsideRange w1 in
  let w3 := fold_left (coverWholeFragment fakeMarkersRangesInsideRange)
                      insertedFakeMarkersElements w2 in
  removeAll (insertedElements insertedFakeMarkersElements) w3.

End AssignFragmentMarkers.

(** ** The earlier revision of the marker utilities (src/unnamed/part_000) *)

(** The fake elements of this revision record no kind, and the ranges of
    the fragment's markers are made from the positions of two fake
    elements, without looking at how many there are. *)
Module EarlierMarkers.

(** The selection is the one of the document. *)
Definition _extractCopyableMarkersInSelection (w : Writer) (selection : Selection)
  : list Marker :=
  flat_map
    (fun selectionRange =>
       filter (fun marker => String.prefix "comment:" (name marker))
              (getMarkersIntersectingRange (modelMarkers w) selectionRange))
    (getRanges selection).

Record Boundary : Type := mkBoundary {
  position : Position;
  marker : Marker
}.

Definition boundaries (m : Marker) : list Boundary :=
  [ mkBoundary (rstart (markerRange m)) m; mkBoundary (rend (markerRange m)) m ].

Definition sortedMarkers (markers : list Marker) : list Boundary :=
  sort (fun a b => isBefore (position a) (position b))
       (flat_map boundaries markers).

Definition insertFakeMarker (st : list (string * list node) * Writer) (b : Boundary)
  : list (string * list node) * Writer :=
  let (mappedMarkers, w) := st in
  let (fakeMarker, w1) :=
    createElement "$marker" [ ("data-name", VStr (name (marker b))) ] w in
  (pushTo (name (marker b)) fakeMarker mappedMarkers,
   insert fakeMarker (position b) w1).

Definition _wrapCopyableMarkersWithFakeElements (w : Writer) (markers : list Marker)
  : list (string * list node) * Writer :=
  fold_left insertFakeMarker (sortedMarkers markers) ([], w).

Definition _restoreAllFakeMarkersFromElement (w : Writer) : list (string * list node) :=
  fold_left AssignFragmentMarkers.collectFakeMarker (itemsIn (fragmentRoot w)) [].

(** A range as this revision makes it: the end is a path whose last
    offset was decremented, and may be negative. *)
Record EarlierRange : Type := mkEarlierRange {
  er_start : Position;
  er_endRoot : rootId;
  er_endPath : list Z
}.

(** [endPath[ endPath.length - 1 ]--] *)
Definition decrementLast (p : list nat) : list Z :=
  map Z.of_nat (removelast p) ++ [Z.sub (Z.of_nat (last p 0)) 1].

(** The callback of the [reduce]; [None] stands for the exception thrown
    by [createPositionAt( undefined, 'before' )] when the entry has no
    second element, or by a position asked before an element that is in
    no tree. *)
Definition constructRange (w : Writer) (st : option (list (string * EarlierRange)))
           (entry : string * list node) : option (list (string * EarlierRange)) :=
  match st with
  | None => None
  | Some acc =>
      match snd entry with
      | startElement :: endElement :: _ =>
          let endPosition := createPositionBefore endElement w in
          let startPosition := createPositionBefore startElement w in
          match path endPosition, path startPosition with
          | [], _ | _, [] => None
          | _ :: _, _ :: _ =>
              Some (assign (fst entry)
                           (mkEarlierRange startPosition (root endPosition)
                                           (decrementLast (path endPosition)))
                           acc)
          end
      | _ => None
      end
  end.

Definition _constructElementsMarkersRanges (w : Writer)
           (markers : list (string * list node)) : option (list (string * EarlierRange)) :=
  fold_left (constructRange w) markers (Some []).

Definition beforeCopySelectionMarkersFragment (w : Writer) (selection : Selection)
  : list (string * list node) * Writer :=
  let copyableMarkers := _extractCopyableMarkersInSelection w selection in
  _wrapCopyableMarkersWithFakeElements w copyableMarkers.

(** The ranges are what is set on [documentFragment.markers], entry by
    entry; the writer is left after all the fake elements are removed. *)
Definition afterCopySelectionMarkersFragment (w : Writer)
           (insertedFakeMarkersElements : list (string * list node))
  : option (list (string * EarlierRange) * Writer) :=
  let fakeFragmentMarkersInMap := _restoreAllFakeMarkersFromElement w in
  match _constructElementsMarkersRanges w fakeFragmentMarkersInMap with
  | None => None
  | Some fakeMarkersRanges =>
      let allFakeMarkers :=
        AssignFragmentMarkers.insertedElements insertedFakeMarkersElements
        ++ flat_map snd fakeFragmentMarkersInMap in
      Some (fakeMarkersRanges, AssignFragmentMarkers.removeAll allFakeMarkers w)
  end.

End EarlierMarkers.

(** ** tableclipboard.ts: markers of the pasted content *)

(** [lodash.chunk( array, 2 )] *)
Fixpoint chunk2 (A : Type) (l : list A) : list (list A) :=
  match l with
  | [] => []
  | [a] => [[a]]
  | a :: b :: r => [a; b] :: chunk2 r
  end.

(** [s.lastIndexOf( c )]; [None] stands for -1. *)
Fixpoint lastIndexOf (c : ascii) (s : string) : option nat :=
  match s with
  | EmptyString => None
  | String a r =>
      match lastIndexOf c r with
      | Some k => Some (S k)
      | None => if Ascii.eqb a c then Some 0 else None
      end
  end.

(** [s.slice( 0, s.lastIndexOf( ':' ) )]; an end of -1 drops the last
    character. *)
Definition sliceToLastColon (s : string) : string :=
  match lastIndexOf ":"%char s with
  | Some k => substring 0 k s
  | None => substring 0 (String.length s - 1) s
  end.

Module TableClipboardMarkers.

(** One entry of [sortedMarkers] in [_convertMarkersToElements]. *)
Record Boundary : Type := mkBoundary { position : Position; bname : string }.

Definition boundaries (entry : string * Range) : list Boundary :=
  [ mkBoundary (rstart (snd entry)) (fst entry);
    mkBoundary (rend (snd entry)) (fst entry) ].

Definition sortedMarkers (markers : list (string * Range)) : list Boundary :=
  sort (fun a b => isBefore (position a) (position b))
       (flat_map boundaries markers).

Definition insertFakeMarker (w : Writer) (b : Boundary) : Writer :=
  let (fakeMarker, w1) :=
    createElement "$marker" [ ("data-name", VStr (bname b)) ] w in
  insert fakeMarker (position b) w1.

Definition _convertMarkersToElements (markers : list (string * Range)) (w : Writer)
  : Writer :=
  fold_left insertFakeMarker (sortedMarkers markers) w.

(** The callback of the [reduce] that groups the items by marker name. *)
Definition collectFakeElement (acc : list (string * list node)) (cellItem : node)
  : list (string * list node) :=
  match AssignFragmentMarkers.fakeMarkerName cellItem with
  | Some markerAttribute => pushTo markerAttribute cellItem acc
  | None => acc
  end.

Definition markersFakeElements (replacedCells : list node) : list (string * list node) :=
  fold_left collectFakeElement (flat_map items replacedCells) [].

(** How the decoding ends: it returns, or [writer.addMarker] throws and
    leaves the writer, and the number of [uid()] calls, as they are at
    that point. *)
Inductive Outcome : Type :=
| Returned (st : Writer * nat)
| Thrown (st : Writer * nat).

(** The next step of a loop: it is not made after an exception. *)
Definition andThen (o : Outcome) (step : Writer * nat -> Outcome) : Outcome :=
  match o with
  | Returned st => step st
  | Thrown st => Thrown st
  end.

Section Uid.
(** [uid()]: the n-th identifier handed out. *)
Variable uid : nat -> string.

Definition chunkMarkerName (markerName : string) (chunkOffset : nat) (calls : nat)
  : string * nat :=
  if 0 <? chunkOffset
  then (sliceToLastColon markerName ++ ":" ++ uid calls, S calls)%string
  else (markerName, calls).

(** The body of the loop over [positionsChunks]; the state is the
    writer and the number of [uid()] calls made so far. *)
Definition convertChunk (markerName : string) (st : Writer * nat)
           (indexed : nat * list node) : Outcome :=
  let (w, calls) := st in
  let (chunkOffset, positions) := indexed in
  match positions with
  | [] => Returned (w, calls)
  | startNode :: rest =>
      match rest with
      | endNode :: _ =>
          let range := mkRange (createPositionBefore startNode w)
                               (createPositionBefore endNode w) in
          let (nm, calls') := chunkMarkerName markerName chunkOffset calls in
          match addMarker nm range w with
          | Some w1 => Returned (remove startNode (remove endNode w1), calls')
          | None => Thrown (w, calls')
          end
      | [] => Returned (remove startNode w, calls)
      end
  end.

Definition indexed (A : Type) (l : list A) : list (nat * A) :=
  combine (seq 0 (List.length l)) l.

(** The loop over [positionsChunks], from the chunks still to come. *)
Definition convertChunks (markerName : string) (chunks : list (nat * list node))
           (st : Writer * nat) : Outcome :=
  fold_left (fun o chunk => andThen o (fun st' => convertChunk markerName st' chunk))
            chunks (Returned st).

Definition convertGroup (st : Writer * nat) (entry : string * list node) : Outcome :=
  convertChunks (fst entry) (indexed (chunk2 (snd entry))) st.

Definition convertGroups (groups : list (string * list node)) (st : Writer * nat)
  : Outcome :=
  fold_left (fun o entry => andThen o (fun st' => convertGroup st' entry))
            groups (Returned st).

Definition _convertElementsToMarkers (replacedCells : list node) (w : Writer)
           (calls : nat) : Outcome :=
  convertGroups (markersFakeElements replacedCells) (w, calls).
End Uid.

End TableClipboardMarkers.

(** ** Tables: cells, slots and the table walker *)

(** [parseInt( cell.getAttribute( key ) || '1' )] for the span attributes,
    which the model keeps as numbers; a span is at least one slot. *)
Definition spanOf (key : string) (cell : node) : nat :=
  match getAttribute key cell with
  | Some (VNum n) => Z.to_nat (Z.max 1 n)
  | _ => 1
  end.

Definition colspanOf : node -> nat := spanOf "colspan".
Definition rowspanOf : node -> nat := spanOf "rowspan".

(** Modelled from the spec: the table walker and its slots (section 4.1;
    tablewalker.ts is not among the sources).  A slot names the cell that
    covers it, its own row and column, the row and column of the anchor
    of the cell, and - for [getPositionBefore] - the row element it lies
    in and the index of the cell the walker stands at in that row. *)
Record TableSlot : Type := mkSlot {
  cell : node;
  row : nat;
  column : nat;
  cellAnchorRow : nat;
  cellAnchorColumn : nat;
  slotRow : node;
  cellIndex : nat
}.

Definition isAnchor (s : TableSlot) : bool :=
  (row s =? cellAnchorRow s) && (column s =? cellAnchorColumn s).

Definition cellWidth (s : TableSlot) : nat := colspanOf (cell s).
Definition cellHeight (s : TableSlot) : nat := rowspanOf (cell s).

Record WalkerOptions : Type := mkOptions {
  startRow : nat;
  endRow : option nat;
  startColumn : nat;
  endColumn : option nat;
  includeAllSlots : bool
}.

Definition defaultOptions : WalkerOptions := mkOptions 0 None 0 None false.

Definition overEnd (limit : option nat) (x : nat) : bool :=
  match limit with
  | Some e => e <? x
  | None => false
  end.

(** A slot outside the rows and columns asked for is passed over. *)
Definition shouldSkipSlot (o : WalkerOptions) (r c : nat) : bool :=
  (r <? startRow o) || (c <? startColumn o) || overEnd (endColumn o) c.

(** The slots covered by a cell that the walker has met, other than its
    anchor: row, column, and the cell with its anchor. *)
Definition Spanned : Type := list (nat * nat * (node * nat * nat)).

Fixpoint spannedAt (r c : nat) (m : Spanned) : option (node * nat * nat) :=
  match m with
  | [] => None
  | (r', c', x) :: rest =>
      if (r' =? r) && (c' =? c) then Some x else spannedAt r c rest
  end.

(** The slots of a cell anchored at [(r, c)], apart from the anchor. *)
Definition recordSpans (x : node) (r c : nat) (m : Spanned) : Spanned :=
  map (fun rc => (fst rc, snd rc, (x, r, c)))
      (filter (fun rc => negb ((fst rc =? r) && (snd rc =? c)))
              (list_prod (seq r (rowspanOf x)) (seq c (colspanOf x))))
  ++ m.

(** One row: at each column, a slot covered from above or from the left
    is reported (in [includeAllSlots] mode) without reading a cell;
    otherwise the next cell of the row is anchored there.  [idx] counts
    the cells of the row already passed, [next] is the column after the
    cell read last. *)
Fixpoint walkRow (fuel : nat) (o : WalkerOptions) (rowElement : node) (r : nat)
         (cells : list node) (c idx : nat) (next : option nat) (m : Spanned)
  : list TableSlot * Spanned :=
  match fuel with
  | 0 => ([], m)
  | S fuel' =>
      if overEnd (endColumn o) c then ([], m)
      else
        let step (idx' : nat) := if match next with
                                    | Some n => S c =? n
                                    | None => false
                                    end then S idx' else idx' in
        match spannedAt r c m with
        | Some (x, ar, ac) =>
            let here :=
              if includeAllSlots o && negb (shouldSkipSlot o r c)
              then [mkSlot x r c ar ac rowElement idx] else [] in
            let (rest, m') := walkRow fuel' o rowElement r cells (S c) (step idx) next m in
            (here ++ rest, m')
        | None =>
            match cells with
            | [] => ([], m)
            | x :: cells' =>
                let m1 := recordSpans x r c m in
                let here :=
                  if shouldSkipSlot o r c then []
                  else [mkSlot x r c r c rowElement idx] in
                let idx' := if colspanOf x =? 1 then S idx else idx in
                let (rest, m') :=
                  walkRow fuel' o rowElement r cells' (S c) idx' (Some (c + colspanOf x)) m1 in
                (here ++ rest, m')
            end
        end
  end.

Definition rowFuel (cells : list node) (m : Spanned) : nat :=
  List.length m + fold_right (fun x acc => colspanOf x + acc) 0 cells + 1.

(** The rows in turn, until the end row. *)
Fixpoint walkRows (o : WalkerOptions) (rows : list node) (r : nat) (m : Spanned)
  : list TableSlot :=
  match rows with
  | [] => []
  | rowElement :: rows' =>
      if overEnd (endRow o) r then []
      else if isElementNamed "tableRow" rowElement then
        let cells := childrenOf rowElement in
        let (slots, m') := walkRow (rowFuel cells m) o rowElement r cells 0 0 None m in
        slots ++ walkRows o rows' (S r) m'
      else walkRows o rows' r m
  end.

(** [[ ...new TableWalker( table, options ) ]] *)
Definition TableWalker (table : node) (o : WalkerOptions) : list TableSlot :=
  walkRows o (childrenOf table) 0 [].

(** ** Cloning and updating elements *)

(** [writer.cloneElement( element )]: a deep copy, every node of it a new
    object. *)
Fixpoint cloneNode (n : node) (next : nat) {struct n} : node * nat :=
  match n with
  | Text _ a d => (Text next a d, S next)
  | Element _ nm a ch =>
      let (ch', next') :=
        (fix go (l : list node) (k : nat) {struct l} : list node * nat :=
           match l with
           | [] => ([], k)
           | c :: r =>
               let (c', k1) := cloneNode c k in
               let (r', k2) := go r k1 in
               (c' :: r', k2)
           end) ch (S next) in
      (Element next nm a ch', next')
  end.

Definition cloneElement (x : node) (w : Writer) : node * Writer :=
  let (x', k) := cloneNode x (nextId w) in
  (x', mkWriter (documentRoot w) (fragmentRoot w) (modelMarkers w) (fragmentMarkers w)
                k (insertLog w)).



(** Applying [f] to the node with identity [i], wherever it is in [n]. *)
Fixpoint updateNode (i : nat) (f : node -> node) (n : node) {struct n} : node :=
  match n with
  | Text _ _ _ => n
  | Element j nm a ch =>
      Element j nm a
        ((fix go (l : list node) {struct l} : list node :=
            match l with
            | [] => []
            | c :: r => (if nodeId c =? i then f c else updateNode i f c) :: go r
            end) ch)
  end.

Definition updateIn (i : nat) (f : node -> node) (ch : list node) : list node :=
  childrenOf (updateNode i f (asRoot ch)).

Fixpoint removeAttr (key : string) (a : attrs) : attrs :=
  match a with
  | [] => []
  | (k, v) :: rest =>
      if String.eqb k key then removeAttr key rest else (k, v) :: removeAttr key rest
  end.

Fixpoint setAttr (key : string) (v : value) (a : attrs) : attrs :=
  match a with
  | [] => [(key, v)]
  | (k, v') :: rest =>
      if String.eqb k key then (k, v) :: rest else (k, v') :: setAttr key v rest
  end.

Definition withAttrs (f : attrs -> attrs) (n : node) : node :=
  match n with
  | Text i a d => Text i (f a) d
  | Element i nm a ch => Element i nm (f a) ch
  end.

(** [updateNumericAttribute( key, value, item, writer, 1 )]: the default
    value is not stored. *)
Definition updateNumericAttribute (key : string) (v : nat) (x : node) (w : Writer)
  : node * Writer :=
  let f := withAttrs (if v =? 1 then removeAttr key else setAttr key (VNum (Z.of_nat v))) in
  (f x,
   setRoot FragmentRoot (updateIn (nodeId x) f (fragmentRoot w))
     (setRoot DocumentRoot (updateIn (nodeId x) f (documentRoot w)) w)).

(** [writer.createPositionAfter( element )] *)
Definition createPositionAfter (x : node) (w : Writer) : Position :=
  let p := createPositionBefore x w in
  mkPosition (root p) (removelast (path p) ++ [S (last (path p) 0)]).

(** [tableSlot.getPositionBefore()]: the position in the row of the slot,
    before the cell the walker stood at. *)
Definition getPositionBefore (s : TableSlot) (w : Writer) : Position :=
  let p := createPositionBefore (slotRow s) w in
  mkPosition (root p) (path p ++ [cellIndex s]).

(** ** tableclipboard.ts: making the selection a rectangle *)

(** The rectangle of a selection, bounds included. *)
Record Rect : Type := mkRect {
  firstColumn : nat;
  lastColumn : nat;
  firstRow : nat;
  lastRow : nat
}.

Record Dimensions : Type := mkDimensions { width : nat; height : nat }.

(** [{ first, last }] *)
Record Limit : Type := mkLimit { first : nat; last : nat }.

(** What the overlap queries report of a slot. *)
Record SlotInfo (C : Type) : Type := mkSlotInfo {
  si_cell : C;
  si_row : nat;
  si_column : nat;
  si_cellWidth : nat;
  si_cellHeight : nat
}.

Arguments mkSlotInfo {C} _ _ _ _ _.
Arguments si_cell {C} _.
Arguments si_row {C} _.
Arguments si_column {C} _.
Arguments si_cellWidth {C} _.
Arguments si_cellHeight {C} _.

(** The functions of [TableUtils] and of utils/structure.ts that
    tableclipboard.ts calls (neither file is among the sources), as an
    interface: [S] is the state they act on - the selected table, with the
    writer - and [C] is what stands for a cell. *)
Class TableStructure (S C : Type) : Type := {
  getColumns : S -> nat;
  getRows : S -> nat;
  insertColumns : nat -> nat -> S -> S;
  insertRows : nat -> nat -> S -> S;
  getColumnIndexes : list C -> S -> Limit;
  getRowIndexes : list C -> S -> Limit;
  isSelectionRectangular : list C -> S -> bool;
  getHorizontallyOverlappingCells : nat -> S -> list (SlotInfo C);
  getVerticallyOverlappingCells : nat -> nat -> S -> list (SlotInfo C);
  splitHorizontally : C -> nat -> S -> C * S;
  splitVertically : C -> nat -> nat -> S -> C * S;
  adjustLastRowIndex : Rect -> S -> nat;
  adjustLastColumnIndex : Rect -> S -> nat
}.

(** Checks if a cell at a given row (column) is affected by a rectangular
    selection defined by first/last column (row). *)
Definition isAffectedBySelection (index span : nat) (limit : Limit) : bool :=
  let endIndex := index + span - 1 in
  let isInsideSelection := (first limit <=? index) && (index <=? last limit) in
  let overlapsSelectionFromOutside := (index <? first limit) && (first limit <=? endIndex) in
  isInsideSelection || overlapsSelectionFromOutside.

Section Rectangularize.
Context {S C : Type} `{TableStructure S C}.

(** [array.map( f )] for an [f] that changes the state. *)
Fixpoint mapWith (A B : Type) (f : A -> S -> B * S) (l : list A) (s : S) : list B * S :=
  match l with
  | [] => ([], s)
  | x :: r =>
      let (y, s1) := f x s in
      let (ys, s2) := mapWith f r s1 in
      (y :: ys, s2)
  end.

(** [None] is the [undefined] returned when no split is needed. *)
Definition doHorizontalSplit (splitRow : nat) (limitColumns : Limit) (s : S)
           (startRow : nat) : option (list C) * S :=
  if splitRow <? 1 then (None, s)
  else
    let overlappingCells := getVerticallyOverlappingCells splitRow startRow s in
    let cellsToSplit :=
      filter (fun i => isAffectedBySelection (si_column i) (si_cellWidth i) limitColumns)
             overlappingCells in
    let (cells, s') :=
      mapWith (fun i => splitHorizontally (si_cell i) splitRow) cellsToSplit s in
    (Some cells, s').

Definition doVerticalSplit (splitColumn : nat) (limitRows : Limit) (s : S)
  : option (list C) * S :=
  if splitColumn <? 1 then (None, s)
  else
    let overlappingCells := getHorizontallyOverlappingCells splitColumn s in
    let cellsToSplit :=
      filter (fun i => isAffectedBySelection (si_row i) (si_cellHeight i) limitRows)
             overlappingCells in
    let (cells, s') :=
      mapWith (fun i => splitVertically (si_cell i) (si_column i) splitColumn)
              cellsToSplit s in
    (Some cells, s').

Definition splitCellsToRectangularSelection (dimensions : Rect) (s : S) : S :=
  let rowIndexes := mkLimit (firstRow dimensions) (lastRow dimensions) in
  let columnIndexes := mkLimit (firstColumn dimensions) (lastColumn dimensions) in
  let s1 := snd (doVerticalSplit (firstColumn dimensions) rowIndexes s) in
  let s2 := snd (doVerticalSplit (lastColumn dimensions + 1) rowIndexes s1) in
  let s3 := snd (doHorizontalSplit (firstRow dimensions) columnIndexes s2 0) in
  snd (doHorizontalSplit (lastRow dimensions + 1) columnIndexes s3 (firstRow dimensions)).

(** Expand the table (in place) to the expected size. *)
Definition expandTableSize (expectedHeight expectedWidth : nat) (s : S) : S :=
  let tableWidth := getColumns s in
  let tableHeight := getRows s in
  let s1 := if tableWidth <? expectedWidth
            then insertColumns tableWidth (expectedWidth - tableWidth) s else s in
  if tableHeight <? expectedHeight
  then insertRows tableHeight (expectedHeight - tableHeight) s1 else s1.

(** Prepares a table for pasting and returns the adjusted selection. *)
Definition prepareTableForPasting (selectedTableCells : list C)
           (pastedDimensions : Dimensions) (s : S) : Rect * S :=
  let columnIndexes := getColumnIndexes selectedTableCells s in
  let rowIndexes := getRowIndexes selectedTableCells s in
  let selection := mkRect (first columnIndexes) (last columnIndexes)
                          (first rowIndexes) (last rowIndexes) in
  let shouldExpandSelection := List.length selectedTableCells =? 1 in
  let (selection1, s1) :=
    if shouldExpandSelection then
      let sel := mkRect (firstColumn selection)
                        (lastColumn selection + width pastedDimensions - 1)
                        (firstRow selection)
                        (lastRow selection + height pastedDimensions - 1) in
      (sel, expandTableSize (lastRow sel + 1) (lastColumn sel + 1) s)
    else (selection, s) in
  if shouldExpandSelection || negb (isSelectionRectangular selectedTableCells s1) then
    (selection1, splitCellsToRectangularSelection selection1 s1)
  else
    let lastRow' := adjustLastRowIndex selection1 s1 in
    let selection2 := mkRect (firstColumn selection1) (lastColumn selection1)
                             (firstRow selection1) lastRow' in
    let lastColumn' := adjustLastColumnIndex selection2 s1 in
    (mkRect (firstColumn selection2) lastColumn' (firstRow selection2) (lastRow selection2),
     s1).
End Rectangularize.

(** ** tableclipboard.ts: replacing the selected cells with the pasted ones *)

(** [array[ i ] = v] on a row of the location map; an index past the end
    extends the array, the slots in between staying empty. *)
Fixpoint setColumn (A : Type) (i : nat) (v : option A) (l : list (option A))
  : list (option A) :=
  match i, l with
  | 0, [] => [v]
  | 0, _ :: r => v :: r
  | S i', [] => None :: setColumn i' v []
  | S i', x :: r => x :: setColumn i' v r
  end.

(** [map[ row ][ column ] = cell]; a row past the end of the map is not
    followed further (nothing is stored). *)
Fixpoint setLocation (A : Type) (r c : nat) (v : option A) (m : list (list (option A)))
  : list (list (option A)) :=
  match r, m with
  | _, [] => []
  | 0, line :: rest => setColumn c v line :: rest
  | S r', line :: rest => line :: setLocation r' c v rest
  end.

(** Returns a two-dimensional array that is addressed by [ row ][ column ]
    and stores the cells anchored at the given location. *)
Definition createLocationMap (table : node) (width height : nat)
  : list (list (option node)) :=
  fold_left (fun m s => setLocation (row s) (column s) (Some (cell s)) m)
            (TableWalker table defaultOptions)
            (repeat (repeat None width) height).

(** [map[ i ][ j ]] *)
Definition locationAt (m : list (list (option node))) (i j : nat) : option node :=
  nth j (nth i m []) None.

(** Modelled from the spec: [trimTableCellIfNeeded] of utils/structure.ts
    (section 4.4, step 6): a span that would run past the last row or
    column of the rectangle is cut back to end there. *)
Definition trimTableCellIfNeeded (tableCell : node) (cellRow cellColumn : nat)
           (limitRow limitColumn : nat) (w : Writer) : node * Writer :=
  let endColumn := cellColumn + colspanOf tableCell - 1 in
  let (cell1, w1) :=
    if limitColumn <? endColumn
    then updateNumericAttribute "colspan" (limitColumn - cellColumn + 1) tableCell w
    else (tableCell, w) in
  let endRow := cellRow + rowspanOf cell1 - 1 in
  if limitRow <? endRow
  then updateNumericAttribute "rowspan" (limitRow - cellRow + 1) cell1 w1
  else (cell1, w1).

(** Replaces a single table slot: returns the inserted table cell, or
    none if the slot is to remain empty. *)
Definition _replaceTableSlotCell (tableSlot : TableSlot) (cellToInsert : option node)
           (insertPosition : Position) (w : Writer) : option node * Writer :=
  let w1 := if isAnchor tableSlot then remove (cell tableSlot) w else w in
  match cellToInsert with
  | None => (None, w1)
  | Some x => (Some x, insert x insertPosition w1)
  end.

(** The state of the loop over [selectedTableMap]: the writer,
    [cellsToSelect] and [insertPosition]. *)
Record ReplaceState : Type := mkReplaceState {
  rs_writer : Writer;
  cellsToSelect : list node;
  insertPosition : Position
}.

(** The body of the loop over [selectedTableMap]. *)
Definition replaceSlot (pastedTableLocationMap : list (list (option node)))
           (pastedWidth pastedHeight : nat) (selection : Rect)
           (st : ReplaceState) (tableSlot : TableSlot) : ReplaceState :=
  let w := rs_writer st in
  let insertPosition0 :=
    if column tableSlot =? firstColumn selection
    then getPositionBefore tableSlot w else insertPosition st in
  let pastedRow := row tableSlot - firstRow selection in
  let pastedColumn := column tableSlot - firstColumn selection in
  let pastedCell :=
    locationAt pastedTableLocationMap (pastedRow mod pastedHeight)
               (pastedColumn mod pastedWidth) in
  let (cellToInsert, w1) :=
    match pastedCell with
    | Some x => let (x', w') := cloneElement x w in (Some x', w')
    | None => (None, w)
    end in
  let (newTableCell, w2) :=
    _replaceTableSlotCell tableSlot cellToInsert insertPosition0 w1 in
  match newTableCell with
  | None => mkReplaceState w2 (cellsToSelect st) insertPosition0
  | Some x =>
      let (x', w3) :=
        trimTableCellIfNeeded x (row tableSlot) (column tableSlot)
                              (lastRow selection) (lastColumn selection) w2 in
      mkReplaceState w3 (cellsToSelect st ++ [x']) (createPositionAfter x' w3)
  end.

(** [selectedTableMap] *)
Definition selectedTableMap (selectedTable : node) (selection : Rect) : list TableSlot :=
  TableWalker selectedTable
    (mkOptions (firstRow selection) (Some (lastRow selection))
               (firstColumn selection) (Some (lastColumn selection)) true).

(** The loop of [_replaceSelectedCellsWithPasted] over the slots of the
    selection.  ([insertPosition] is assigned at the first slot.) *)
Definition replaceSlots (pastedTable : node) (pastedDimensions : Dimensions)
           (selectedTable : node) (selection : Rect) (w : Writer) : ReplaceState :=
  let pastedTableLocationMap :=
    createLocationMap pastedTable (width pastedDimensions) (height pastedDimensions) in
  fold_left
    (replaceSlot pastedTableLocationMap (width pastedDimensions)
                 (height pastedDimensions) selection)
    (selectedTableMap selectedTable selection)
    (mkReplaceState w [] (mkPosition DocumentRoot [])).

(** [parseInt( table.getAttribute( key ) || '0' )] *)
Definition headingOf (key : string) (table : node) : nat :=
  match getAttribute key table with
  | Some (VNum n) => Z.to_nat n
  | _ => 0
  end.

Section ReplaceSelectedCells.
(** The structure utilities, acting on the selected table through the
    writer. *)
Context `{TableStructure Writer node}.

(** Replaces the part of [selectedTable] with [pastedTable]. *)
Definition _replaceSelectedCellsWithPasted (pastedTable : node)
           (pastedDimensions : Dimensions) (selectedTable : node) (selection : Rect)
           (w : Writer) : list node * Writer :=
  let st := replaceSlots pastedTable pastedDimensions selectedTable selection w in
  let headingRows := headingOf "headingRows" selectedTable in
  let headingColumns := headingOf "headingColumns" selectedTable in
  let areHeadingRowsIntersectingSelection :=
    (firstRow selection <? headingRows) && (headingRows <=? lastRow selection) in
  let areHeadingColumnsIntersectingSelection :=
    (firstColumn selection <? headingColumns)
    && (headingColumns <=? lastColumn selection) in
  let (cells1, w1) :=
    if areHeadingRowsIntersectingSelection then
      let columnsLimit := mkLimit (firstColumn selection) (lastColumn selection) in
      let (newCells, w') :=
        doHorizontalSplit headingRows columnsLimit (rs_writer st) (firstRow selection) in
      (cellsToSelect st ++ match newCells with Some l => l | None => [] end, w')
    else (cellsToSelect st, rs_writer st) in
  if areHeadingColumnsIntersectingSelection then
    let rowsLimit := mkLimit (firstRow selection) (lastRow selection) in
    let (newCells, w') := doVerticalSplit headingColumns rowsLimit w1 in
    (cells1 ++ match newCells with Some l => l | None => [] end, w')
  else (cells1, w1).
End ReplaceSelectedCells.

(** ** tableclipboard.ts: the handler of [insertContent] *)

(** The node as the tree holds it now: an element passed around is the
    object in the tree, with the changes made to it since. *)
Definition findNode (i : nat) (ch : list node) : option node :=
  find (fun n => nodeId n =? i) (itemsIn ch).

Definition current (x : node) (w : Writer) : node :=
  match findNode (nodeId x) (fragmentRoot w) with
  | Some y => y
  | None =>
      match findNode (nodeId x) (documentRoot w) with
      | Some y => y
      | None => x
      end
  end.

(** The content to insert is what the writer holds as its fragment root. *)
Definition holdContent (c : content) (w : Writer) : Writer :=
  setRoot FragmentRoot
          (match c with DocumentFragment ch => ch | Item n => [n] end) w.

Definition isDocumentFragment (c : content) : bool :=
  match c with DocumentFragment _ => true | Item _ => false end.

(** The [selectable] argument of [insertContent]. *)
Inductive Selectable : Type :=
| NoSelectable
| TheDocumentSelection
| AnotherSelection.

(** What the handler leaves behind: whether the event was stopped (the
    default [insertContent] is then skipped), the writer, the number of
    [uid()] calls made, and whether it ended by an exception. *)
Record Handled : Type := mkHandled {
  stopped : bool;
  h_writer : Writer;
  h_calls : nat;
  h_thrown : bool
}.

Section OnInsertContent.
Context `{TableStructure Writer node}.

Variable uid : nat -> string.
(** [tableUtils.getColumns( pastedTable )] and [getRows( pastedTable )]. *)
Variable pastedColumns : node -> nat.
Variable pastedRows : node -> nat.
(** [cropTableToDimensions] and [removeEmptyRowsColumns] of
    utils/structure.ts, which work on the pasted table. *)
Variable cropTableToDimensions : node -> nat * nat * nat * nat -> Writer -> node * Writer.
Variable removeEmptyRowsColumns : node -> node.
(** [cell.findAncestor( 'table' )] *)
Variable findAncestorTable : node -> Writer -> node.

(** Replaces the selected cells with the pasted table.  (The selection
    set on the new cells at the end is not part of the writer here.) *)
Definition _replaceSelectedCells (pastedTable : node) (selectedTableCells : list node)
           (w : Writer) : list node * Writer :=
  let pastedDimensions :=
    mkDimensions (pastedColumns pastedTable) (pastedRows pastedTable) in
  let (selection, w1) := prepareTableForPasting selectedTableCells pastedDimensions w in
  let selectionHeight := lastRow selection - firstRow selection + 1 in
  let selectionWidth := lastColumn selection - firstColumn selection + 1 in
  let cropDimensions :=
    (0, 0, Nat.min selectionHeight (height pastedDimensions) - 1,
     Nat.min selectionWidth (width pastedDimensions) - 1) in
  let (pastedTable', w2) := cropTableToDimensions pastedTable cropDimensions w1 in
  let selectedTable :=
    findAncestorTable (hd pastedTable selectedTableCells) w2 in
  _replaceSelectedCellsWithPasted pastedTable' pastedDimensions selectedTable selection w2.

Definition _onInsertContent (evtStopped : bool) (c : content) (selectable : Selectable)
           (model : Model) (selectedTableCells : list node) (w : Writer) (calls : nat)
  : Handled :=
  match selectable with
  | AnotherSelection => mkHandled evtStopped w calls false
  | _ =>
      match getTableIfOnlyTableInContent c model with
      | None => mkHandled evtStopped w calls false
      | Some pastedTable =>
          let w0 := holdContent c w in
          match selectedTableCells with
          | [] =>
              mkHandled evtStopped
                (setRoot FragmentRoot
                   (updateIn (nodeId pastedTable) removeEmptyRowsColumns (fragmentRoot w0))
                   w0)
                calls false
          | _ :: _ =>
              (* evt.stop() *)
              let w1 :=
                if isDocumentFragment c
                then TableClipboardMarkers._convertMarkersToElements (fragmentMarkers w0) w0
                else w0 in
              let (replacedCells, w2) :=
                _replaceSelectedCells (current pastedTable w1) selectedTableCells w1 in
              let outcome :=
                if isDocumentFragment c && (0 <? List.length (fragmentMarkers w0))
                then TableClipboardMarkers._convertElementsToMarkers
                       uid (map (fun x => current x w2) replacedCells) w2 calls
                else TableClipboardMarkers.Returned (w2, calls) in
              match outcome with
              | TableClipboardMarkers.Returned (w3, calls') =>
                  mkHandled true w3 calls' false
              | TableClipboardMarkers.Thrown (w3, calls') =>
                  mkHandled true w3 calls' true
              end
          end
      end
  end.
End OnInsertContent.

(** ** Predicates used in the statements *)

(** What the walk over the items accepts: the first table in document
    order, at whatever depth, with nothing that counts as content before
    it or after it. *)
Definition firstTableAlone (model : Model) (ch : list node) (t : node) : Prop :=
  exists before after,
    itemsIn ch = before ++ items t ++ after
    /\ isTable t = true
    /\ forallb (fun y => negb (isTable y)) before = true
    /\ hasContent model before = false
    /\ hasContent model after = false.

(** The entries an operation adds to the record of [insert] calls. *)
Definition insertsSince (w w' : Writer) : list (node * Position) :=
  skipn (List.length (insertLog w)) (insertLog w').

(** The fake element made for a boundary of a marker. *)
Definition isFakeMarkerFor (b : AssignFragmentMarkers.Boundary) (entry : node * Position) : Prop :=
  exists k,
    entry = (Element k "$marker"
               [ ("data-name", VStr (name (AssignFragmentMarkers.marker b)));
                 ("data-type", VStr (AssignFragmentMarkers.type b)) ] [],
             AssignFragmentMarkers.position b).

(** The fake element made for a boundary of a marker of the pasted content. *)
Definition isNamedFakeMarker (b : TableClipboardMarkers.Boundary)
           (entry : node * Position) : Prop :=
  exists k,
    entry = (Element k "$marker" [ ("data-name", VStr (TableClipboardMarkers.bname b)) ] [],
             TableClipboardMarkers.position b).

(** [w'] has lost nodes of [w] at most: no new identity in either root,
    and identities that were distinct still are. *)
Definition shrinks (w w' : Writer) : Prop :=
  (incl (idsIn (fragmentRoot w')) (idsIn (fragmentRoot w))
   /\ (NoDup (idsIn (fragmentRoot w)) -> NoDup (idsIn (fragmentRoot w'))))
  /\ (incl (idsIn (documentRoot w')) (idsIn (documentRoot w))
      /\ (NoDup (idsIn (documentRoot w)) -> NoDup (idsIn (documentRoot w')))).

(** The identities in each root are distinct. *)
Definition distinctIds (w : Writer) : Prop :=
  NoDup (idsIn (fragmentRoot w)) /\ NoDup (idsIn (documentRoot w)).

(** The node [x] is in neither root. *)
Definition gone (x : node) (w : Writer) : Prop :=
  ~ In (nodeId x) (idsIn (fragmentRoot w)) /\ ~ In (nodeId x) (idsIn (documentRoot w)).

(** The markers an operation registers with [addMarker]. *)
Definition markersSince (w w' : Writer) : list Marker :=
  skipn (List.length (modelMarkers w)) (modelMarkers w').

(** The number of consecutive pairs in a list. *)
Fixpoint pairCount (A : Type) (l : list A) : nat :=
  match l with
  | _ :: _ :: r => S (pairCount r)
  | _ => 0
  end.

Section RegisteredNames.
Variable uid : nat -> string.

(** The name with its last ':'-delimited part replaced by the k-th uid. *)
Definition freshName (markerName : string) (k : nat) : string :=
  (sliceToLastColon markerName ++ ":" ++ uid k)%string.

(** The names a group with [pairs] pairs is to be registered under, when
    [k] uids were handed out before: the marker name for the first pair,
    fresh names for the others. *)
Definition groupNames (markerName : string) (pairs k : nat) : list string :=
  match pairs with
  | 0 => []
  | S others => markerName :: map (fun j => freshName markerName (k + j)) (seq 0 others)
  end.

Fixpoint registeredNames (groups : list (string * list node)) (k : nat) : list string :=
  match groups with
  | [] => []
  | (markerName, elements) :: rest =>
      groupNames markerName (pairCount elements) k
      ++ registeredNames rest (k + (pairCount elements - 1))
  end.
End RegisteredNames.

(** The number of [uid()] calls made for a list of groups. *)
Fixpoint callsOf (groups : list (string * list node)) : nat :=
  match groups with
  | [] => 0
  | (_, elements) :: rest => (pairCount elements - 1) + callsOf rest
  end.

(** The two roots of [a] are those of [b]. *)
Definition sameRoots (a b : Writer) : Prop :=
  documentRoot a = documentRoot b /\ fragmentRoot a = fragmentRoot b.

(** The elements of a group in the order in which the decoding removes
    them: of each pair the second element, then the first; at the end
    the element that is left over. *)
Fixpoint removalOrder (elements : list node) : list node :=
  match elements with
  | s :: e :: r => e :: s :: removalOrder r
  | l => l
  end.

Definition removedBy (groups : list (string * list node)) : list node :=
  flat_map (fun g => removalOrder (snd g)) groups.

(** The pairs of a group, two by two in the order of the group; with
    each pair, the elements that were removed before the pair is
    reached, [earlier] and the pairs before it. *)
Fixpoint pairsOfGroup (earlier : list node) (elements : list node)
  : list (list node * (node * node)) :=
  match elements with
  | s :: e :: r => (earlier, (s, e)) :: pairsOfGroup (earlier ++ [e; s]) r
  | _ => []
  end.

Fixpoint pairsOf (earlier : list node) (groups : list (string * list node))
  : list (list node * (node * node)) :=
  match groups with
  | [] => []
  | g :: rest =>
      pairsOfGroup earlier (snd g) ++ pairsOf (earlier ++ removalOrder (snd g)) rest
  end.

(** The range from the position before [s] to the position before [e],
    as [w] makes them. *)
Definition rangeOver (s e : node) (w : Writer) : Range :=
  mkRange (createPositionBefore s w) (createPositionBefore e w).

(** The names can be registered one after the other: they differ from
    each other and the model has no marker of any of them. *)
Definition canRegister (names : list string) (w : Writer) : Prop :=
  NoDup names /\ forall nm, In nm names -> hasMarker nm w = false.

(** What a run of the decoding from [st] to [st'] did, when [earlier]
    had been removed from the tree of [w0] before: it registered markers
    under [names], one for each of [pairs] with the range over the pair
    as the tree was then, made [calls] calls of [uid], and removed
    [removed], in that order. *)
Definition ran (w0 : Writer) (earlier : list node) (st st' : Writer * nat)
           (names : list string) (calls : nat)
           (pairs : list (list node * (node * node))) (removed : list node) : Prop :=
  exists added,
    modelMarkers (fst st') = modelMarkers (fst st) ++ added
    /\ map name added = names
    /\ Forall2 (fun m pr =>
                  markerRange m
                  = rangeOver (fst (snd pr)) (snd (snd pr))
                              (AssignFragmentMarkers.removeAll (fst pr) w0))
               added pairs
    /\ snd st' = snd st + calls
    /\ sameRoots (fst st')
                 (AssignFragmentMarkers.removeAll (earlier ++ removed) w0).

(** How a run of the decoding ended: as [ran] says, or by an exception,
    which takes a name that could not be registered. *)
Definition ended (w0 : Writer) (earlier : list node) (st : Writer * nat)
           (o : TableClipboardMarkers.Outcome)
           (names : list string) (calls : nat)
           (pairs : list (list node * (node * node))) (removed : list node) : Prop :=
  match o with
  | TableClipboardMarkers.Returned st' => ran w0 earlier st st' names calls pairs removed
  | TableClipboardMarkers.Thrown _ => ~ canRegister names (fst st)
  end.

(** [position.nodeAfter]: the child that starts at the offset. *)
Fixpoint childAt (off : nat) (l : list node) : option node :=
  match l with
  | [] => None
  | c :: r =>
      if off =? 0 then Some c
      else if off <? offsetSize c then None
      else childAt (off - offsetSize c) r
  end.

Fixpoint nodeAt (p : list nat) (l : list node) : option node :=
  match p with
  | [] => None
  | off :: p' =>
      match childAt off l with
      | Some c => match p' with
                  | [] => Some c
                  | _ :: _ => nodeAt p' (childrenOf c)
                  end
      | None => None
      end
  end.

Definition nodeAfter (pos : Position) (w : Writer) : option node :=
  nodeAt (path pos) (getRoot (root pos) w).

(** The range starts just before the node [s] and ends just before the
    node [e] of the tree of [w]. *)
Definition isRangeOver (s e : node) (w : Writer) (r : Range) : Prop :=
  option_map nodeId (nodeAfter (rstart r) w) = Some (nodeId s)
  /\ option_map nodeId (nodeAfter (rend r) w) = Some (nodeId e).

(** The node of identity [i], where it is among the items [l], has no
    children. *)
Definition isLeafAmong (l : list node) (i : nat) : bool :=
  forallb (fun y => negb (nodeId y =? i)
                    || match childrenOf y with [] => true | _ :: _ => false end) l.

(** No text node is empty: every node takes at least one offset. *)
Definition noEmptyText (l : list node) : bool :=
  forallb (fun y => 1 <=? offsetSize y) (itemsIn l).




(** The rows of a table are [nrows] rows of [ncols] cells, none of which
    spans more than its own slot. *)
Definition plainGrid (table : node) (nrows ncols : nat) : Prop :=
  List.length (childrenOf table) = nrows
  /\ Forall (fun r => isElementNamed "tableRow" r = true
                      /\ List.length (childrenOf r) = ncols
                      /\ Forall (fun x => colspanOf x = 1 /\ rowspanOf x = 1)
                                (childrenOf r))
            (childrenOf table).

(** The slots of a rectangle, row by row. *)
Definition slotsOfRect (selection : Rect) : list (nat * nat) :=
  list_prod (seq (firstRow selection) (lastRow selection - firstRow selection + 1))
            (seq (firstColumn selection)
                 (lastColumn selection - firstColumn selection + 1)).

Definition coordsOf (s : TableSlot) : nat * nat := (row s, column s).

(** ** The grid as its layout *)

(** Modelled from the spec: the functions of [TableUtils] and of
    utils/structure.ts behind [TableStructure] (neither file is among the
    sources).  The table is taken as its layout (section 3): the cells,
    each anchored at a row and a column, with a row span and a column
    span of at least one; what a cell holds plays no part.  Cells are
    split as section 4.2 says; the row and column indexes of a selection
    are those of the anchors of its cells, which is the reading the
    comment in [prepareTableForPasting] fixes ("last row, each cell has
    rowspan = 2, so we need to return 3, not 2"). *)
Module Layout.

Record GridCell : Type := mkCell {
  gc_row : nat;
  gc_column : nat;
  gc_rowspan : nat;
  gc_colspan : nat
}.

Definition Grid : Type := list GridCell.

Definition cell_eqb (a b : GridCell) : bool :=
  (gc_row a =? gc_row b) && (gc_column a =? gc_column b)
  && (gc_rowspan a =? gc_rowspan b) && (gc_colspan a =? gc_colspan b).

Definition lastRowOf (k : GridCell) : nat := gc_row k + gc_rowspan k - 1.
Definition lastColumnOf (k : GridCell) : nat := gc_column k + gc_colspan k - 1.

(** The cell covers the slot [(r, c)]. *)
Definition covers (k : GridCell) (r c : nat) : bool :=
  (gc_row k <=? r) && (r <? gc_row k + gc_rowspan k)
  && (gc_column k <=? c) && (c <? gc_column k + gc_colspan k).

Definition slotInfo (k : GridCell) : SlotInfo GridCell :=
  mkSlotInfo k (gc_row k) (gc_column k) (gc_colspan k) (gc_rowspan k).

Definition maxOf (f : GridCell -> nat) (g : Grid) : nat :=
  fold_right (fun k acc => Nat.max (f k) acc) 0 g.

Definition minOf (f : GridCell -> nat) (g : Grid) : nat :=
  match g with
  | [] => 0
  | k :: rest => fold_right (fun k' acc => Nat.min (f k') acc) (f k) rest
  end.

Definition columns (g : Grid) : nat := maxOf (fun k => gc_column k + gc_colspan k) g.
Definition rows (g : Grid) : nat := maxOf (fun k => gc_row k + gc_rowspan k) g.

(** New columns (rows) of plain cells; the source only ever appends them
    at the end of the table. *)
Definition appendColumns (at_ n : nat) (g : Grid) : Grid :=
  g ++ map (fun rc => mkCell (fst rc) (snd rc) 1 1)
           (list_prod (seq 0 (rows g)) (seq at_ n)).

Definition appendRows (at_ n : nat) (g : Grid) : Grid :=
  g ++ map (fun rc => mkCell (fst rc) (snd rc) 1 1)
           (list_prod (seq at_ n) (seq 0 (columns g))).

Definition columnIndexes (cells : list GridCell) (g : Grid) : Limit :=
  mkLimit (minOf gc_column cells) (maxOf gc_column cells).

Definition rowIndexes (cells : list GridCell) (g : Grid) : Limit :=
  mkLimit (minOf gc_row cells) (maxOf gc_row cells).

(** At least two cells, and the area of the cells is the area of the
    rectangle around their first and last rows and columns. *)
Definition selectionIsRectangular (cells : list GridCell) (g : Grid) : bool :=
  if List.length cells <? 2 then false
  else
    let firstR := minOf gc_row cells in
    let lastR := maxOf lastRowOf cells in
    let firstC := minOf gc_column cells in
    let lastC := maxOf lastColumnOf cells in
    (lastR - firstR + 1) * (lastC - firstC + 1)
    =? fold_right (fun k acc => gc_rowspan k * gc_colspan k + acc) 0 cells.

(** The cells that a column (row) boundary cuts through. *)
Definition horizontallyOverlapping (overlapColumn : nat) (g : Grid)
  : list (SlotInfo GridCell) :=
  map slotInfo
      (filter (fun k => (gc_column k <? overlapColumn) && (overlapColumn <=? lastColumnOf k))
              g).

Definition verticallyOverlapping (overlapRow startRow : nat) (g : Grid)
  : list (SlotInfo GridCell) :=
  map slotInfo
      (filter (fun k => (startRow <=? gc_row k)
                        && (gc_row k <? overlapRow) && (overlapRow <=? lastRowOf k))
              g).

(** Splitting at a row: two cells of the same column span whose row spans
    add up to the row span of the cell; the new one is returned. *)
Definition splitAtRow (k : GridCell) (splitRow : nat) (g : Grid) : GridCell * Grid :=
  let newRowspan := splitRow - gc_row k in
  let newCell := mkCell splitRow (gc_column k) (gc_rowspan k - newRowspan) (gc_colspan k) in
  (newCell,
   flat_map (fun x => if cell_eqb x k
                      then [mkCell (gc_row k) (gc_column k) newRowspan (gc_colspan k); newCell]
                      else [x]) g).

(** Splitting at a column is the transpose. *)
Definition splitAtColumn (k : GridCell) (columnIndex splitColumn : nat) (g : Grid)
  : GridCell * Grid :=
  let newColspan := splitColumn - columnIndex in
  let newCell := mkCell (gc_row k) splitColumn (gc_rowspan k) (gc_colspan k - newColspan) in
  (newCell,
   flat_map (fun x => if cell_eqb x k
                      then [mkCell (gc_row k) (gc_column k) (gc_rowspan k) newColspan; newCell]
                      else [x]) g).

(** The cell the walker meets first among [l]: the one with the least
    row (column). *)
Fixpoint leastBy (f : GridCell -> nat) (l : list GridCell) : option GridCell :=
  match l with
  | [] => None
  | k :: rest =>
      match leastBy f rest with
      | Some k' => if f k' <? f k then Some k' else Some k
      | None => Some k
      end
  end.

(** The last row (column) of a selection whose cells in the last row
    (column) span further: the cells anchored there, within the columns
    (rows) of the selection, decide. *)
Definition adjustedLastRow (dimensions : Rect) (g : Grid) : nat :=
  let lastRowMap :=
    filter (fun k => (gc_row k =? lastRow dimensions)
                     && (firstColumn dimensions <=? gc_column k)
                     && (gc_column k <=? lastColumn dimensions)) g in
  if forallb (fun k => gc_rowspan k =? 1) lastRowMap then lastRow dimensions
  else lastRow dimensions
       + (match leastBy gc_column lastRowMap with Some k => gc_rowspan k | None => 1 end - 1).

Definition adjustedLastColumn (dimensions : Rect) (g : Grid) : nat :=
  let lastColumnMap :=
    filter (fun k => (gc_column k =? lastColumn dimensions)
                     && (firstRow dimensions <=? gc_row k)
                     && (gc_row k <=? lastRow dimensions)) g in
  if forallb (fun k => gc_colspan k =? 1) lastColumnMap then lastColumn dimensions
  else lastColumn dimensions
       + (match leastBy gc_row lastColumnMap with Some k => gc_colspan k | None => 1 end - 1).

#[export] Instance structure : TableStructure Grid GridCell := {|
  getColumns := columns;
  getRows := rows;
  insertColumns := appendColumns;
  insertRows := appendRows;
  getColumnIndexes := columnIndexes;
  getRowIndexes := rowIndexes;
  isSelectionRectangular := selectionIsRectangular;
  getHorizontallyOverlappingCells := horizontallyOverlapping;
  getVerticallyOverlappingCells := verticallyOverlapping;
  splitHorizontally := splitAtRow;
  splitVertically := splitAtColumn;
  adjustLastRowIndex := adjustedLastRow;
  adjustLastColumnIndex := adjustedLastColumn
|}.

(** The walker over a rectangle in [includeAllSlots] mode: the slots of
    the rectangle, row by row, each with the cell that covers it. *)
Definition walk (g : Grid) (rect : Rect) : list (nat * nat * option GridCell) :=
  map (fun rc => (fst rc, snd rc, find (fun k => covers k (fst rc) (snd rc)) g))
      (slotsOfRect rect).

(** The cell lies inside the rectangle. *)
Definition inside (rect : Rect) (k : GridCell) : bool :=
  (firstRow rect <=? gc_row k) && (lastRowOf k <=? lastRow rect)
  && (firstColumn rect <=? gc_column k) && (lastColumnOf k <=? lastColumn rect).

(** The cell has a slot in the rectangle. *)
Definition reaches (rect : Rect) (k : GridCell) : bool :=
  (gc_row k <=? lastRow rect) && (firstRow rect <=? lastRowOf k)
  && (gc_column k <=? lastColumn rect) && (firstColumn rect <=? lastColumnOf k).

(** No two cells of the grid cover the same slot, and every span is at
    least one. *)
Definition disjoint (a b : GridCell) : Prop :=
  forall r c, covers a r c = true -> covers b r c = true -> False.

Definition wellFormed (g : Grid) : Prop :=
  Forall (fun k => 1 <= gc_rowspan k /\ 1 <= gc_colspan k) g
  /\ ForallOrdPairs disjoint g.

(** The same, as a check on a given grid. *)
Definition apart (a b : GridCell) : bool :=
  (gc_row a + gc_rowspan a <=? gc_row b) || (gc_row b + gc_rowspan b <=? gc_row a)
  || (gc_column a + gc_colspan a <=? gc_column b)
  || (gc_column b + gc_colspan b <=? gc_column a).

Fixpoint isWellFormed (g : Grid) : bool :=
  match g with
  | [] => true
  | k :: rest =>
      (1 <=? gc_rowspan k) && (1 <=? gc_colspan k)
      && forallb (apart k) rest && isWellFormed rest
  end.

End Layout.

(** ** Notions used in the proofs about the splits *)

Module Splits.
Import Layout.

Section Pass.
(** A pass splits each of its targets into [pieces]. *)
Variable pieces : GridCell -> list GridCell.

Definition splitOne (t : GridCell) (g : Grid) : Grid :=
  flat_map (fun x => if cell_eqb x t then pieces t else [x]) g.

Definition splitAll (targets : list GridCell) (g : Grid) : Grid :=
  fold_left (fun g' t => splitOne t g') targets g.

Definition splitIn (targets : list GridCell) (k : GridCell) : list GridCell :=
  if existsb (cell_eqb k) targets then pieces k else [k].

End Pass.

(** The cells a split at the column [sc] is applied to, and what becomes
    of such a cell. *)
Definition vTarget (sc : nat) (limit : Limit) (k : GridCell) : bool :=
  ((gc_column k <? sc) && (sc <=? lastColumnOf k))
  && isAffectedBySelection (gc_row k) (gc_rowspan k) limit.

Definition vPieces (sc : nat) (k : GridCell) : list GridCell :=
  [ mkCell (gc_row k) (gc_column k) (gc_rowspan k) (sc - gc_column k);
    mkCell (gc_row k) sc (gc_rowspan k) (gc_colspan k - (sc - gc_column k)) ].

Definition vPass (sc : nat) (limit : Limit) (k : GridCell) : list GridCell :=
  if vTarget sc limit k then vPieces sc k else [k].

Definition hTarget (sr startRow : nat) (limit : Limit) (k : GridCell) : bool :=
  (((startRow <=? gc_row k) && (gc_row k <? sr)) && (sr <=? lastRowOf k))
  && isAffectedBySelection (gc_column k) (gc_colspan k) limit.

Definition hPieces (sr : nat) (k : GridCell) : list GridCell :=
  [ mkCell (gc_row k) (gc_column k) (sr - gc_row k) (gc_colspan k);
    mkCell sr (gc_column k) (gc_rowspan k - (sr - gc_row k)) (gc_colspan k) ].

Definition hPass (sr startRow : nat) (limit : Limit) (k : GridCell) : list GridCell :=
  if hTarget sr startRow limit k then hPieces sr k else [k].

Definition spansOk (k : GridCell) : Prop := 1 <= gc_rowspan k /\ 1 <= gc_colspan k.

Section Stages.
Variable rect : Rect.

Definition rowsMeet (k : GridCell) : Prop :=
  gc_row k <= lastRow rect /\ firstRow rect <= lastRowOf k.

Definition colsMeet (k : GridCell) : Prop :=
  gc_column k <= lastColumn rect /\ firstColumn rect <= lastColumnOf k.

(** What holds of every cell after the first, second, third and fourth
    pass of [splitCellsToRectangularSelection]. *)
Definition stage1 (k : GridCell) : Prop :=
  spansOk k /\ (rowsMeet k -> ~ (gc_column k < firstColumn rect <= lastColumnOf k)).

Definition stage2 (k : GridCell) : Prop :=
  stage1 k /\ (rowsMeet k -> ~ (gc_column k < lastColumn rect + 1 <= lastColumnOf k)).

Definition stage3 (k : GridCell) : Prop :=
  stage2 k /\ (colsMeet k -> ~ (gc_row k < firstRow rect <= lastRowOf k)).

Definition stage4 (k : GridCell) : Prop :=
  stage3 k
  /\ (colsMeet k -> firstRow rect <= gc_row k ->
      ~ (gc_row k < lastRow rect + 1 <= lastRowOf k)).

End Stages.

(** The slots of a cell. *)
Definition cellSlots (k : GridCell) : list (nat * nat) :=
  list_prod (seq (gc_row k) (gc_rowspan k)) (seq (gc_column k) (gc_colspan k)).

End Splits.

(** ** Sample documents *)

(** A schema in which tables and block images are content. *)
Definition editorModel : Model :=
  {| schema_isContent := fun nm => String.eqb nm "table" || String.eqb nm "imageBlock" |}.

Definition sampleCell (i : nat) (txt : list N) : node :=
  Element i "tableCell" [] [Element (i + 1) "paragraph" [] [Text (i + 2) [] txt]].

(** A 1x1 table holding the letter "a". *)
Definition sampleTable : node :=
  Element 10 "table" [] [Element 11 "tableRow" [] [sampleCell 12 [97%N]]].

(** A table inside a block quote, as the only content. *)
Definition quotedTable : content :=
  DocumentFragment [Element 1 "blockQuote" [] [sampleTable]].

(** White space, a table, white space. *)
Definition paddedTable : content :=
  DocumentFragment [Text 1 [] [32%N; 10%N]; sampleTable; Text 2 [] [9%N]].

(** A table followed by a paragraph with text. *)
Definition tableThenParagraph : content :=
  DocumentFragment [sampleTable; Element 3 "paragraph" [] [Text 4 [] [120%N]]].

(** Two tables side by side. *)
Definition twoTables : content :=
  DocumentFragment [sampleTable; Element 20 "table" [] []].

(** A paragraph "hello world" with a comment marker over "llo" and a
    restricted-editing marker over "ell"; the selection covers "hello w". *)
Definition helloWorld : list N :=
  [104; 101; 108; 108; 111; 32; 119; 111; 114; 108; 100]%N.

Definition inParagraph (offset : nat) : Position := mkPosition DocumentRoot [0; offset].

Definition commentMarker : Marker :=
  mkMarker "comment:thread1" (mkRange (inParagraph 2) (inParagraph 5)).

Definition exceptionMarker : Marker :=
  mkMarker "restrictedEditingException:1" (mkRange (inParagraph 1) (inParagraph 4)).

Definition sampleSelection : Selection :=
  mkSelection [mkRange (inParagraph 0) (inParagraph 7)].

Definition sampleWriter : Writer :=
  mkWriter [Element 1 "paragraph" [] [Text 2 [] helloWorld]] []
           [commentMarker; exceptionMarker] [] 100 [].

(** The markers of a pasted fragment: one comment over the fragment's
    first two characters. *)
Definition pastedMarkers : list (string * Range) :=
  [("comment:thread1",
    mkRange (mkPosition FragmentRoot [0; 0]) (mkPosition FragmentRoot [0; 2]))].

Definition pasteWriter : Writer :=
  mkWriter [] [Element 1 "paragraph" [] [Text 2 [] helloWorld]] [] [] 100 [].

(** [item.getAttribute( 'data-name' ) === name] *)
Definition hasDataName (nm : string) (e : node) : bool :=
  match getAttribute "data-name" e with
  | Some (VStr s) => String.eqb s nm
  | _ => false
  end.

Definition fakeMarker (i : nat) (nm kind : string) : node :=
  Element i "$marker" [("data-name", VStr nm); ("data-type", VStr kind)] [].

(** After the encoding of [sampleWriter]: the document holds the two fake
    elements of the comment. *)
Definition encodedDocument : list node :=
  [Element 1 "paragraph" []
     [ Text 2 [] [104; 101]%N;
       fakeMarker 102 "comment:thread1" "start";
       Text 103 [] [108; 108; 111]%N;
       fakeMarker 100 "comment:thread1" "end";
       Text 101 [] [32; 119; 111; 114; 108; 100]%N ]].

Definition encodedInserted : list (string * list node) :=
  [("comment:thread1",
    [fakeMarker 100 "comment:thread1" "end"; fakeMarker 102 "comment:thread1" "start"])].

(** The copied fragment when the selection starts inside the comment
    ("lo wo"): only the fake element of kind end is in it. *)
Definition loneEndWriter : Writer :=
  mkWriter encodedDocument
    [Element 201 "paragraph" []
       [ Text 202 [] [108; 111]%N;
         fakeMarker 203 "comment:thread1" "end";
         Text 204 [] [32; 119; 111]%N ]]
    [commentMarker; exceptionMarker] [] 300 [].

(** The copied fragment when the selection lies inside the comment ("l"):
    no fake element is in it. *)
Definition insideWriter : Writer :=
  mkWriter encodedDocument
    [Element 201 "paragraph" [] [ Text 202 [] [108]%N ]]
    [commentMarker; exceptionMarker] [] 300 [].

(** A comment that starts in one table cell and ends in the next, and a
    selection of both cells, which has one range per cell: the comment
    intersects both ranges. *)
Definition twoCells : list node :=
  [Element 1 "table" []
     [Element 2 "tableRow" []
        [ Element 3 "tableCell" [] [Element 4 "paragraph" [] [Text 5 [] [97; 98]%N]];
          Element 6 "tableCell" [] [Element 7 "paragraph" [] [Text 8 [] [99; 100]%N]] ]]].

Definition cellComment : Marker :=
  mkMarker "comment:thread2"
    (mkRange (mkPosition DocumentRoot [0; 0; 0; 0; 1])
             (mkPosition DocumentRoot [0; 0; 1; 0; 1])).

Definition cellSelection : Selection :=
  mkSelection [ mkRange (mkPosition DocumentRoot [0; 0; 0]) (mkPosition DocumentRoot [0; 0; 1]);
                mkRange (mkPosition DocumentRoot [0; 0; 1]) (mkPosition DocumentRoot [0; 0; 2]) ].

Definition twoCellsWriter : Writer :=
  mkWriter twoCells [] [cellComment] [] 100 [].

(** What the encoding of [twoCellsWriter] leaves in the document and
    returns, and the fragment made of the two selected cells: four fake
    elements of the same comment. *)
Definition twoCellsEncoded : list (string * list node) * Writer :=
  AssignFragmentMarkers.beforeCopySelectionMarkersFragment twoCellsWriter cellSelection.

Definition twoCellsCopied : Writer :=
  mkWriter (documentRoot (snd twoCellsEncoded))
    [Element 201 "table" []
       [Element 202 "tableRow" []
          [ Element 203 "tableCell" []
              [Element 204 "paragraph" []
                 [ Text 205 [] [97]%N;
                   fakeMarker 206 "comment:thread2" "start";
                   fakeMarker 207 "comment:thread2" "start";
                   Text 208 [] [98]%N ]];
            Element 209 "tableCell" []
              [Element 210 "paragraph" []
                 [ Text 211 [] [99]%N;
                   fakeMarker 212 "comment:thread2" "end";
                   fakeMarker 213 "comment:thread2" "end";
                   Text 214 [] [100]%N ]] ]]]
    [cellComment] [] 300 (insertLog (snd twoCellsEncoded)).

(** The fake elements, by element name, that are in a root. *)
Definition fakeMarkersIn (ch : list node) : list node :=
  filter (isElementNamed "$marker") (itemsIn ch).

(** A fake element as the table-paste encoding makes it. *)
Definition namedFakeMarker (i : nat) (nm : string) : node :=
  Element i "$marker" [("data-name", VStr nm)] [].

(** Three pasted cells after a column with one comment was pasted as a
    row and tiled: five fake elements of the first comment (two pairs and
    a lone one) and a pair of a second comment. *)
Definition tiledCells : list node :=
  [ Element 20 "tableCell" []
      [Element 30 "paragraph" []
         [namedFakeMarker 21 "comment:thread1"; Text 31 [] [97]%N;
          namedFakeMarker 22 "comment:thread1"]];
    Element 40 "tableCell" []
      [Element 50 "paragraph" []
         [namedFakeMarker 23 "comment:thread1"; Text 51 [] [97]%N;
          namedFakeMarker 24 "comment:thread1";
          namedFakeMarker 26 "comment:thread9"; Text 52 [] [98]%N;
          namedFakeMarker 27 "comment:thread9"]];
    Element 60 "tableCell" []
      [Element 70 "paragraph" []
         [namedFakeMarker 25 "comment:thread1"; Text 71 [] [97]%N]] ].

Definition tiledWriter : Writer :=
  mkWriter [Element 1 "table" [] [Element 2 "tableRow" [] tiledCells]] [] [] [] 300 [].

(** A supply of identifiers: "e0", "e1", ... *)
Definition sampleUid (k : nat) : string :=
  String "e"%char (String (ascii_of_nat (48 + k)) EmptyString).

(** The writer that the decoding of these cells leaves. *)
Definition tiledDecoded : Writer :=
  match TableClipboardMarkers._convertElementsToMarkers sampleUid tiledCells tiledWriter 0
  with
  | TableClipboardMarkers.Returned (w', _) => w'
  | TableClipboardMarkers.Thrown (w', _) => w'
  end.

(** A table cell holding a paragraph with one letter. *)
Definition letterCell (i : nat) (letter : N) : node :=
  Element i "tableCell" [] [Element (i + 1) "paragraph" [] [Text (i + 2) [] [letter]]].

(** A 3x3 table without spans, the only child of the document root. *)
Definition gridTable : node :=
  Element 1 "table" []
    [ Element 2 "tableRow" [] [letterCell 10 97; letterCell 13 98; letterCell 16 99];
      Element 3 "tableRow" [] [letterCell 20 100; letterCell 23 101; letterCell 26 102];
      Element 4 "tableRow" [] [letterCell 30 103; letterCell 33 104; letterCell 36 105] ].

Definition gridWriter : Writer := mkWriter [gridTable] [] [] [] 500 [].

(** The pasted 1x1 table: one cell, bold "x". *)
Definition pastedCell : node :=
  Element 401 "tableCell" [("backgroundColor", VStr "red")]
    [Element 402 "paragraph" [] [Text 403 [("bold", VStr "true")] [120]%N]].

Definition pastedGrid : node :=
  Element 400 "table" [] [Element 404 "tableRow" [] [pastedCell]].

Definition wholeGrid : Rect := mkRect 0 2 0 2.

(** A grid of three rows and three columns whose cell at row 1, column 1
    spans two rows and two columns:
<<
      +----+----+----+
      | 00 | 01 | 02 |
      +----+----+----+
      | 10 | 11      |
      +----+         +
      | 20 |         |
      +----+----+----+
>> *)
Definition spannedGrid : Layout.Grid :=
  [ Layout.mkCell 0 0 1 1; Layout.mkCell 0 1 1 1; Layout.mkCell 0 2 1 1;
    Layout.mkCell 1 0 1 1; Layout.mkCell 1 1 2 2;
    Layout.mkCell 2 0 1 1 ].

(** ** Notions used in the statements about the groups of fake elements *)

(** The elements a map of groups holds for a name; none when the name is
    not a key. *)
Definition groupOf (nm : string) (m : list (string * list node)) : list node :=
  match lookup nm m with
  | Some l => l
  | None => []
  end.

(** The name under which the scan of the fragment files an item: the
    [data-name] of an element. *)
Definition fakeElementName (item : node) : option string :=
  if isElement item then AssignFragmentMarkers.fakeMarkerName item else None.

(** Filing an item under the name that [sel] selects for it. *)
Definition collectBy (sel : node -> option string) (acc : list (string * list node))
           (item : node) : list (string * list node) :=
  match sel item with
  | Some nm => pushTo nm item acc
  | None => acc
  end.

Definition namedBy (sel : node -> option string) (nm : string) (item : node) : bool :=
  match sel item with
  | Some k => String.eqb k nm
  | None => false
  end.

(** What stays of a node when children are removed below it: its
    identity, whether it is an element, and its attributes. *)
Definition labelOf (n : node) : nat * bool * attrs := (nodeId n, isElement n, nodeAttrs n).

Definition labelsIn (ch : list node) : list (nat * bool * attrs) :=
  map labelOf (itemsIn ch).

(** The search of [findPath] among the children [l], the first of which
    starts at offset [off]. *)
Fixpoint findAmong (find : node -> option (list nat)) (i : nat) (l : list node) (off : nat)
  : option (list nat) :=
  match l with
  | [] => None
  | c :: r =>
      if nodeId c =? i then Some [off]
      else match find c with
           | Some p => Some (off :: p)
           | None => findAmong find i r (off + offsetSize c)
           end
  end.

Fixpoint distinctb (l : list nat) : bool :=
  match l with
  | [] => true
  | a :: r => negb (existsb (Nat.eqb a) r) && distinctb r
  end.

(** The elements of the map of inserted fake elements are different
    nodes of the document: [writer.remove] is called on each of them,
    once, and finds it there. *)
Definition insertedInDocument (inserted : list (string * list node)) (w : Writer) : bool :=
  let elements := AssignFragmentMarkers.insertedElements inserted in
  distinctb (map nodeId elements)
  && forallb (fun x => existsb (Nat.eqb (nodeId x)) (idsIn (documentRoot w))) elements.



(** What the insertion of [x] adds to the identities of a root: nothing
    (the path leads nowhere), the identities of [x], or these and the
    one of the second half of a split text node, [fresh]. *)
Definition addedIds (x : node) (fresh : nat) (added : list nat) : Prop :=
  added = [] \/ added = idsOf x \/ added = idsOf x ++ [fresh].

(** The identities in the two roots are distinct and below the next
    identity that the writer hands out. *)
Definition wellNumbered (w : Writer) : Prop :=
  distinctIds w
  /\ forall i, In i (idsIn (documentRoot w)) \/ In i (idsIn (fragmentRoot w)) ->
               i < nextId w.

(** From [w] to [w'] nodes were removed and new nodes added: an identity
    in a root of [w'] was in that root of [w] or is a new one. *)
Definition grows (w w' : Writer) : Prop :=
  nextId w <= nextId w'
  /\ (forall i, In i (idsIn (documentRoot w')) ->
                In i (idsIn (documentRoot w)) \/ nextId w <= i)
  /\ (forall i, In i (idsIn (fragmentRoot w')) ->
                In i (idsIn (fragmentRoot w)) \/ nextId w <= i)
  /\ (wellNumbered w -> wellNumbered w').

(** [wellNumbered], as a check on a given writer. *)
Definition isWellNumbered (w : Writer) : bool :=
  distinctb (idsIn (fragmentRoot w)) && distinctb (idsIn (documentRoot w))
  && forallb (fun i => i <? nextId w) (idsIn (documentRoot w) ++ idsIn (fragmentRoot w)).

(** The cells that the slots hold as anchors are different nodes of the
    document: [writer.remove] is called on each of them, once. *)
Definition anchorsInDocument (slots : list TableSlot) (w : Writer) : bool :=
  distinctb (map (fun s => nodeId (cell s)) (filter isAnchor slots))
  && forallb (fun s => existsb (Nat.eqb (nodeId (cell s))) (idsIn (documentRoot w)))
             (filter isAnchor slots).

(** The fake elements are different nodes of the document, none of them
    in the fragment as well, and none has children; no text node of the
    document is empty. *)
Definition fakeElementsInDocument (elements : list node) (w : Writer) : bool :=
  distinctb (map nodeId elements)
  && forallb (fun x => existsb (Nat.eqb (nodeId x)) (idsIn (documentRoot w))
                       && negb (existsb (Nat.eqb (nodeId x)) (idsIn (fragmentRoot w)))
                       && isLeafAmong (itemsIn (documentRoot w)) (nodeId x))
             elements
  && noEmptyText (documentRoot w).

(** The names that an object literal inherits: as the key of a name they
    do not read as absent. *)
Definition objectPrototypeKeys : list string :=
  [ "constructor"; "__proto__"; "hasOwnProperty"; "isPrototypeOf";
    "propertyIsEnumerable"; "toLocaleString"; "toString"; "valueOf";
    "__defineGetter__"; "__defineSetter__"; "__lookupGetter__"; "__lookupSetter__" ].

Definition startsWithDigit (s : string) : bool :=
  match s with
  | String c _ => (48 <=? nat_of_ascii c) && (nat_of_ascii c <=? 57)
  | EmptyString => false
  end.

(** A name that an object keyed by names treats like any other: not one
    of the inherited names, and not a number (the keys that are numbers
    are enumerated first, whenever they were added). *)
Definition isPlainName (s : string) : bool :=
  negb (startsWithDigit s) && negb (existsb (String.eqb s) objectPrototypeKeys).

(** Every [data-name] among the items is a string - the code reads the
    attribute as a string, or as absent - and a plain name. *)
Definition namesArePlain (l : list node) : bool :=
  forallb (fun x => match getAttribute "data-name" x with
                    | Some (VStr s) => isPlainName s
                    | Some (VNum _) => false
                    | None => true
                    end) l.

(** The copied fragment when the selection ends inside the comment
    ("hel"): only the fake element of kind start is in it. *)
Definition loneStartWriter : Writer :=
  mkWriter encodedDocument
    [Element 201 "paragraph" []
       [ Text 202 [] [104; 101]%N;
         fakeMarker 203 "comment:thread1" "start";
         Text 204 [] [108]%N ]]
    [commentMarker; exceptionMarker] [] 300 [].

(** The copied fragment when the selection holds the whole comment
    ("ello w"): both fake elements are in it. *)
Definition pairWriter : Writer :=
  mkWriter encodedDocument
    [Element 201 "paragraph" []
       [ Text 202 [] [101]%N;
         fakeMarker 203 "comment:thread1" "start";
         Text 204 [] [108; 108; 111]%N;
         fakeMarker 205 "comment:thread1" "end";
         Text 206 [] [32; 119]%N ]]
    [commentMarker; exceptionMarker] [] 300 [].

(** A fragment with a fake element that records no kind. *)
Definition untypedWriter : Writer :=
  mkWriter encodedDocument
    [Element 201 "paragraph" []
       [ Text 202 [] [108; 111]%N;
         Element 203 "$marker" [("data-name", VStr "comment:thread1")] [];
         Text 204 [] [32; 119; 111]%N ]]
    [commentMarker; exceptionMarker] [] 300 [].

(* ================================================================== *)
(** * Part II.  Properties                                             *)
(* ================================================================== *)

(** ** Induction over nodes and their children *)

Section NodeInduction.
Variable P : node -> Prop.
Variable Q : list node -> Prop.
Hypothesis onText : forall i a d, P (Text i a d).
Hypothesis onElement : forall i nm a ch, Q ch -> P (Element i nm a ch).
Hypothesis onNil : Q [].
Hypothesis onCons : forall c r, P c -> Q r -> Q (c :: r).

Fixpoint node_forest_ind (n : node) : P n :=
  match n with
  | Text i a d => onText i a d
  | Element i nm a ch =>
      onElement i nm a
        ((fix go (l : list node) : Q l :=
            match l with
            | [] => onNil
            | c :: r => onCons (node_forest_ind c) (go r)
            end) ch)
  end.

Lemma forest_ind (l : list node) : Q l.
Proof.
  induction l as [|c r IH]; [exact onNil | exact (onCons (node_forest_ind c) IH)].
Qed.
End NodeInduction.

(** ** The content classifier *)

Lemma items_head (n : node) : items n = n :: itemsIn (childrenOf n).
Proof. destruct n; reflexivity. Qed.

Lemma itemsIn_cons (c : node) (r : list node) :
  itemsIn (c :: r) = items c ++ itemsIn r.
Proof. reflexivity. Qed.

(** The items of a node form one block of the document order: what
    starts at the index of an item begins with the items of that item. *)
Lemma itemsIn_block :
  forall (ch : list node) k x,
    nth_error (itemsIn ch) k = Some x ->
    exists rest, skipn k (itemsIn ch) = items x ++ rest.
Proof.
  apply (forest_ind
    (fun n => forall k x, nth_error (items n) k = Some x ->
                          exists rest, skipn k (items n) = items x ++ rest)
    (fun l => forall k x, nth_error (itemsIn l) k = Some x ->
                          exists rest, skipn k (itemsIn l) = items x ++ rest)).
  - intros i a d [|k] x H; simpl in *.
    + inversion H; subst. exists []. reflexivity.
    + destruct k; discriminate.
  - intros i nm a ch IH [|k] x H.
    + simpl in H. inversion H; subst. exists []. now rewrite app_nil_r.
    + simpl in H. change (flat_map items ch) with (itemsIn ch) in H.
      destruct (IH k x H) as [rest E]. exists rest. simpl. exact E.
  - intros [|k] x H; discriminate.
  - intros c r IHc IHr k x H. rewrite itemsIn_cons in *.
    destruct (Nat.lt_ge_cases k (List.length (items c))) as [L|G].
    + rewrite nth_error_app1 in H by exact L.
      destruct (IHc k x H) as [rest E]. exists (rest ++ itemsIn r).
      rewrite skipn_app, E.
      replace (k - List.length (items c)) with 0 by lia.
      simpl. now rewrite app_assoc.
    + rewrite nth_error_app2 in H by exact G.
      destruct (IHr _ x H) as [rest E]. exists rest.
      rewrite skipn_app, skipn_all2 by exact G. simpl. exact E.
Qed.

Lemma findIndex_Some (p : node -> bool) (l : list node) :
  forall k, findIndex p l = Some k ->
            exists x, nth_error l k = Some x /\ p x = true
                      /\ forallb (fun y => negb (p y)) (firstn k l) = true.
Proof.
  induction l as [|y r IH]; intros k H; simpl in H; [discriminate|].
  destruct (p y) eqn:Py.
  - inversion H; subst. exists y. auto.
  - destruct (findIndex p r) as [k'|] eqn:F; simpl in H; [|discriminate].
    inversion H; subst. destruct (IH k' eq_refl) as (x & N & Px & B).
    exists x. simpl. rewrite Py. auto.
Qed.

Lemma findIndex_first (p : node -> bool) (before : list node) (x : node) (rest : list node) :
  forallb (fun y => negb (p y)) before = true -> p x = true ->
  findIndex p (before ++ x :: rest) = Some (List.length before).
Proof.
  induction before as [|y r IH]; simpl; intros B Px.
  - now rewrite Px.
  - apply andb_prop in B as [Py B]. apply negb_true_iff in Py.
    rewrite Py, (IH B Px). reflexivity.
Qed.

Lemma findIndex_None (p : node -> bool) (l : list node) :
  findIndex p l = None -> forallb (fun y => negb (p y)) l = true.
Proof.
  induction l as [|y r IH]; simpl; intros H; [reflexivity|].
  destruct (p y); [discriminate|].
  destruct (findIndex p r); [discriminate|]. simpl. auto.
Qed.

Lemma tableAmongItems_Some (model : Model) (ch : list node) (t : node) :
  tableAmongItems model ch = Some t <-> firstTableAlone model ch t.
Proof.
  unfold tableAmongItems, firstTableAlone. split.
  - destruct (findIndex isTable (itemsIn ch)) as [k|] eqn:F; [|discriminate].
    destruct (findIndex_Some _ _ F) as (x & N & Tx & B).
    rewrite (nth_error_nth _ _ _ N).
    destruct (itemsIn_block _ _ N) as [rest E].
    replace (skipn (k + List.length (items x)) (itemsIn ch)) with rest.
    2:{ rewrite Nat.add_comm, <- skipn_skipn, E, skipn_app, skipn_all, Nat.sub_diag.
        reflexivity. }
    destruct (hasContent model (firstn k (itemsIn ch))) eqn:HB; [discriminate|].
    destruct (hasContent model rest) eqn:HA; [discriminate|].
    intros H; inversion H; subst x.
    exists (firstn k (itemsIn ch)), rest. repeat split; auto.
    now rewrite <- E, firstn_skipn.
  - intros (before & after & E & Tt & B & HB & HA).
    rewrite E, (items_head t), <- app_comm_cons.
    rewrite (findIndex_first isTable before t _ B Tt).
    rewrite nth_middle. rewrite firstn_app, firstn_all, Nat.sub_diag. simpl firstn.
    rewrite app_nil_r, HB.
    replace (skipn _ _) with after.
    + now rewrite HA.
    + rewrite skipn_app.
      rewrite skipn_all2 by lia. simpl app.
      replace (List.length before + List.length (items t) - List.length before)
        with (List.length (items t)) by lia.
      rewrite (items_head t). simpl.
      rewrite skipn_app, skipn_all, Nat.sub_diag. reflexivity.
Qed.

Lemma tableInContainer_Some (model : Model) (ch : list node) (t : node) :
  tableInContainer model ch = Some t <->
  (ch = [t] /\ isTable t = true) \/ firstTableAlone model ch t.
Proof.
  unfold tableInContainer. split.
  - destruct ch as [|c [|c' r]]; try (rewrite tableAmongItems_Some; auto).
    destruct (isTable c) eqn:Tc.
    + intros H; inversion H; subst. auto.
    + rewrite tableAmongItems_Some; auto.
  - intros [[-> Tt] | H].
    + now rewrite Tt.
    + apply tableAmongItems_Some in H.
      destruct ch as [|c [|c' r]]; auto.
      destruct (isTable c) eqn:Tc; auto.
      (* the only child is a table: the walk finds that very child *)
      unfold tableAmongItems in H. simpl itemsIn in H. rewrite app_nil_r in H.
      rewrite (items_head c) in H. simpl in H. rewrite Tc in H. simpl in H.
      destruct (hasContent model (skipn _ _)); congruence.
Qed.

(** C9 (as amended): the classifier returns the grid exactly when the
    content is a grid, or a container whose only child is a grid, or a
    container in which the first grid in document order - at any depth,
    not only among the top-level children - has nothing but white space
    and non-content elements before and after it; otherwise none. *)
Theorem C9_classifier_first_table_in_document_order
        (c : content) (model : Model) (t : node) :
  getTableIfOnlyTableInContent c model = Some t <->
  (c = Item t /\ isTable t = true)
  \/ (isContainer c = true /\ contentChildren c = [t] /\ isTable t = true)
  \/ (isContainer c = true /\ firstTableAlone model (contentChildren c) t).
Proof.
  destruct c as [ch | [i a d | i nm a ch]]; simpl.
  - rewrite tableInContainer_Some. intuition congruence.
  - split; [discriminate|].
    intros [[E T] | [[C _] | [C _]]]; try discriminate.
    inversion E; subst; discriminate.
  - unfold isTable at 2. simpl. destruct (String.eqb nm "table") eqn:En.
    + split.
      * intros H; inversion H; subst. left. split; [reflexivity|]. simpl. exact En.
      * intros [[E _] | [[C _] | [C _]]]; try discriminate. now inversion E.
    + rewrite tableInContainer_Some. split.
      * intros [[E T] | H]; auto.
      * intros [[E T] | [[_ [E T]] | [_ H]]]; auto.
        inversion E; subst. simpl in T. congruence.
Qed.

(** The classifier examples of the specification (section 8, item 8). *)
Example classifier_table_alone :
  getTableIfOnlyTableInContent (Item sampleTable) editorModel = Some sampleTable.
Proof. reflexivity. Qed.

Example classifier_table_between_white_space :
  getTableIfOnlyTableInContent paddedTable editorModel = Some sampleTable.
Proof. reflexivity. Qed.

Example classifier_table_then_paragraph :
  getTableIfOnlyTableInContent tableThenParagraph editorModel = None.
Proof. reflexivity. Qed.

Example classifier_two_tables :
  getTableIfOnlyTableInContent twoTables editorModel = None.
Proof. reflexivity. Qed.

(** C9 (as the specification states it) fails: a table nested in a block
    quote is not among the top-level children, so the specification
    classifies the content as none, while the walk over all the items of
    the content finds the table and returns it. *)
Lemma C9_nested_table_counterexample :
  spec_classify quotedTable editorModel = None
  /\ getTableIfOnlyTableInContent quotedTable editorModel = Some sampleTable.
Proof. split; reflexivity. Qed.

(** ** Encoding: the fake elements that are inserted *)

Lemma sortInsert_In (A : Type) (cmp : A -> A -> bool) (a x : A) (l : list A) :
  In x (sortInsert cmp a l) <-> x = a \/ In x l.
Proof.
  induction l as [|y r IH]; simpl.
  - intuition.
  - destruct (cmp a y); simpl; rewrite ?IH; intuition.
Qed.

Lemma sort_In (A : Type) (cmp : A -> A -> bool) (x : A) (l : list A) :
  In x (sort cmp l) <-> In x l.
Proof.
  induction l as [|y r IH]; simpl; [tauto|].
  unfold sort in *. simpl. rewrite sortInsert_In, IH. intuition.
Qed.

Lemma Forall2_In_left (A B : Type) (R : A -> B -> Prop) (l : list A) (l' : list B) :
  Forall2 R l l' -> forall a, In a l -> exists b, In b l' /\ R a b.
Proof.
  induction 1 as [|x y l l' Rxy _ IH]; intros a Ha; [contradiction|].
  destruct Ha as [->|Ha]; [exists y; simpl; auto|].
  destruct (IH a Ha) as (b & Hb & Rab). exists b. simpl. auto.
Qed.

Lemma Forall2_In_right (A B : Type) (R : A -> B -> Prop) (l : list A) (l' : list B) :
  Forall2 R l l' -> forall b, In b l' -> exists a, In a l /\ R a b.
Proof.
  induction 1 as [|x y l l' Rxy _ IH]; intros b Hb; [contradiction|].
  destruct Hb as [->|Hb]; [exists x; simpl; auto|].
  destruct (IH b Hb) as (a & Ha & Rab). exists a. simpl. auto.
Qed.

Lemma insertsSince_app (w w' : Writer) (news : list (node * Position)) :
  insertLog w' = insertLog w ++ news -> insertsSince w w' = news.
Proof.
  unfold insertsSince. intros ->.
  now rewrite skipn_app, skipn_all, Nat.sub_diag.
Qed.

Module EncodeFacts.
Import AssignFragmentMarkers.

Lemma insertFakeMarker_step (mapped : list (string * list node)) (w : Writer)
      (b : Boundary) :
  exists entry,
    insertLog (snd (insertFakeMarker (mapped, w) b)) = insertLog w ++ [entry]
    /\ isFakeMarkerFor b entry.
Proof.
  eexists. split.
  - unfold insertFakeMarker, createElement, insert. simpl.
    destruct (root (position b)); simpl; reflexivity.
  - exists (nextId w). reflexivity.
Qed.

Lemma insertFakeMarker_log (bs : list Boundary) :
  forall st,
  exists news,
    insertLog (snd (fold_left insertFakeMarker bs st)) = insertLog (snd st) ++ news
    /\ Forall2 isFakeMarkerFor bs news.
Proof.
  induction bs as [|b r IH]; intros [mapped w]; cbn [fold_left].
  - exists []. now rewrite app_nil_r.
  - destruct (insertFakeMarker_step mapped w b) as (entry & E1 & F1).
    destruct (IH (insertFakeMarker (mapped, w) b)) as (news & E & F).
    exists (entry :: news). split.
    + rewrite E, E1, <- app_assoc. reflexivity.
    + constructor; assumption.
Qed.

Lemma copyable_In (w : Writer) (selection : Selection) (m : Marker) :
  In m (_getCopyableMarkersFromSelection w selection) <->
  In m (modelMarkers w)
  /\ String.prefix "comment:" (name m) = true
  /\ exists r, In r (getRanges selection) /\ isIntersecting (markerRange m) r = true.
Proof.
  unfold _getCopyableMarkersFromSelection, getMarkersIntersectingRange.
  rewrite in_flat_map. split.
  - intros (r & Hr & H). rewrite !filter_In in H. destruct H as [[H1 H2] H3].
    eauto.
  - intros (H1 & H2 & r & Hr & H3). exists r. rewrite !filter_In. auto.
Qed.
End EncodeFacts.

Example sample_encode :
  snd (AssignFragmentMarkers.beforeCopySelectionMarkersFragment sampleWriter sampleSelection)
  = mkWriter
      [Element 1 "paragraph" []
         [ Text 2 [] [104; 101]%N;
           Element 102 "$marker"
             [("data-name", VStr "comment:thread1"); ("data-type", VStr "start")] [];
           Text 103 [] [108; 108; 111]%N;
           Element 100 "$marker"
             [("data-name", VStr "comment:thread1"); ("data-type", VStr "end")] [];
           Text 101 [] [32; 119; 111; 114; 108; 100]%N ]]
      [] [commentMarker; exceptionMarker] [] 104
      [ (Element 100 "$marker"
           [("data-name", VStr "comment:thread1"); ("data-type", VStr "end")] [],
         inParagraph 5);
        (Element 102 "$marker"
           [("data-name", VStr "comment:thread1"); ("data-type", VStr "start")] [],
         inParagraph 2) ].
Proof. reflexivity. Qed.

(** C3 (as the specification states it) fails: the restricted-editing
    marker intersects the copied range, and no fake element is inserted
    for it - neither at its start nor at its end. *)
Lemma C3_marker_of_another_group_is_skipped :
  In exceptionMarker (modelMarkers sampleWriter)
  /\ isIntersecting (markerRange exceptionMarker)
                    (mkRange (inParagraph 0) (inParagraph 7)) = true
  /\ existsb (fun entry => hasDataName (name exceptionMarker) (fst entry))
       (insertLog (snd (AssignFragmentMarkers.beforeCopySelectionMarkersFragment
                          sampleWriter sampleSelection))) = false.
Proof. repeat split; simpl; auto. Qed.

(** C3 (as amended): for every marker of the model whose name starts with
    "comment:" and whose range intersects a range of the selection, the
    encoding step inserts a fake element of kind start at the start of
    the marker and one of kind end at its end; none of them is skipped. *)
Theorem C3_comment_markers_get_both_sentinels
        (w : Writer) (selection : Selection) (m : Marker) :
  In m (modelMarkers w) ->
  String.prefix "comment:" (name m) = true ->
  (exists r, In r (getRanges selection) /\ isIntersecting (markerRange m) r = true) ->
  let w' := snd (AssignFragmentMarkers.beforeCopySelectionMarkersFragment w selection) in
  exists ks ke,
    In (Element ks "$marker"
          [("data-name", VStr (name m)); ("data-type", VStr "start")] [],
        rstart (markerRange m)) (insertsSince w w')
    /\ In (Element ke "$marker"
          [("data-name", VStr (name m)); ("data-type", VStr "end")] [],
        rend (markerRange m)) (insertsSince w w').
Proof.
  intros Hm Hp Hr w'. subst w'.
  unfold AssignFragmentMarkers.beforeCopySelectionMarkersFragment,
         AssignFragmentMarkers._insertFakeMarkersElements.
  destruct (EncodeFacts.insertFakeMarker_log
              (AssignFragmentMarkers.sortedMarkers
                 (AssignFragmentMarkers._getCopyableMarkersFromSelection w selection))
              ([], w)) as (news & E & F).
  change (insertLog (snd ([], w))) with (insertLog w) in E.
  rewrite (@insertsSince_app _ _ _ E).
  assert (C : In m (AssignFragmentMarkers._getCopyableMarkersFromSelection w selection))
    by (apply EncodeFacts.copyable_In; auto).
  assert (B : forall b, In b (AssignFragmentMarkers.boundaries m) ->
                        exists entry, In entry news /\ isFakeMarkerFor b entry).
  { intros b Hb. apply (Forall2_In_left F).
    unfold AssignFragmentMarkers.sortedMarkers. apply sort_In, in_flat_map. eauto. }
  destruct (B _ (or_introl eq_refl)) as (es & Ies & ks & ->).
  destruct (B _ (or_intror (or_introl eq_refl))) as (ee & Iee & ke & ->).
  exists ks, ke. split; assumption.
Qed.

Lemma C3_comment_marker_witness :
  exists ks ke,
    In (Element ks "$marker"
          [("data-name", VStr "comment:thread1"); ("data-type", VStr "start")] [],
        inParagraph 2)
       (insertsSince sampleWriter
          (snd (AssignFragmentMarkers.beforeCopySelectionMarkersFragment
                  sampleWriter sampleSelection)))
    /\ In (Element ke "$marker"
          [("data-name", VStr "comment:thread1"); ("data-type", VStr "end")] [],
        inParagraph 5)
       (insertsSince sampleWriter
          (snd (AssignFragmentMarkers.beforeCopySelectionMarkersFragment
                  sampleWriter sampleSelection))).
Proof.
  apply (C3_comment_markers_get_both_sentinels sampleWriter sampleSelection commentMarker).
  - simpl; auto.
  - reflexivity.
  - exists (mkRange (inParagraph 0) (inParagraph 7)). split; [simpl; auto | reflexivity].
Defined.

Module PasteEncodeFacts.
Import TableClipboardMarkers.

Lemma insertNamedFakeMarker_step (w : Writer) (b : Boundary) :
  exists entry,
    insertLog (insertFakeMarker w b) = insertLog w ++ [entry]
    /\ isNamedFakeMarker b entry.
Proof.
  eexists. split.
  - unfold insertFakeMarker, createElement, insert. simpl.
    destruct (root (position b)); simpl; reflexivity.
  - exists (nextId w). reflexivity.
Qed.

Lemma insertNamedFakeMarker_log (bs : list Boundary) :
  forall w,
  exists news,
    insertLog (fold_left insertFakeMarker bs w) = insertLog w ++ news
    /\ Forall2 isNamedFakeMarker bs news.
Proof.
  induction bs as [|b r IH]; intros w; cbn [fold_left].
  - exists []. now rewrite app_nil_r.
  - destruct (insertNamedFakeMarker_step w b) as (entry & E1 & F1).
    destruct (IH (insertFakeMarker w b)) as (news & E & F).
    exists (entry :: news). split.
    + rewrite E, E1, <- app_assoc. reflexivity.
    + constructor; assumption.
Qed.
End PasteEncodeFacts.

(** C4 (as the specification states it) fails on the table-paste path:
    the two fake elements inserted for the comment of the pasted fragment
    carry the marker name and nothing that tells start from end. *)
Lemma C4_paste_sentinels_have_no_kind :
  insertLog (TableClipboardMarkers._convertMarkersToElements pastedMarkers pasteWriter)
  = [ (Element 100 "$marker" [("data-name", VStr "comment:thread1")] [],
       mkPosition FragmentRoot [0; 2]);
      (Element 102 "$marker" [("data-name", VStr "comment:thread1")] [],
       mkPosition FragmentRoot [0; 0]) ]
  /\ forallb (fun entry => match getAttribute "data-type" (fst entry) with
                           | None => true
                           | Some _ => false
                           end)
       (insertLog (TableClipboardMarkers._convertMarkersToElements
                     pastedMarkers pasteWriter)) = true.
Proof. split; reflexivity. Qed.

(** C4 (as amended): every fake element inserted by the copy/cut encoding
    carries, next to the name of its marker, the kind of boundary it
    stands for - "start" at the start of the marker, "end" at its end;
    the fake elements of the table-paste encoding carry the marker name
    only and no boundary kind. *)
Theorem C4_boundary_kind_is_recorded_on_copy_only :
  (forall w selection e p,
      In (e, p) (insertsSince w
                   (snd (AssignFragmentMarkers.beforeCopySelectionMarkersFragment
                           w selection))) ->
      exists m,
        In m (AssignFragmentMarkers._getCopyableMarkersFromSelection w selection)
        /\ getAttribute "data-name" e = Some (VStr (name m))
        /\ ((getAttribute "data-type" e = Some (VStr "start")
             /\ p = rstart (markerRange m))
            \/ (getAttribute "data-type" e = Some (VStr "end")
                /\ p = rend (markerRange m))))
  /\
  (forall markers w e p,
      In (e, p) (insertsSince w
                   (TableClipboardMarkers._convertMarkersToElements markers w)) ->
      getAttribute "data-type" e = None
      /\ exists nm, In nm (map fst markers)
                    /\ getAttribute "data-name" e = Some (VStr nm)).
Proof.
  split.
  - intros w selection e p H.
    unfold AssignFragmentMarkers.beforeCopySelectionMarkersFragment,
           AssignFragmentMarkers._insertFakeMarkersElements in H.
    destruct (EncodeFacts.insertFakeMarker_log
                (AssignFragmentMarkers.sortedMarkers
                   (AssignFragmentMarkers._getCopyableMarkersFromSelection w selection))
                ([], w)) as (news & E & F).
    change (insertLog (snd ([], w))) with (insertLog w) in E.
    rewrite (@insertsSince_app _ _ _ E) in H.
    destruct (Forall2_In_right F _ H) as (b & Hb & k & Eb).
    unfold AssignFragmentMarkers.sortedMarkers in Hb.
    apply sort_In, in_flat_map in Hb. destruct Hb as (m & Hm & Hb).
    inversion Eb; subst e p. exists m. split; [exact Hm|].
    destruct Hb as [<- | [<- | []]]; simpl; auto.
  - intros markers w e p H.
    unfold TableClipboardMarkers._convertMarkersToElements in H.
    destruct (PasteEncodeFacts.insertNamedFakeMarker_log
                (TableClipboardMarkers.sortedMarkers markers) w) as (news & E & F).
    rewrite (@insertsSince_app _ _ _ E) in H.
    destruct (Forall2_In_right F _ H) as (b & Hb & k & Eb).
    unfold TableClipboardMarkers.sortedMarkers in Hb.
    apply sort_In, in_flat_map in Hb. destruct Hb as (m & Hm & Hb).
    inversion Eb; subst e p. split; [reflexivity|].
    exists (fst m). split; [now apply in_map|].
    destruct Hb as [<- | [<- | []]]; reflexivity.
Qed.

Lemma C4_copy_sentinel_witness :
  exists m,
    In m (AssignFragmentMarkers._getCopyableMarkersFromSelection
            sampleWriter sampleSelection)
    /\ getAttribute "data-name"
         (Element 100 "$marker"
            [("data-name", VStr "comment:thread1"); ("data-type", VStr "end")] [])
       = Some (VStr (name m))
    /\ ((getAttribute "data-type"
           (Element 100 "$marker"
              [("data-name", VStr "comment:thread1"); ("data-type", VStr "end")] [])
         = Some (VStr "start")
         /\ inParagraph 5 = rstart (markerRange m))
        \/ (getAttribute "data-type"
              (Element 100 "$marker"
                 [("data-name", VStr "comment:thread1"); ("data-type", VStr "end")] [])
            = Some (VStr "end")
            /\ inParagraph 5 = rend (markerRange m))).
Proof.
  apply (proj1 C4_boundary_kind_is_recorded_on_copy_only sampleWriter sampleSelection).
  simpl. auto.
Defined.

(** ** Removing a node from a tree *)

Lemma removeFrom_cons (i : nat) (c : node) (r : list node) :
  removeFrom i (c :: r)
  = if nodeId c =? i then r else removeNode i c :: removeFrom i r.
Proof. reflexivity. Qed.

Lemma removeNode_element (i j : nat) (nm : string) (a : attrs) (ch : list node) :
  removeNode i (Element j nm a ch) = Element j nm a (removeFrom i ch).
Proof. reflexivity. Qed.

Lemma idsIn_cons (c : node) (r : list node) :
  idsIn (c :: r) = idsOf c ++ idsIn r.
Proof. unfold idsIn, idsOf. now rewrite itemsIn_cons, map_app. Qed.

Lemma idsOf_head (n : node) : idsOf n = nodeId n :: idsIn (childrenOf n).
Proof. unfold idsOf, idsIn. now rewrite items_head. Qed.

Lemma NoDup_app_parts (A : Type) (l l' : list A) :
  NoDup (l ++ l') ->
  NoDup l /\ NoDup l' /\ (forall x, In x l -> ~ In x l').
Proof.
  induction l as [|y l IH]; simpl; intros H.
  - repeat split; auto. constructor.
  - inversion H; subst. destruct (IH H3) as (H4 & H5 & H6).
    repeat split; auto.
    + constructor; auto. intros Hy. apply H2. apply in_or_app. auto.
    + intros x [-> | Hx]; auto. intros Hx. apply H2. apply in_or_app. auto.
Qed.

Lemma removeNode_id (i : nat) (n : node) : nodeId (removeNode i n) = nodeId n.
Proof. destruct n; reflexivity. Qed.

(** Removing the node [i] adds no identity, keeps the identities
    distinct, and leaves no node [i] behind when they are. *)
Lemma removeFrom_ids :
  forall (ch : list node) (i : nat),
    incl (idsIn (removeFrom i ch)) (idsIn ch)
    /\ (NoDup (idsIn ch) ->
        NoDup (idsIn (removeFrom i ch)) /\ ~ In i (idsIn (removeFrom i ch))).
Proof.
  apply (forest_ind
    (fun n => forall i,
       incl (idsIn (childrenOf (removeNode i n))) (idsIn (childrenOf n))
       /\ (NoDup (idsIn (childrenOf n)) ->
           NoDup (idsIn (childrenOf (removeNode i n)))
           /\ ~ In i (idsIn (childrenOf (removeNode i n)))))
    (fun l => forall i,
       incl (idsIn (removeFrom i l)) (idsIn l)
       /\ (NoDup (idsIn l) ->
           NoDup (idsIn (removeFrom i l)) /\ ~ In i (idsIn (removeFrom i l))))).
  - intros j a d i. simpl. split; [apply incl_refl | auto].
  - intros j nm a ch IH i. rewrite removeNode_element. simpl childrenOf. apply IH.
  - intros i. simpl. split; [apply incl_refl | auto].
  - intros c r IHc IHr i. rewrite removeFrom_cons, idsIn_cons, idsOf_head.
    destruct (Nat.eqb_spec (nodeId c) i) as [E | NE].
    + subst i. split.
      * intros x Hx. simpl. right. apply in_or_app. auto.
      * intros H. inversion H; subst. apply NoDup_app_parts in H3 as (_ & H3 & _).
        split; auto. intros Hi. apply H2. apply in_or_app. auto.
    + destruct (IHc i) as [Ic Nc]. destruct (IHr i) as [Ir Nr].
      rewrite idsIn_cons, idsOf_head, removeNode_id. split.
      * intros x [-> | Hx]; [simpl; auto|]. simpl. right.
        apply in_app_or in Hx as [Hx | Hx]; apply in_or_app; auto.
      * intros H. inversion H; subst.
        apply NoDup_app_parts in H3 as (H3 & H4 & H5).
        destruct (Nc H3) as [Nc1 Nc2]. destruct (Nr H4) as [Nr1 Nr2].
        split.
        -- constructor.
           ++ intros Hx. apply H2.
              apply in_app_or in Hx as [Hx | Hx]; apply in_or_app; auto.
           ++ apply NoDup_app; auto.
              intros x Hx Hx'. apply (H5 x); auto.
        -- intros [Hi | Hi]; [congruence|].
           apply in_app_or in Hi as [Hi | Hi]; auto.
Qed.

Lemma removeFrom_incl (ch : list node) (i : nat) :
  incl (idsIn (removeFrom i ch)) (idsIn ch).
Proof. apply removeFrom_ids. Qed.

Lemma removeFrom_NoDup (ch : list node) (i : nat) :
  NoDup (idsIn ch) -> NoDup (idsIn (removeFrom i ch)).
Proof. apply removeFrom_ids. Qed.

Lemma removeFrom_gone (ch : list node) (i : nat) :
  NoDup (idsIn ch) -> ~ In i (idsIn (removeFrom i ch)).
Proof. apply removeFrom_ids. Qed.

(** ** Objects keyed by strings *)

Section AssocFacts.
Variable V : Type.

Lemma lookup_assign_same (k : string) (v : V) (m : list (string * V)) :
  lookup k (assign k v m) = Some v.
Proof.
  induction m as [|[k' v'] r IH]; simpl.
  - now rewrite String.eqb_refl.
  - destruct (String.eqb k' k) eqn:E; simpl; rewrite E; auto.
Qed.

Lemma lookup_assign_other (k k' : string) (v : V) (m : list (string * V)) :
  k' <> k -> lookup k (assign k' v m) = lookup k m.
Proof.
  intros N. induction m as [|[k2 v2] r IH]; simpl.
  - apply String.eqb_neq in N. now rewrite N.
  - destruct (String.eqb k2 k') eqn:E; simpl.
    + apply String.eqb_eq in E. subst k2.
      apply String.eqb_neq in N. now rewrite N.
    + destruct (String.eqb k2 k); auto.
Qed.

Lemma lookup_None (k : string) (m : list (string * V)) :
  lookup k m = None <-> ~ In k (map fst m).
Proof.
  induction m as [|[k' v'] r IH]; simpl; [tauto|].
  destruct (String.eqb_spec k' k) as [E | N]; split; intros H.
  - discriminate.
  - exfalso. apply H. auto.
  - intros [E | I]; [contradiction | now apply IH].
  - apply IH. tauto.
Qed.
End AssocFacts.

Lemma pushTo_keys (k : string) (x : node) (m : list (string * list node)) :
  NoDup (map fst m) -> NoDup (map fst (pushTo k x m))
  /\ forall k', In k' (map fst (pushTo k x m)) <-> k' = k \/ In k' (map fst m).
Proof.
  induction m as [|[k2 xs] r IH]; simpl; intros H.
  - split; [repeat constructor; auto | intuition].
  - inversion H; subst. destruct (IH H3) as [IH1 IH2].
    destruct (String.eqb_spec k2 k) as [E | N]; simpl.
    + subst. split; [constructor; auto | intuition].
    + split.
      * constructor; auto. rewrite IH2. intros [E | I]; auto.
      * intros k'. rewrite IH2. intuition.
Qed.

(** ** Decoding: the ranges rebuilt from the fake elements *)

Lemma shrinks_refl (w : Writer) : shrinks w w.
Proof. unfold shrinks. repeat split; auto using incl_refl. Qed.

Lemma shrinks_trans (w1 w2 w3 : Writer) :
  shrinks w1 w2 -> shrinks w2 w3 -> shrinks w1 w3.
Proof.
  unfold shrinks. intros [[A1 A2] [A3 A4]] [[B1 B2] [B3 B4]].
  repeat split; eauto using incl_tran.
Qed.

Lemma remove_shrinks (x : node) (w : Writer) : shrinks w (remove x w).
Proof.
  unfold shrinks, remove. simpl.
  repeat split; auto using removeFrom_incl, removeFrom_NoDup.
Qed.

Lemma remove_gone (x : node) (w : Writer) :
  NoDup (idsIn (fragmentRoot w)) ->
  ~ In (nodeId x) (idsIn (fragmentRoot (remove x w))).
Proof. unfold remove. simpl. apply removeFrom_gone. Qed.

Lemma remove_fragmentMarkers (x : node) (w : Writer) :
  fragmentMarkers (remove x w) = fragmentMarkers w.
Proof. reflexivity. Qed.

Lemma assign_keys (V : Type) (k : string) (v : V) (m : list (string * V)) :
  NoDup (map fst m) -> NoDup (map fst (assign k v m)).
Proof.
  induction m as [|[k2 v2] r IH]; simpl; intros H.
  - repeat constructor; auto.
  - inversion H; subst.
    destruct (String.eqb_spec k2 k) as [E | N]; simpl; constructor; auto.
    apply lookup_None. rewrite lookup_assign_other by auto. now apply lookup_None.
Qed.

Lemma lookup_In (V : Type) (k : string) (v : V) (m : list (string * V)) :
  lookup k m = Some v -> In (k, v) m.
Proof.
  induction m as [|[k2 v2] r IH]; simpl; [discriminate|].
  destruct (String.eqb_spec k2 k) as [E | N]; intros H.
  - inversion H; subst. auto.
  - auto.
Qed.

Module DecodeFacts.
Import AssignFragmentMarkers.

Lemma kind_end_not_start (e : node) :
  dataTypeIs "end" e = true -> dataTypeIs "start" e = false.
Proof.
  unfold dataTypeIs. destruct (getAttribute "data-type" e) as [[s|n]|]; auto.
  intros H. apply String.eqb_eq in H. subst. reflexivity.
Qed.

(** One step of the reduction: nodes are only removed, the markers of the
    fragment are not touched, and only the entry's own name is assigned. *)
Lemma removeFakeMarkers_step (acc : list (string * Range)) (w : Writer)
      (entry : string * list node) :
  shrinks w (snd (removeFakeMarkers (acc, w) entry))
  /\ fragmentMarkers (snd (removeFakeMarkers (acc, w) entry)) = fragmentMarkers w
  /\ (forall k, k <> fst entry ->
                lookup k (fst (removeFakeMarkers (acc, w) entry)) = lookup k acc)
  /\ (NoDup (map fst acc) -> NoDup (map fst (fst (removeFakeMarkers (acc, w) entry)))).
Proof.
  destruct entry as [nm [|s [|e r]]]; cbn [removeFakeMarkers fst snd].
  - split; [|split; [|split]]; auto using shrinks_refl.
  - destruct (dataTypeIs "end" s), (dataTypeIs "start" s); cbn [fst snd];
      (split; [|split; [|split]]);
      eauto using shrinks_refl, remove_shrinks, shrinks_trans, assign_keys;
      intros; rewrite ?lookup_assign_other; auto.
  - split; [|split; [|split]];
      eauto using shrinks_refl, remove_shrinks, shrinks_trans, assign_keys.
    intros. rewrite lookup_assign_other; auto.
Qed.

Lemma removeFakeMarkers_fold (entries : list (string * list node)) :
  forall acc w,
    let r := fold_left removeFakeMarkers entries (acc, w) in
    shrinks w (snd r)
    /\ fragmentMarkers (snd r) = fragmentMarkers w
    /\ (forall k, ~ In k (map fst entries) -> lookup k (fst r) = lookup k acc)
    /\ (NoDup (map fst acc) -> NoDup (map fst (fst r))).
Proof.
  induction entries as [|entry rest IH]; intros acc w; cbn [fold_left].
  - cbn. split; [|split; [|split]]; auto using shrinks_refl.
  - destruct (removeFakeMarkers_step acc w entry) as (S1 & M1 & L1 & N1).
    destruct (removeFakeMarkers (acc, w) entry) as [acc1 w1] eqn:E.
    cbn [fst snd] in *.
    destruct (IH acc1 w1) as (S2 & M2 & L2 & N2).
    cbv zeta. split; [|split; [|split]].
    + apply (shrinks_trans S1 S2).
    + congruence.
    + intros k Hk. simpl in Hk. rewrite L2, L1; auto.
    + auto.
Qed.

(** The entry of a name that has one fake element, of kind end. *)
Lemma removeFakeMarkers_lone_end (acc : list (string * Range)) (w : Writer)
      (nm : string) (e : node) :
  dataTypeIs "end" e = true ->
  removeFakeMarkers (acc, w) (nm, [e])
  = (assign nm (mkRange (createPositionFromPath (root (createPositionBefore e w)) [0])
                        (createPositionBefore e w)) acc,
     remove e w).
Proof.
  intros H. cbn [removeFakeMarkers]. rewrite H, (kind_end_not_start e H). reflexivity.
Qed.

Lemma scan_keys (items : list node) :
  forall acc, NoDup (map fst acc) ->
              NoDup (map fst (fold_left collectFakeMarker items acc)).
Proof.
  induction items as [|x r IH]; intros acc H; cbn [fold_left]; auto.
  apply IH. unfold collectFakeMarker.
  destruct (isElement x); auto. destruct (fakeMarkerName x); auto.
  now apply pushTo_keys.
Qed.

Lemma _getAllFakeMarkersFromElement_keys (w : Writer) :
  NoDup (map fst (_getAllFakeMarkersFromElement w)).
Proof. apply scan_keys. constructor. Qed.
End DecodeFacts.

Module FragmentFacts.
Import AssignFragmentMarkers.

Lemma setFragmentMarkers_roots (rs : list (string * Range)) :
  forall w, fragmentRoot (setFragmentMarkers rs w) = fragmentRoot w
            /\ documentRoot (setFragmentMarkers rs w) = documentRoot w.
Proof.
  unfold setFragmentMarkers.
  induction rs as [|[k v] r IH]; intros w; cbn [fold_left]; auto.
  destruct (IH (setFragmentMarker k v w)) as [-> ->]. auto.
Qed.

Lemma setFragmentMarkers_other (nm : string) (rs : list (string * Range)) :
  forall w, ~ In nm (map fst rs) ->
            lookup nm (fragmentMarkers (setFragmentMarkers rs w))
            = lookup nm (fragmentMarkers w).
Proof.
  unfold setFragmentMarkers.
  induction rs as [|[k v] r IH]; intros w H; cbn [fold_left]; auto.
  simpl in H. rewrite IH by tauto. simpl.
  apply lookup_assign_other. intros ->. tauto.
Qed.

Lemma setFragmentMarkers_lookup (nm : string) (range : Range) (rs : list (string * Range)) :
  forall w, NoDup (map fst rs) -> In (nm, range) rs ->
            lookup nm (fragmentMarkers (setFragmentMarkers rs w)) = Some range.
Proof.
  induction rs as [|[k v] r IH]; intros w N I; [contradiction|].
  simpl in N. inversion N; subst. destruct I as [E | I].
  - inversion E; subst.
    change (setFragmentMarkers ((nm, range) :: r) w)
      with (setFragmentMarkers r (setFragmentMarker nm range w)).
    rewrite setFragmentMarkers_other by assumption.
    simpl. apply lookup_assign_same.
  - change (setFragmentMarkers ((k, v) :: r) w)
      with (setFragmentMarkers r (setFragmentMarker k v w)).
    now apply IH.
Qed.

Lemma coverWholeFragment_fold (ranges : list (string * Range))
      (inserted : list (string * list node)) :
  forall w,
    let w' := fold_left (coverWholeFragment ranges) inserted w in
    fragmentRoot w' = fragmentRoot w
    /\ documentRoot w' = documentRoot w
    /\ forall nm range, lookup nm ranges = Some range ->
                        lookup nm (fragmentMarkers w') = lookup nm (fragmentMarkers w).
Proof.
  induction inserted as [|[k xs] r IH]; intros w; cbn [fold_left]; cbv zeta; auto.
  destruct (IH (coverWholeFragment ranges w (k, xs))) as (E1 & E2 & L).
  assert (R : fragmentRoot (coverWholeFragment ranges w (k, xs)) = fragmentRoot w
              /\ documentRoot (coverWholeFragment ranges w (k, xs)) = documentRoot w
              /\ forall nm range, lookup nm ranges = Some range ->
                   lookup nm (fragmentMarkers (coverWholeFragment ranges w (k, xs)))
                   = lookup nm (fragmentMarkers w)).
  { unfold coverWholeFragment. cbn [fst].
    destruct (lookup k ranges) eqn:E; split; [|split| |split]; auto.
    intros nm range H. simpl. apply lookup_assign_other. congruence. }
  destruct R as (R1 & R2 & R3).
  split; [|split]; try congruence.
  intros nm range H. rewrite (L nm range H). eauto.
Qed.

Lemma removeAll_facts (elements : list node) :
  forall w, shrinks w (removeAll elements w)
            /\ fragmentMarkers (removeAll elements w) = fragmentMarkers w.
Proof.
  unfold removeAll.
  induction elements as [|x r IH]; intros w; cbn [fold_left].
  - split; auto using shrinks_refl.
  - destruct (IH (remove x w)) as [S M]. split.
    + exact (shrinks_trans (remove_shrinks x w) S).
    + now rewrite M.
Qed.
End FragmentFacts.

Module LoneEnd.
Import AssignFragmentMarkers.

Lemma ranges_of_lone_end (w : Writer) (pre post : list (string * list node))
      (markerName : string) (e : node) :
  NoDup (map fst (pre ++ (markerName, [e]) :: post)) ->
  dataTypeIs "end" e = true ->
  NoDup (idsIn (fragmentRoot w)) ->
  let reached := snd (fold_left removeFakeMarkers pre ([], w)) in
  let endPosition := createPositionBefore e reached in
  let range := mkRange (createPositionFromPath (root endPosition) [0]) endPosition in
  let result := _removeFakeMarkersFromFragment w (pre ++ (markerName, [e]) :: post) in
  lookup markerName (fst result) = Some range
  /\ NoDup (map fst (fst result))
  /\ ~ In (nodeId e) (idsIn (fragmentRoot (snd result))).
Proof.
  intros K T N. cbv zeta. unfold _removeFakeMarkersFromFragment.
  rewrite fold_left_app. cbn [fold_left].
  destruct (DecodeFacts.removeFakeMarkers_fold pre [] w) as (S0 & _ & _ & N0).
  destruct (fold_left removeFakeMarkers pre ([], w)) as [acc0 w0] eqn:E0.
  cbn [fst snd] in *.
  rewrite (DecodeFacts.removeFakeMarkers_lone_end acc0 w0 markerName e T).
  match goal with
  | |- context [fold_left removeFakeMarkers post (?a, ?b)] =>
      destruct (DecodeFacts.removeFakeMarkers_fold post a b) as (S1 & _ & L1 & N1)
  end.
  cbv zeta in *.
  rewrite map_app in K. apply NoDup_app_parts in K as (_ & K & _).
  simpl in K. inversion K; subst.
  split; [|split].
  - rewrite L1 by assumption. apply lookup_assign_same.
  - apply N1. apply assign_keys. apply N0. constructor.
  - intros I. apply (@remove_gone e w0).
    + apply S0. exact N.
    + apply S1. exact I.
Qed.
End LoneEnd.

(** C5: when decoding finds, for a marker name, exactly one fake element
    and its recorded kind is end, the marker set on the fragment runs from
    the path [0] of the root of that element to the position just before
    the element (as the tree is when its entry is reached), and the
    element is no longer in the fragment afterwards.  This holds for both
    revisions of the decoding function. *)
Theorem C5_lone_end_sentinel_range
        (w : Writer) (inserted pre post : list (string * list node))
        (markerName : string) (e : node) :
  AssignFragmentMarkers._getAllFakeMarkersFromElement w
    = pre ++ (markerName, [e]) :: post ->
  AssignFragmentMarkers.dataTypeIs "end" e = true ->
  NoDup (idsIn (fragmentRoot w)) ->
  let reached :=
    snd (fold_left AssignFragmentMarkers.removeFakeMarkers pre ([], w)) in
  let endPosition := createPositionBefore e reached in
  let range := mkRange (createPositionFromPath (root endPosition) [0]) endPosition in
  let after := AssignFragmentMarkers.afterCopySelectionMarkersFragment w inserted in
  let after' := AssignFragmentMarkers.collectAndRemoveFakeMarkers w inserted in
  (lookup markerName (fragmentMarkers after) = Some range
   /\ ~ In (nodeId e) (idsIn (fragmentRoot after)))
  /\ (lookup markerName (fragmentMarkers after') = Some range
      /\ ~ In (nodeId e) (idsIn (fragmentRoot after'))).
Proof.
  intros S T N. cbv zeta.
  assert (K : NoDup (map fst (pre ++ (markerName, [e]) :: post))).
  { rewrite <- S. apply DecodeFacts._getAllFakeMarkersFromElement_keys. }
  destruct (@LoneEnd.ranges_of_lone_end w pre post markerName e K T N) as (L & NK & G).
  unfold AssignFragmentMarkers.afterCopySelectionMarkersFragment,
         AssignFragmentMarkers.collectAndRemoveFakeMarkers,
         AssignFragmentMarkers._removeFakeMarkersInsideFragment.
  rewrite S.
  destruct (AssignFragmentMarkers._removeFakeMarkersFromFragment w
              (pre ++ (markerName, [e]) :: post)) as [ranges w1].
  cbn [fst snd] in *.
  split.
  - destruct (FragmentFacts.removeAll_facts
                (AssignFragmentMarkers.insertedElements inserted)
                (AssignFragmentMarkers.setFragmentMarkers ranges w1)) as [Sh M].
    split.
    + rewrite M. apply FragmentFacts.setFragmentMarkers_lookup; auto.
      now apply lookup_In.
    + intros I. apply G. apply Sh in I.
      now rewrite (proj1 (FragmentFacts.setFragmentMarkers_roots ranges w1)) in I.
  - destruct (FragmentFacts.coverWholeFragment_fold ranges inserted
                (AssignFragmentMarkers.setFragmentMarkers ranges w1)) as (R1 & R2 & R3).
    cbv zeta in *.
    destruct (FragmentFacts.removeAll_facts
                (AssignFragmentMarkers.insertedElements inserted)
                (fold_left (AssignFragmentMarkers.coverWholeFragment ranges) inserted
                   (AssignFragmentMarkers.setFragmentMarkers ranges w1))) as [Sh M].
    split.
    + rewrite M, (R3 _ _ L).
      apply FragmentFacts.setFragmentMarkers_lookup; auto. now apply lookup_In.
    + intros I. apply G. apply Sh in I. rewrite R1 in I.
      now rewrite (proj1 (FragmentFacts.setFragmentMarkers_roots ranges w1)) in I.
Qed.

Lemma loneEndWriter_ids : NoDup (idsIn (fragmentRoot loneEndWriter)).
Proof. vm_compute. repeat constructor; simpl; intuition discriminate. Qed.

Lemma C5_lone_end_witness :
  (lookup "comment:thread1"
     (fragmentMarkers
        (AssignFragmentMarkers.afterCopySelectionMarkersFragment
           loneEndWriter encodedInserted))
   = Some (mkRange (mkPosition FragmentRoot [0]) (mkPosition FragmentRoot [0; 2]))
   /\ ~ In 203 (idsIn (fragmentRoot
                         (AssignFragmentMarkers.afterCopySelectionMarkersFragment
                            loneEndWriter encodedInserted))))
  /\ (lookup "comment:thread1"
        (fragmentMarkers
           (AssignFragmentMarkers.collectAndRemoveFakeMarkers
              loneEndWriter encodedInserted))
      = Some (mkRange (mkPosition FragmentRoot [0]) (mkPosition FragmentRoot [0; 2]))
      /\ ~ In 203 (idsIn (fragmentRoot
                            (AssignFragmentMarkers.collectAndRemoveFakeMarkers
                               loneEndWriter encodedInserted)))).
Proof.
  exact (@C5_lone_end_sentinel_range loneEndWriter encodedInserted [] []
           "comment:thread1" (fakeMarker 203 "comment:thread1" "end")
           eq_refl eq_refl loneEndWriter_ids).
Defined.

(** ** A selection inside a marker: no fake element in the fragment *)

Module CoverFacts.
Import AssignFragmentMarkers.

Lemma createRangeIn_root (w w' : Writer) :
  fragmentRoot w' = fragmentRoot w -> createRangeIn w' = createRangeIn w.
Proof. unfold createRangeIn, createPositionAtEnd. now intros ->. Qed.

Lemma coverWholeFragment_step (ranges : list (string * Range)) (w : Writer)
      (entry : string * list node) :
  fragmentRoot (coverWholeFragment ranges w entry) = fragmentRoot w.
Proof. unfold coverWholeFragment. destruct (lookup (fst entry) ranges); reflexivity. Qed.

Lemma cover_keeps (ranges : list (string * Range)) (nm : string)
      (inserted : list (string * list node)) :
  forall w,
    lookup nm ranges = None ->
    lookup nm (fragmentMarkers w) = Some (createRangeIn w) ->
    lookup nm (fragmentMarkers (fold_left (coverWholeFragment ranges) inserted w))
    = Some (createRangeIn w).
Proof.
  induction inserted as [|[k xs] r IH]; intros w N H; cbn [fold_left]; auto.
  rewrite IH; auto.
  - f_equal. apply createRangeIn_root, coverWholeFragment_step.
  - rewrite (@createRangeIn_root _ _ (coverWholeFragment_step ranges w (k, xs))).
    unfold coverWholeFragment. cbn [fst].
    destruct (lookup k ranges) eqn:E; auto. simpl.
    destruct (String.eqb_spec k nm) as [-> | NE].
    + apply lookup_assign_same.
    + rewrite lookup_assign_other; auto.
Qed.

Lemma cover_sets (ranges : list (string * Range)) (nm : string)
      (inserted : list (string * list node)) :
  forall w,
    lookup nm ranges = None ->
    In nm (map fst inserted) ->
    lookup nm (fragmentMarkers (fold_left (coverWholeFragment ranges) inserted w))
    = Some (createRangeIn w).
Proof.
  induction inserted as [|[k xs] r IH]; intros w N I; [contradiction|].
  cbn [fold_left]. simpl in I.
  destruct (String.eqb_spec k nm) as [-> | NE].
  - rewrite cover_keeps; auto.
    + f_equal. apply createRangeIn_root, coverWholeFragment_step.
    + rewrite (@createRangeIn_root _ _ (coverWholeFragment_step ranges w (nm, xs))).
      unfold coverWholeFragment. cbn [fst]. rewrite N. simpl.
      apply lookup_assign_same.
  - rewrite IH; [|assumption|tauto].
    f_equal. apply createRangeIn_root, coverWholeFragment_step.
Qed.

(** The later revision, [collectAndRemoveFakeMarkers]: a marker that was
    encoded and has no fake element in the fragment is set on the
    fragment with the range of the whole fragment. *)
Lemma collectAndRemoveFakeMarkers_covers_fragment
      (w : Writer) (inserted : list (string * list node)) (nm : string) :
  In nm (map fst inserted) ->
  lookup nm (_getAllFakeMarkersFromElement w) = None ->
  lookup nm (fragmentMarkers (collectAndRemoveFakeMarkers w inserted))
  = Some (createRangeIn
            (snd (_removeFakeMarkersInsideFragment w (_getAllFakeMarkersFromElement w)))).
Proof.
  intros I N. unfold collectAndRemoveFakeMarkers, _removeFakeMarkersInsideFragment,
                     _removeFakeMarkersFromFragment.
  destruct (DecodeFacts.removeFakeMarkers_fold (_getAllFakeMarkersFromElement w) [] w)
    as (_ & _ & L & _).
  destruct (fold_left removeFakeMarkers (_getAllFakeMarkersFromElement w) ([], w))
    as [ranges w1].
  cbn [fst snd] in *.
  assert (R : lookup nm ranges = None).
  { rewrite L; [reflexivity | now apply lookup_None]. }
  rewrite (proj2 (FragmentFacts.removeAll_facts _ _)).
  rewrite cover_sets; auto.
  f_equal. apply createRangeIn_root. apply FragmentFacts.setFragmentMarkers_roots.
Qed.
End CoverFacts.

(** C6, the defect: the selection lies inside the comment, so the copied
    fragment holds no fake element of it.  [afterCopySelectionMarkersFragment]
    sets no marker on the fragment; [collectAndRemoveFakeMarkers], on the
    same input, sets the comment over the whole fragment. *)
Theorem C6_afterCopy_drops_marker_around_selection :
  lookup "comment:thread1" encodedInserted
  = Some [fakeMarker 100 "comment:thread1" "end"; fakeMarker 102 "comment:thread1" "start"]
  /\ lookup "comment:thread1"
       (AssignFragmentMarkers._getAllFakeMarkersFromElement insideWriter) = None
  /\ fragmentMarkers
       (AssignFragmentMarkers.afterCopySelectionMarkersFragment insideWriter encodedInserted)
     = []
  /\ fragmentMarkers
       (AssignFragmentMarkers.collectAndRemoveFakeMarkers insideWriter encodedInserted)
     = [("comment:thread1",
         mkRange (mkPosition FragmentRoot [0]) (mkPosition FragmentRoot [1]))].
Proof. repeat split; reflexivity. Qed.

(** C7, the defect: the comment runs from one selected cell into the
    next, the selection has a range per cell, and the encoding inserts the
    two fake elements of the comment once per range.  The copied cells
    hold four fake elements of one name; decoding pairs and removes the
    first two only, and two fake elements stay in the produced fragment,
    in both revisions of the decoding function. *)
Theorem C7_fake_markers_left_in_fragment :
  List.length (insertLog (snd twoCellsEncoded)) = 4
  /\ fakeMarkersIn (fragmentRoot
                      (AssignFragmentMarkers.afterCopySelectionMarkersFragment
                         twoCellsCopied (fst twoCellsEncoded)))
     = [fakeMarker 212 "comment:thread2" "end"; fakeMarker 213 "comment:thread2" "end"]
  /\ fakeMarkersIn (fragmentRoot
                      (AssignFragmentMarkers.collectAndRemoveFakeMarkers
                         twoCellsCopied (fst twoCellsEncoded)))
     = [fakeMarker 212 "comment:thread2" "end"; fakeMarker 213 "comment:thread2" "end"]
  /\ fakeMarkersIn (documentRoot
                      (AssignFragmentMarkers.afterCopySelectionMarkersFragment
                         twoCellsCopied (fst twoCellsEncoded)))
     = [].
Proof. repeat split; reflexivity. Qed.

(** ** Removals that leave nodes behind *)
Lemma list_pair_ind (A : Type) (P : list A -> Prop) :
  P [] -> (forall a, P [a]) -> (forall a b r, P r -> P (a :: b :: r)) ->
  forall l, P l.
Proof.
  intros H0 H1 H2.
  assert (H : forall l, P l /\ forall a, P (a :: l)).
  { induction l as [|b r [IH1 IH2]]; split; auto. }
  intros l. apply H.
Qed.

Lemma shrinks_distinct (w w' : Writer) :
  shrinks w w' -> distinctIds w -> distinctIds w'.
Proof. unfold shrinks, distinctIds. tauto. Qed.

Lemma shrinks_gone (x : node) (w w' : Writer) :
  shrinks w w' -> gone x w -> gone x w'.
Proof.
  unfold shrinks, gone. intros [[A _] [B _]] [G1 G2]. split; intros I; auto.
Qed.

Lemma remove_makes_gone (x : node) (w : Writer) :
  distinctIds w -> gone x (remove x w).
Proof.
  unfold distinctIds, gone, remove. simpl. intros [A B].
  split; now apply removeFrom_gone.
Qed.

(** ** Positions and removals in a tree *)

Lemma distinctIds_roots (w w' : Writer) :
  fragmentRoot w' = fragmentRoot w -> documentRoot w' = documentRoot w ->
  distinctIds w -> distinctIds w'.
Proof. unfold distinctIds. intros -> ->. auto. Qed.

Lemma removeAll_gone (elements : list node) :
  forall w, distinctIds w ->
            forall x, In x elements ->
                      gone x (AssignFragmentMarkers.removeAll elements w).
Proof.
  induction elements as [|a r IH]; intros w D x I; [destruct I|].
  unfold AssignFragmentMarkers.removeAll. cbn [fold_left].
  fold (AssignFragmentMarkers.removeAll r (remove a w)).
  destruct I as [<- | I].
  - apply (@shrinks_gone a (remove a w)).
    + apply FragmentFacts.removeAll_facts.
    + now apply remove_makes_gone.
  - apply IH; [|exact I]. apply (@shrinks_distinct w); [apply remove_shrinks | exact D].
Qed.

Lemma distinctb_sound (l : list nat) : distinctb l = true -> NoDup l.
Proof.
  induction l as [|a r IH]; cbn [distinctb]; intros H; constructor.
  - apply andb_true_iff in H as [H _]. apply negb_true_iff in H.
    intros I. assert (E : existsb (Nat.eqb a) r = true).
    { apply existsb_exists. exists a. split; [exact I | apply Nat.eqb_refl]. }
    congruence.
  - apply andb_true_iff in H as [_ H]. now apply IH.
Qed.

Lemma findPath_element (i j : nat) (nm : string) (a : attrs) (ch : list node) :
  findPath i (Element j nm a ch) = findAmong (findPath i) i ch 0.
Proof.
  cbn [findPath]. generalize 0.
  induction ch as [|c r IH]; intros off; [reflexivity|].
  cbn [findAmong]. destruct (nodeId c =? i); [reflexivity|].
  destruct (findPath i c); [reflexivity | apply IH].
Qed.

(** A node that is not in the tree has no path. *)
Lemma findAmong_absent :
  forall (l : list node) (i off : nat),
    ~ In i (idsIn l) -> findAmong (findPath i) i l off = None.
Proof.
  apply (forest_ind
    (fun n => forall i, ~ In i (idsIn (childrenOf n)) -> findPath i n = None)
    (fun l => forall i off, ~ In i (idsIn l) -> findAmong (findPath i) i l off = None)).
  - reflexivity.
  - intros j nm a ch IH i N. rewrite findPath_element. now apply IH.
  - reflexivity.
  - intros c r IHc IHr i off N. rewrite idsIn_cons, idsOf_head in N.
    cbn [findAmong]. destruct (Nat.eqb_spec (nodeId c) i) as [E | NE].
    + exfalso. apply N. now left.
    + rewrite IHc; [apply IHr|]; intros I; apply N; right; apply in_or_app; auto.
Qed.

Lemma pathOf_absent (i : nat) (l : list node) : ~ In i (idsIn l) -> pathOf i l = None.
Proof.
  intros N. unfold pathOf, asRoot. rewrite findPath_element. now apply findAmong_absent.
Qed.

Lemma childAt_skip (c : node) (r : list node) (a : nat) :
  1 <= offsetSize c -> childAt (offsetSize c + a) (c :: r) = childAt a r.
Proof.
  intros S1. cbn [childAt].
  destruct (Nat.eqb_spec (offsetSize c + a) 0) as [?|_]; [lia|].
  destruct (Nat.ltb_spec (offsetSize c + a) (offsetSize c)) as [?|_]; [lia|].
  f_equal. lia.
Qed.

Lemma nodeAt_skip (c : node) (r : list node) (a : nat) (p : list nat) :
  1 <= offsetSize c -> nodeAt ((offsetSize c + a) :: p) (c :: r) = nodeAt (a :: p) r.
Proof. intros S1. cbn [nodeAt]. now rewrite childAt_skip. Qed.

(** The path found for a node of the tree leads to that node, when no
    text node is empty. *)
Lemma findAmong_nodeAt :
  forall (l : list node) (i off : nat),
    Forall (fun y => 1 <= offsetSize y) (itemsIn l) ->
    In i (idsIn l) ->
    exists a p x,
      findAmong (findPath i) i l off = Some ((off + a) :: p)
      /\ nodeAt (a :: p) l = Some x /\ nodeId x = i.
Proof.
  apply (forest_ind
    (fun n => forall i,
       Forall (fun y => 1 <= offsetSize y) (itemsIn (childrenOf n)) ->
       In i (idsIn (childrenOf n)) ->
       exists a p x,
         findPath i n = Some (a :: p)
         /\ nodeAt (a :: p) (childrenOf n) = Some x /\ nodeId x = i)
    (fun l => forall i off,
       Forall (fun y => 1 <= offsetSize y) (itemsIn l) ->
       In i (idsIn l) ->
       exists a p x,
         findAmong (findPath i) i l off = Some ((off + a) :: p)
         /\ nodeAt (a :: p) l = Some x /\ nodeId x = i)).
  - intros j a d i _ [].
  - intros j nm a ch IH i F I. rewrite findPath_element.
    destruct (IH i 0 F I) as (a0 & p & x & E & R). now exists a0, p, x.
  - intros i off _ [].
  - intros c r IHc IHr i off F I.
    rewrite itemsIn_cons, items_head in F. apply Forall_app in F as [Fc Fr].
    inversion Fc as [|? ? Sc Fc']; subst.
    rewrite idsIn_cons, idsOf_head in I.
    cbn [findAmong]. destruct (Nat.eqb_spec (nodeId c) i) as [E | NE].
    + exists 0, [], c. rewrite Nat.add_0_r. repeat split; auto.
    + destruct (in_dec Nat.eq_dec i (idsIn (childrenOf c))) as [Ic | Nc].
      * destruct (IHc i Fc' Ic) as (a0 & p & x & E & R & Ex). rewrite E.
        exists 0, (a0 :: p), x. rewrite Nat.add_0_r. repeat split; auto.
      * assert (Na : findPath i c = None).
        { destruct c as [|j nm a ch]; [reflexivity|].
          rewrite findPath_element. now apply findAmong_absent. }
        rewrite Na.
        assert (Ir : In i (idsIn r)).
        { destruct I as [I | I]; [congruence|].
          apply in_app_or in I as [I | I]; [contradiction | exact I]. }
        destruct (IHr i (off + offsetSize c) Fr Ir) as (a0 & p & x & E & R & Ex).
        exists (offsetSize c + a0), p, x.
        rewrite E, Nat.add_assoc, nodeAt_skip by exact Sc. auto.
Qed.

(** The position before a node of the document is the position whose
    node after is that node. *)
Lemma createPositionBefore_nodeAfter (x : node) (w : Writer) :
  ~ In (nodeId x) (idsIn (fragmentRoot w)) ->
  In (nodeId x) (idsIn (documentRoot w)) ->
  Forall (fun y => 1 <= offsetSize y) (itemsIn (documentRoot w)) ->
  option_map nodeId (nodeAfter (createPositionBefore x w) w) = Some (nodeId x).
Proof.
  intros Nf Id F. unfold createPositionBefore.
  rewrite (pathOf_absent _ _ Nf). unfold pathOf, asRoot. rewrite findPath_element.
  destruct (findAmong_nodeAt (documentRoot w) (nodeId x) 0 F Id)
    as (a & p & y & E & R & Ey).
  rewrite E. unfold nodeAfter. cbn [path root getRoot Nat.add]. rewrite R.
  cbn [option_map]. now rewrite Ey.
Qed.

(** What is left of the items when a node is removed: an item that is
    left has its identity and its size from an item there was, and has
    no children if that one had none. *)
Lemma removeFrom_items :
  forall (l : list node) (j : nat) (y' : node),
    In y' (itemsIn (removeFrom j l)) ->
    exists y, In y (itemsIn l) /\ nodeId y = nodeId y'
              /\ offsetSize y = offsetSize y'
              /\ (childrenOf y = [] -> childrenOf y' = []).
Proof.
  apply (forest_ind
    (fun n => forall j y',
       In y' (items (removeNode j n)) ->
       exists y, In y (items n) /\ nodeId y = nodeId y'
                 /\ offsetSize y = offsetSize y'
                 /\ (childrenOf y = [] -> childrenOf y' = []))
    (fun l => forall j y',
       In y' (itemsIn (removeFrom j l)) ->
       exists y, In y (itemsIn l) /\ nodeId y = nodeId y'
                 /\ offsetSize y = offsetSize y'
                 /\ (childrenOf y = [] -> childrenOf y' = []))).
  - intros i a d j y' I. cbn [removeNode] in I. exists y'. auto.
  - intros i nm a ch IH j y' I. rewrite removeNode_element, items_head in I.
    cbn [childrenOf] in I. destruct I as [<- | I].
    + exists (Element i nm a ch). repeat split; [now left|].
      cbn [childrenOf]. now intros ->.
    + destruct (IH j y' I) as (y & Iy & R). exists y. split; [|exact R].
      rewrite items_head. right. exact Iy.
  - intros j y' [].
  - intros c r IHc IHr j y' I. rewrite removeFrom_cons in I.
    rewrite itemsIn_cons. destruct (nodeId c =? j).
    + exists y'. repeat split; auto. apply in_or_app. now right.
    + rewrite itemsIn_cons in I. apply in_app_or in I as [I | I].
      * destruct (IHc j y' I) as (y & Iy & R). exists y. split; [|exact R].
        apply in_or_app. now left.
      * destruct (IHr j y' I) as (y & Iy & R). exists y. split; [|exact R].
        apply in_or_app. now right.
Qed.

(** Removing a node without children takes no other identity away. *)
Lemma removeFrom_keeps :
  forall (l : list node) (j i : nat),
    (forall y, In y (itemsIn l) -> nodeId y = j -> childrenOf y = []) ->
    In i (idsIn l) -> i <> j -> In i (idsIn (removeFrom j l)).
Proof.
  apply (forest_ind
    (fun n => forall j i,
       (forall y, In y (items n) -> nodeId y = j -> childrenOf y = []) ->
       In i (idsOf n) -> i <> j -> In i (idsOf (removeNode j n)))
    (fun l => forall j i,
       (forall y, In y (itemsIn l) -> nodeId y = j -> childrenOf y = []) ->
       In i (idsIn l) -> i <> j -> In i (idsIn (removeFrom j l)))).
  - intros k a d j i _ I _. exact I.
  - intros k nm a ch IH j i L I N. rewrite removeNode_element.
    rewrite idsOf_head in *. cbn [nodeId childrenOf] in *.
    destruct I as [I | I]; [now left | right].
    apply IH; auto. intros y Iy. apply L. rewrite items_head. now right.
  - intros j i _ [].
  - intros c r IHc IHr j i L I N. rewrite removeFrom_cons.
    rewrite idsIn_cons in I.
    destruct (Nat.eqb_spec (nodeId c) j) as [E | NE].
    + assert (Lc : childrenOf c = []).
      { apply L; [|exact E]. rewrite itemsIn_cons, items_head. now left. }
      rewrite idsOf_head, Lc in I. cbn [idsIn itemsIn flat_map map app] in I.
      destruct I as [I | I]; [congruence | exact I].
    + rewrite idsIn_cons. apply in_or_app. apply in_app_or in I as [I | I].
      * left. apply IHc; auto. intros y Iy. apply L. rewrite itemsIn_cons.
        apply in_or_app. now left.
      * right. apply IHr; auto. intros y Iy. apply L. rewrite itemsIn_cons.
        apply in_or_app. now right.
Qed.

Lemma removeAll_cons (a : node) (l : list node) (w : Writer) :
  AssignFragmentMarkers.removeAll (a :: l) w
  = AssignFragmentMarkers.removeAll l (remove a w).
Proof. reflexivity. Qed.

Lemma removeAll_app (l l' : list node) (w : Writer) :
  AssignFragmentMarkers.removeAll (l ++ l') w
  = AssignFragmentMarkers.removeAll l' (AssignFragmentMarkers.removeAll l w).
Proof. unfold AssignFragmentMarkers.removeAll. apply fold_left_app. Qed.

(** Nodes of the document without children, removed one after the other,
    take none of the other nodes with them. *)
Lemma removeAll_keeps (l : list node) :
  forall (w : Writer) (i : nat),
    (forall x y, In x l -> In y (itemsIn (documentRoot w)) ->
                 nodeId y = nodeId x -> childrenOf y = []) ->
    Forall (fun y => 1 <= offsetSize y) (itemsIn (documentRoot w)) ->
    In i (idsIn (documentRoot w)) ->
    ~ In i (idsIn (fragmentRoot w)) ->
    ~ In i (map nodeId l) ->
    In i (idsIn (documentRoot (AssignFragmentMarkers.removeAll l w)))
    /\ ~ In i (idsIn (fragmentRoot (AssignFragmentMarkers.removeAll l w)))
    /\ Forall (fun y => 1 <= offsetSize y)
              (itemsIn (documentRoot (AssignFragmentMarkers.removeAll l w))).
Proof.
  induction l as [|a l IH]; intros w i L F Id Nf Nl; [auto|].
  rewrite removeAll_cons. apply IH.
  - intros x y Ix Iy E. cbn [remove setRoot documentRoot] in Iy.
    destruct (removeFrom_items _ _ _ Iy) as (y0 & I0 & E0 & _ & C0).
    apply C0. apply (L x y0); [now right | exact I0 | congruence].
  - apply Forall_forall. intros y Iy. cbn [remove setRoot documentRoot] in Iy.
    destruct (removeFrom_items _ _ _ Iy) as (y0 & I0 & _ & S0 & _).
    rewrite <- S0. rewrite Forall_forall in F. now apply F.
  - cbn [remove setRoot documentRoot]. apply removeFrom_keeps; auto.
    + intros y Iy E. apply (L a y); [now left | exact Iy | exact E].
    + intros E. apply Nl. left. auto.
  - cbn [remove setRoot fragmentRoot]. intros I. apply Nf.
    exact (removeFrom_incl _ _ _ I).
  - intros I. apply Nl. now right.
Qed.

(** ** Decoding after a paste into a table *)

Lemma markersSince_app (w w' : Writer) (added : list Marker) :
  modelMarkers w' = modelMarkers w ++ added -> markersSince w w' = added.
Proof.
  unfold markersSince. intros ->. now rewrite skipn_app, skipn_all, Nat.sub_diag.
Qed.

Lemma sameRoots_refl (w : Writer) : sameRoots w w.
Proof. split; reflexivity. Qed.

Lemma sameRoots_trans (a b c : Writer) : sameRoots a b -> sameRoots b c -> sameRoots a c.
Proof. intros [A1 A2] [B1 B2]. split; congruence. Qed.

Lemma sameRoots_remove (x : node) (a b : Writer) :
  sameRoots a b -> sameRoots (remove x a) (remove x b).
Proof. intros [A1 A2]. unfold remove. split; simpl; congruence. Qed.

Lemma sameRoots_removeAll (l : list node) :
  forall a b, sameRoots a b ->
              sameRoots (AssignFragmentMarkers.removeAll l a)
                        (AssignFragmentMarkers.removeAll l b).
Proof.
  induction l as [|x l IH]; intros a b R; [exact R|].
  rewrite !removeAll_cons. apply IH. now apply sameRoots_remove.
Qed.

Lemma sameRoots_position (x : node) (a b : Writer) :
  sameRoots a b -> createPositionBefore x a = createPositionBefore x b.
Proof. intros [A1 A2]. unfold createPositionBefore. now rewrite A1, A2. Qed.

Lemma sameRoots_gone (x : node) (a b : Writer) : sameRoots a b -> gone x b -> gone x a.
Proof. intros [A1 A2]. unfold gone. now rewrite A1, A2. Qed.

(** A marker is in the model after a registration when it was there
    before or was registered. *)
Lemma hasMarker_added (nm : string) (w w' : Writer) (added : list Marker) :
  modelMarkers w' = modelMarkers w ++ added ->
  hasMarker nm w = false -> ~ In nm (map name added) -> hasMarker nm w' = false.
Proof.
  intros M H N. unfold hasMarker in *. rewrite M, existsb_app, H. cbn [orb].
  destruct (existsb _ added) eqn:E; [|reflexivity].
  apply existsb_exists in E as (m & Im & Em). apply String.eqb_eq in Em.
  exfalso. apply N. rewrite <- Em. now apply in_map.
Qed.

Lemma removalOrder_In (x : node) (l : list node) : In x (removalOrder l) <-> In x l.
Proof.
  induction l as [|a|a b r IH] using list_pair_ind; cbn [removalOrder]; [tauto | tauto|].
  cbn [In]. rewrite IH. tauto.
Qed.

Lemma removalOrder_perm (l : list node) : Permutation (removalOrder l) l.
Proof.
  induction l as [|a|a b r IH] using list_pair_ind; cbn [removalOrder]; auto.
  rewrite perm_swap. now do 2 apply perm_skip.
Qed.

Section PasteDecodeFacts.
Import TableClipboardMarkers.
Variable uid : nat -> string.
(** The writer the decoding started from. *)
Variable w0 : Writer.

Lemma ran_roots (earlier : list node) (st st' : Writer * nat) (names : list string)
      (calls : nat) (pairs : list (list node * (node * node))) (removed : list node) :
  ran w0 earlier st st' names calls pairs removed ->
  sameRoots (fst st') (AssignFragmentMarkers.removeAll (earlier ++ removed) w0).
Proof. intros (a & _ & _ & _ & _ & R). exact R. Qed.

Lemma ended_nothing (earlier : list node) (st : Writer * nat) :
  sameRoots (fst st) (AssignFragmentMarkers.removeAll earlier w0) ->
  ended w0 earlier st (Returned st) [] 0 [] [].
Proof.
  intros R. exists []. rewrite !app_nil_r. repeat split; auto; try apply R.
Qed.

Lemma ended_then (e1 : list node) (st1 : Writer * nat) (o1 : Outcome)
      (f : Writer * nat -> Outcome) (n1 n2 : list string) (c1 c2 : nat)
      (p1 p2 : list (list node * (node * node))) (r1 r2 : list node) :
  ended w0 e1 st1 o1 n1 c1 p1 r1 ->
  (forall st2, ran w0 e1 st1 st2 n1 c1 p1 r1 ->
               ended w0 (e1 ++ r1) st2 (f st2) n2 c2 p2 r2) ->
  ended w0 e1 st1 (andThen o1 f) (n1 ++ n2) (c1 + c2) (p1 ++ p2) (r1 ++ r2).
Proof.
  intros E1 E2. destruct o1 as [st2 | st2]; cbn [andThen ended] in *.
  - specialize (E2 st2 E1). destruct E1 as (a1 & M1 & N1 & F1 & K1 & R1).
    destruct (f st2) as [st3 | st3]; cbn [ended] in *.
    + destruct E2 as (a2 & M2 & N2 & F2 & K2 & R2).
      exists (a1 ++ a2). rewrite M2, M1, <- app_assoc, map_app, N1, N2.
      repeat split; auto.
      * now apply Forall2_app.
      * lia.
      * rewrite app_assoc. apply R2.
      * rewrite app_assoc. apply R2.
    + intros [Nd H]. apply E2. apply NoDup_app_parts in Nd as (_ & Nd2 & Ap).
      split; [exact Nd2|]. intros nm I.
      apply (@hasMarker_added nm _ _ _ M1).
      * apply H. apply in_or_app. now right.
      * rewrite N1. intros I1. exact (Ap _ I1 I).
  - intros [Nd H]. apply E1. apply NoDup_app_parts in Nd as (Nd1 & _ & _).
    split; [exact Nd1|]. intros nm I. apply H. apply in_or_app. now left.
Qed.

Lemma convertChunks_thrown (markerName : string) (chunks : list (nat * list node))
      (st : Writer * nat) :
  fold_left (fun o chunk => andThen o (fun st' => convertChunk uid markerName st' chunk))
            chunks (Thrown st) = Thrown st.
Proof. induction chunks as [|c r IH]; cbn [fold_left andThen]; auto. Qed.

Lemma convertChunks_cons (markerName : string) (c : nat * list node)
      (chunks : list (nat * list node)) (st : Writer * nat) :
  convertChunks uid markerName (c :: chunks) st
  = andThen (convertChunk uid markerName st c) (convertChunks uid markerName chunks).
Proof.
  unfold convertChunks. cbn [fold_left andThen].
  destruct (convertChunk uid markerName st c); cbn [andThen]; [reflexivity|].
  apply convertChunks_thrown.
Qed.

Lemma convertChunk_pair (markerName : string) (earlier : list node) (w : Writer)
      (k off : nat) (s e : node) :
  sameRoots w (AssignFragmentMarkers.removeAll earlier w0) ->
  ended w0 earlier (w, k) (convertChunk uid markerName (w, k) (off, [s; e]))
        [fst (chunkMarkerName uid markerName off k)]
        (if 0 <? off then 1 else 0) [(earlier, (s, e))] [e; s].
Proof.
  intros R. cbn [convertChunk].
  assert (K : snd (chunkMarkerName uid markerName off k)
              = k + (if 0 <? off then 1 else 0)).
  { unfold chunkMarkerName. destruct (0 <? off); cbn [snd]; lia. }
  destruct (chunkMarkerName uid markerName off k) as [nm calls']. cbn [fst snd] in *.
  unfold addMarker. destruct (hasMarker nm w) eqn:H; cbn [ended].
  - intros [_ C]. specialize (C nm (or_introl eq_refl)). cbn [fst] in C. congruence.
  - eexists [_]. cbn [fst snd]. split; [reflexivity|]. split; [reflexivity|].
    split; [|split; [exact K|]].
    + constructor; [|constructor]. cbn [markerRange fst snd]. unfold rangeOver.
      now rewrite !(sameRoots_position _ R).
    + rewrite removeAll_app. cbn [AssignFragmentMarkers.removeAll fold_left].
      do 2 apply sameRoots_remove.
      apply (@sameRoots_trans _ w); [split; reflexivity | exact R].
Qed.

Lemma convertChunk_lone (markerName : string) (earlier : list node) (w : Writer)
      (k off : nat) (s : node) :
  sameRoots w (AssignFragmentMarkers.removeAll earlier w0) ->
  ended w0 earlier (w, k) (convertChunk uid markerName (w, k) (off, [s])) [] 0 [] [s].
Proof.
  intros R. cbn [convertChunk ended]. exists []. rewrite app_nil_r. cbn [fst snd].
  repeat split; auto.
  - rewrite removeAll_app. apply (sameRoots_remove s R).
  - rewrite removeAll_app. apply (sameRoots_remove s R).
Qed.

(** The chunks after the first one: every pair gets a fresh name. *)
Lemma convertChunks_later (markerName : string) :
  forall (elements earlier : list node) (off : nat) (st : Writer * nat),
    0 < off ->
    sameRoots (fst st) (AssignFragmentMarkers.removeAll earlier w0) ->
    ended w0 earlier st
          (convertChunks uid markerName
             (combine (seq off (List.length (chunk2 elements))) (chunk2 elements)) st)
          (map (fun j => freshName uid markerName (snd st + j))
               (seq 0 (pairCount elements)))
          (pairCount elements) (pairsOfGroup earlier elements) (removalOrder elements).
Proof.
  intros elements. induction elements as [|a|a b r IH] using list_pair_ind;
    intros earlier off [w k] Hoff R.
  - now apply ended_nothing.
  - cbn [chunk2 List.length seq combine pairCount map pairsOfGroup removalOrder].
    rewrite convertChunks_cons.
    apply (@ended_then earlier (w, k) _ _ [] [] 0 0 [] [] [a] []
             (@convertChunk_lone markerName earlier w k off a R)).
    intros st2 R2. apply ended_nothing. exact (ran_roots R2).
  - cbn [chunk2 List.length seq combine pairCount pairsOfGroup removalOrder].
    rewrite convertChunks_cons.
    pose proof (@convertChunk_pair markerName earlier w k off a b R) as E1.
    unfold chunkMarkerName in E1.
    destruct (Nat.ltb_spec 0 off) as [_ | ?]; [|lia]. cbn [fst] in E1.
    cbn [snd seq map]. rewrite Nat.add_0_r.
    rewrite <- (seq_shift (pairCount r) 0), map_map.
    change (freshName uid markerName k
              :: map (fun j => freshName uid markerName (k + S j)) (seq 0 (pairCount r)))
      with ([(sliceToLastColon markerName ++ ":" ++ uid k)%string]
              ++ map (fun j => freshName uid markerName (k + S j)) (seq 0 (pairCount r))).
    change (S (pairCount r)) with (1 + pairCount r).
    change ((earlier, (a, b)) :: pairsOfGroup (earlier ++ [b; a]) r)
      with ([(earlier, (a, b))] ++ pairsOfGroup (earlier ++ [b; a]) r).
    change (b :: a :: removalOrder r) with ([b; a] ++ removalOrder r).
    apply (@ended_then _ _ _ _ _ _ _ _ _ _ _ _ E1).
    intros st2 R2.
    assert (K2 : snd st2 = k + 1) by (destruct R2 as (_ & _ & _ & _ & K & _); exact K).
    assert (S2 : sameRoots (fst st2)
                   (AssignFragmentMarkers.removeAll (earlier ++ [b; a]) w0))
      by (destruct R2 as (_ & _ & _ & _ & _ & S2); exact S2).
    pose proof (IH (earlier ++ [b; a]) (S off) st2 (Nat.lt_0_succ off) S2) as E2.
    rewrite K2 in E2.
    erewrite map_ext; [exact E2|]. intros j. cbn. f_equal. lia.
Qed.
End PasteDecodeFacts.

Section PasteDecodeGroups.
Import TableClipboardMarkers.
Variable uid : nat -> string.
Variable w0 : Writer.

Lemma convertGroup_ended (earlier : list node) (st : Writer * nat)
      (markerName : string) (elements : list node) :
  sameRoots (fst st) (AssignFragmentMarkers.removeAll earlier w0) ->
  ended w0 earlier st (convertGroup uid st (markerName, elements))
        (groupNames uid markerName (pairCount elements) (snd st))
        (pairCount elements - 1) (pairsOfGroup earlier elements) (removalOrder elements).
Proof.
  intros R. unfold convertGroup, indexed. cbn [fst snd].
  destruct elements as [|a [|b r]].
  - now apply ended_nothing.
  - destruct st as [w k].
    cbn [chunk2 List.length seq combine pairCount groupNames pairsOfGroup removalOrder
         Nat.sub].
    rewrite convertChunks_cons.
    apply (@ended_then w0 earlier (w, k) _ _ [] [] 0 0 [] [] [a] []
             (@convertChunk_lone uid w0 markerName earlier w k 0 a R)).
    intros st2 R2. apply ended_nothing. exact (ran_roots R2).
  - destruct st as [w k].
    cbn [chunk2 List.length seq combine pairCount groupNames pairsOfGroup removalOrder].
    rewrite convertChunks_cons.
    pose proof (@convertChunk_pair uid w0 markerName earlier w k 0 a b R) as E1.
    unfold chunkMarkerName in E1. change (0 <? 0) with false in E1. cbn [fst] in E1.
    replace (S (pairCount r) - 1) with (0 + pairCount r) by lia.
    change (markerName
              :: map (fun j => freshName uid markerName (snd (w, k) + j))
                     (seq 0 (pairCount r)))
      with ([markerName]
              ++ map (fun j => freshName uid markerName (snd (w, k) + j))
                     (seq 0 (pairCount r))).
    change ((earlier, (a, b)) :: pairsOfGroup (earlier ++ [b; a]) r)
      with ([(earlier, (a, b))] ++ pairsOfGroup (earlier ++ [b; a]) r).
    change (b :: a :: removalOrder r) with ([b; a] ++ removalOrder r).
    apply (@ended_then w0 _ _ _ _ _ _ _ _ _ _ _ _ E1).
    intros st2 R2.
    assert (K2 : snd st2 = k) by (destruct R2 as (_ & _ & _ & _ & K & _);
                                   cbn [snd] in K; lia).
    assert (S2 : sameRoots (fst st2)
                   (AssignFragmentMarkers.removeAll (earlier ++ [b; a]) w0))
      by (destruct R2 as (_ & _ & _ & _ & _ & S2); exact S2).
    pose proof (@convertChunks_later uid w0 markerName r (earlier ++ [b; a]) (S 0) st2
                  (Nat.lt_0_succ 0) S2) as E2.
    rewrite K2 in E2. exact E2.
Qed.

Lemma convertGroups_thrown (groups : list (string * list node)) (st : Writer * nat) :
  fold_left (fun o entry => andThen o (fun st' => convertGroup uid st' entry))
            groups (Thrown st) = Thrown st.
Proof. induction groups as [|g r IH]; cbn [fold_left andThen]; auto. Qed.

Lemma convertGroups_cons (g : string * list node) (groups : list (string * list node))
      (st : Writer * nat) :
  convertGroups uid (g :: groups) st
  = andThen (convertGroup uid st g) (convertGroups uid groups).
Proof.
  unfold convertGroups. cbn [fold_left andThen].
  destruct (convertGroup uid st g); cbn [andThen]; [reflexivity|].
  apply convertGroups_thrown.
Qed.

Lemma convertGroups_ended (groups : list (string * list node)) :
  forall (earlier : list node) (st : Writer * nat),
    sameRoots (fst st) (AssignFragmentMarkers.removeAll earlier w0) ->
    ended w0 earlier st (convertGroups uid groups st)
          (registeredNames uid groups (snd st)) (callsOf groups)
          (pairsOf earlier groups) (removedBy groups).
Proof.
  induction groups as [|[nm els] rest IH]; intros earlier st R.
  - now apply ended_nothing.
  - rewrite convertGroups_cons.
    cbn [registeredNames callsOf pairsOf removedBy flat_map snd].
    apply (@ended_then w0 _ _ _ _ _ _ _ _ _ _ _ _
             (@convertGroup_ended earlier st nm els R)).
    intros st2 R2.
    assert (K2 : snd st2 = snd st + (pairCount els - 1))
      by (destruct R2 as (_ & _ & _ & _ & K & _); exact K).
    assert (S2 : sameRoots (fst st2)
                   (AssignFragmentMarkers.removeAll (earlier ++ removalOrder els) w0))
      by (destruct R2 as (_ & _ & _ & _ & _ & S2); exact S2).
    rewrite <- K2. now apply IH.
Qed.
End PasteDecodeGroups.

(** ** Fresh names *)

Lemma string_length_append (a b : string) :
  String.length (a ++ b)%string = String.length a + String.length b.
Proof. induction a as [|c a IH]; simpl; auto. Qed.

(** Two suffixes of equal length of one string are the same. *)
Lemma string_suffix_unique (a b u v : string) :
  String.length u = String.length v -> (a ++ u)%string = (b ++ v)%string -> u = v.
Proof.
  revert b. induction a as [|c a IH]; intros [|d b] L E; simpl in E.
  - exact E.
  - subst u. simpl in L. rewrite string_length_append in L. lia.
  - subst v. simpl in L. rewrite string_length_append in L. lia.
  - inversion E. eauto.
Qed.

Lemma NoDup_map_on (A B : Type) (f : A -> B) (l : list A) :
  (forall x y, In x l -> In y l -> f x = f y -> x = y) ->
  NoDup l -> NoDup (map f l).
Proof.
  induction l as [|a l IH]; intros Inj N; simpl; [constructor|].
  inversion N; subst. constructor.
  - intros I. apply in_map_iff in I as (y & E & Hy).
    assert (y = a) by (apply Inj; simpl; auto). subst. contradiction.
  - apply IH; auto. intros x y Hx Hy. apply Inj; simpl; auto.
Qed.

Section FreshNames.
Variable uid : nat -> string.
Variables lo hi : nat.
Hypothesis uid_distinct :
  forall i j, lo <= i < hi -> lo <= j < hi -> uid i = uid j -> i = j.
Hypothesis uid_length :
  forall i j, lo <= i < hi -> lo <= j < hi ->
              String.length (uid i) = String.length (uid j).

Lemma freshName_index (a b : string) (i j : nat) :
  lo <= i < hi -> lo <= j < hi ->
  freshName uid a i = freshName uid b j -> i = j.
Proof.
  intros Hi Hj E. unfold freshName in E.
  apply string_suffix_unique in E.
  - inversion E. now apply uid_distinct.
  - simpl. f_equal. now apply uid_length.
Qed.

Lemma registeredNames_In (groups : list (string * list node)) :
  forall k x,
    In x (registeredNames uid groups k) ->
    In x (map fst groups)
    \/ exists nm j, k <= j < k + callsOf groups /\ x = freshName uid nm j.
Proof.
  induction groups as [|[nm els] rest IH]; intros k x I; [contradiction|].
  cbn [registeredNames callsOf map fst] in *.
  apply in_app_or in I as [I | I].
  - unfold groupNames in I. destruct (pairCount els) as [|others]; [contradiction|].
    destruct I as [<- | I]; [left; simpl; auto|].
    apply in_map_iff in I as (j & <- & Hj). apply in_seq in Hj.
    right. exists nm, (k + j). split; [simpl; lia | reflexivity].
  - destruct (IH _ _ I) as [K | (nm' & j & Hj & ->)].
    + left. simpl. auto.
    + right. exists nm', j. split; [lia | reflexivity].
Qed.

Lemma registeredNames_NoDup (groups : list (string * list node)) :
  forall k,
    lo <= k -> k + callsOf groups <= hi ->
    NoDup (map fst groups) ->
    (forall nm nm' j, In nm (map fst groups) -> lo <= j < hi ->
                      nm <> freshName uid nm' j) ->
    NoDup (registeredNames uid groups k).
Proof.
  induction groups as [|[nm els] rest IH]; intros k Hlo Hhi K F; [constructor|].
  cbn [registeredNames callsOf map fst] in *. inversion K; subst.
  assert (Frest : forall nm0 nm' j, In nm0 (map fst rest) -> lo <= j < hi ->
                                    nm0 <> freshName uid nm' j)
    by (intros; apply F; simpl; auto).
  apply NoDup_app.
  - unfold groupNames. destruct (pairCount els) as [|others] eqn:P; constructor.
    + intros I. apply in_map_iff in I as (j & E & Hj). apply in_seq in Hj.
      apply (F nm nm (k + j)); [simpl; auto | simpl in Hhi; lia | auto].
    + apply NoDup_map_on; [|apply seq_NoDup].
      intros i j Hi Hj E. apply in_seq in Hi, Hj.
      apply freshName_index in E; simpl in Hhi; lia.
  - apply IH; auto; lia.
  - intros x I1 I2.
    assert (X1 : x = nm \/ exists j, j < pairCount els - 1 /\ x = freshName uid nm (k + j)).
    { unfold groupNames in I1. destruct (pairCount els) as [|others]; [contradiction|].
      destruct I1 as [<- | I1]; auto.
      apply in_map_iff in I1 as (j & <- & Hj). apply in_seq in Hj.
      right. exists j. split; [lia | reflexivity]. }
    destruct (registeredNames_In _ _ _ I2) as [X2 | (nm2 & j2 & Hj2 & E2)];
      destruct X1 as [-> | (j1 & Hj1 & E1)].
    + contradiction.
    + subst x. apply (Frest _ nm (k + j1) X2); [lia | reflexivity].
    + apply (F nm nm2 j2); [simpl; auto | lia | exact E2].
    + rewrite E1 in E2. apply freshName_index in E2; lia.
Qed.
End FreshNames.

Lemma markersFakeElements_keys (replacedCells : list node) :
  NoDup (map fst (TableClipboardMarkers.markersFakeElements replacedCells)).
Proof.
  unfold TableClipboardMarkers.markersFakeElements.
  generalize (flat_map items replacedCells) as l.
  assert (H : forall l acc,
             NoDup (map fst acc) ->
             NoDup (map fst (fold_left TableClipboardMarkers.collectFakeElement l acc))).
  { induction l as [|x r IH]; intros acc N; cbn [fold_left]; auto.
    apply IH. unfold TableClipboardMarkers.collectFakeElement.
    destruct (AssignFragmentMarkers.fakeMarkerName x); auto.
    now apply pushTo_keys. }
  intros l. apply H. constructor.
Qed.

Lemma fakeElementsInDocument_sound (elements : list node) (w : Writer) :
  fakeElementsInDocument elements w = true ->
  NoDup (map nodeId elements)
  /\ (forall x, In x elements ->
                In (nodeId x) (idsIn (documentRoot w))
                /\ ~ In (nodeId x) (idsIn (fragmentRoot w))
                /\ forall y, In y (itemsIn (documentRoot w)) ->
                             nodeId y = nodeId x -> childrenOf y = [])
  /\ Forall (fun y => 1 <= offsetSize y) (itemsIn (documentRoot w)).
Proof.
  unfold fakeElementsInDocument. rewrite !andb_true_iff. intros [[D A] T].
  split; [now apply distinctb_sound|]. split.
  - intros x Ix. rewrite forallb_forall in A. specialize (A x Ix).
    rewrite !andb_true_iff in A. destruct A as [[Id Nf] Lf]. split; [|split].
    + apply existsb_exists in Id as (i & Ii & E). apply Nat.eqb_eq in E. now rewrite E.
    + intros I. apply negb_true_iff in Nf.
      assert (E : existsb (Nat.eqb (nodeId x)) (idsIn (fragmentRoot w)) = true).
      { apply existsb_exists. exists (nodeId x). split; [exact I | apply Nat.eqb_refl]. }
      congruence.
    + intros y Iy E. unfold isLeafAmong in Lf. rewrite forallb_forall in Lf.
      specialize (Lf y Iy). rewrite E, Nat.eqb_refl in Lf. cbn [negb orb] in Lf.
      destruct (childrenOf y); [reflexivity | discriminate].
  - unfold noEmptyText in T. rewrite forallb_forall in T.
    apply Forall_forall. intros y Iy. apply Nat.leb_le. now apply T.
Qed.

(** The elements of a pair are not among those removed before it. *)
Lemma pairsOfGroup_apart :
  forall (elements earlier : list node),
    NoDup (map nodeId (earlier ++ elements)) ->
    Forall (fun pr =>
              incl (fst pr) (earlier ++ elements)
              /\ In (fst (snd pr)) elements /\ In (snd (snd pr)) elements
              /\ ~ In (nodeId (fst (snd pr))) (map nodeId (fst pr))
              /\ ~ In (nodeId (snd (snd pr))) (map nodeId (fst pr)))
           (pairsOfGroup earlier elements).
Proof.
  intros elements. induction elements as [|a|a b r IH] using list_pair_ind;
    intros earlier N; cbn [pairsOfGroup]; try constructor.
  - cbn [fst snd]. rewrite map_app in N.
    apply NoDup_app_parts in N as (_ & _ & Ap).
    split; [apply incl_appl, incl_refl|].
    split; [now left|]. split; [right; now left|].
    split; intros I; apply (Ap _ I); cbn [map In]; auto.
  - assert (N' : NoDup (map nodeId ((earlier ++ [b; a]) ++ r))).
    { apply (Permutation_NoDup (l := map nodeId (earlier ++ a :: b :: r))); [|exact N].
      apply Permutation_map. rewrite <- app_assoc. apply Permutation_app_head.
      cbn [app]. apply perm_swap. }
    specialize (IH _ N'). eapply Forall_impl; [|exact IH].
    intros pr (I1 & I2 & I3 & R). split; [|split; [|split]]; auto.
    + intros x Ix. apply I1 in Ix. rewrite <- app_assoc in Ix.
      apply in_app_or in Ix as [Ix | Ix]; apply in_or_app; [now left | right].
      cbn [app In] in *. tauto.
    + now do 2 right.
    + now do 2 right.
Qed.

Lemma pairsOf_apart (groups : list (string * list node)) :
  forall (earlier : list node),
    NoDup (map nodeId (earlier ++ flat_map snd groups)) ->
    Forall (fun pr =>
              incl (fst pr) (earlier ++ flat_map snd groups)
              /\ In (fst (snd pr)) (flat_map snd groups)
              /\ In (snd (snd pr)) (flat_map snd groups)
              /\ ~ In (nodeId (fst (snd pr))) (map nodeId (fst pr))
              /\ ~ In (nodeId (snd (snd pr))) (map nodeId (fst pr)))
           (pairsOf earlier groups).
Proof.
  induction groups as [|[nm els] rest IH]; intros earlier N; cbn [pairsOf]; [constructor|].
  cbn [flat_map snd] in *. apply Forall_app. split.
  - assert (N1 : NoDup (map nodeId (earlier ++ els))).
    { rewrite app_assoc, map_app in N. now apply NoDup_app_parts in N as (N1 & _). }
    eapply Forall_impl; [|exact (pairsOfGroup_apart els earlier N1)].
    intros pr (I1 & I2 & I3 & R). split; [|split; [|split]]; auto.
    + intros x Ix. apply I1 in Ix. rewrite app_assoc. apply in_or_app. now left.
    + apply in_or_app. now left.
    + apply in_or_app. now left.
  - assert (N2 : NoDup (map nodeId ((earlier ++ removalOrder els) ++ flat_map snd rest))).
    { apply (Permutation_NoDup (l := map nodeId (earlier ++ els ++ flat_map snd rest)));
        [|exact N].
      apply Permutation_map. rewrite <- app_assoc. apply Permutation_app_head.
      apply Permutation_app_tail. apply Permutation_sym, removalOrder_perm. }
    eapply Forall_impl; [|exact (IH _ N2)].
    intros pr (I1 & I2 & I3 & R). split; [|split; [|split]]; auto.
    + intros x Ix. apply I1 in Ix. rewrite <- app_assoc in Ix.
      apply in_app_or in Ix as [Ix | Ix]; apply in_or_app; [now left | right].
      apply in_app_or in Ix as [Ix | Ix]; apply in_or_app; [left | now right].
      now apply removalOrder_In.
    + apply in_or_app. now right.
    + apply in_or_app. now right.
Qed.

(** The range made over a pair of fake elements of the document starts
    just before the one and ends just before the other. *)
Lemma rangeOver_pair (w : Writer) (elements earlier : list node) (s e : node) :
  fakeElementsInDocument elements w = true ->
  incl earlier elements -> In s elements -> In e elements ->
  ~ In (nodeId s) (map nodeId earlier) -> ~ In (nodeId e) (map nodeId earlier) ->
  isRangeOver s e (AssignFragmentMarkers.removeAll earlier w)
              (rangeOver s e (AssignFragmentMarkers.removeAll earlier w)).
Proof.
  intros T Ie Is Ien Ns Ne.
  destruct (fakeElementsInDocument_sound _ _ T) as (_ & A & F).
  assert (Lf : forall x y, In x earlier -> In y (itemsIn (documentRoot w)) ->
                           nodeId y = nodeId x -> childrenOf y = []).
  { intros x y Ix. apply (A x). now apply Ie. }
  destruct (A s Is) as (Ids & Nfs & _). destruct (A e Ien) as (Ide & Nfe & _).
  destruct (@removeAll_keeps earlier w (nodeId s) Lf F Ids Nfs Ns) as (K1 & K2 & K3).
  destruct (@removeAll_keeps earlier w (nodeId e) Lf F Ide Nfe Ne) as (K4 & K5 & _).
  split; cbn [rangeOver rstart rend]; now apply createPositionBefore_nodeAfter.
Qed.

Lemma Forall2_with_right (A B : Type) (P P' : A -> B -> Prop) (Q : B -> Prop)
      (l : list A) (r : list B) :
  (forall a b, P a b -> Q b -> P' a b) ->
  Forall2 P l r -> Forall Q r -> Forall2 P' l r.
Proof.
  intros H F. induction F as [|a b l r Hab F IH]; intros G; constructor;
    inversion G; subst; auto.
Qed.

(** C10: decoding after a paste into a table takes the fake elements of
    one marker name two by two, in the order in which they were found in
    the replaced cells.  The first pair of a name is registered under the
    name itself and every further pair under the name with its part after
    the last ':' replaced by a newly generated uid; a fake element left
    over at the end of an odd group registers nothing.  Every marker is
    registered with the range of its pair: from just before the first
    element to just before the second, in the tree as it is when the
    pair is reached, the elements of the pairs before it removed.  When
    the uids handed out are distinct, of one length, and no marker name
    in the cells already ends with one of them, no two registered
    markers share a name; and none of the fake elements, paired or not,
    stays in the tree.  The model has no marker yet of any of the names
    to register (the writer throws on a name that is taken); the fake
    elements are different nodes of the document, without children; the
    [data-name] attributes are plain names. *)
Theorem C10_duplicated_sentinels_are_paired_and_renamed
        (uid : nat -> string) (replacedCells : list node) (w : Writer) (calls : nat) :
  let groups := TableClipboardMarkers.markersFakeElements replacedCells in
  let hi := calls + callsOf groups in
  (forall i j, calls <= i < hi -> calls <= j < hi -> uid i = uid j -> i = j) ->
  (forall i j, calls <= i < hi -> calls <= j < hi ->
               String.length (uid i) = String.length (uid j)) ->
  (forall nm nm' j, In nm (map fst groups) -> calls <= j < hi ->
                    nm <> freshName uid nm' j) ->
  distinctIds w ->
  namesArePlain (flat_map items replacedCells) = true ->
  (forall nm, In nm (registeredNames uid groups calls) -> hasMarker nm w = false) ->
  fakeElementsInDocument (flat_map snd groups) w = true ->
  exists w',
    TableClipboardMarkers._convertElementsToMarkers uid replacedCells w calls
    = TableClipboardMarkers.Returned (w', hi)
    /\ map name (markersSince w w') = registeredNames uid groups calls
    /\ NoDup (map name (markersSince w w'))
    /\ Forall2 (fun m pr =>
                  isRangeOver (fst (snd pr)) (snd (snd pr))
                              (AssignFragmentMarkers.removeAll (fst pr) w)
                              (markerRange m))
               (markersSince w w') (pairsOf [] groups)
    /\ forall x, In x (flat_map snd groups) -> gone x w'.
Proof.
  intros groups hi U L F D _ H T.
  assert (Nn : NoDup (registeredNames uid groups calls)).
  { apply (@registeredNames_NoDup uid calls hi U L); auto.
    apply markersFakeElements_keys. }
  pose proof (@convertGroups_ended uid w groups [] (w, calls) (sameRoots_refl w)) as E.
  unfold TableClipboardMarkers._convertElementsToMarkers. fold groups.
  destruct (TableClipboardMarkers.convertGroups uid groups (w, calls))
    as [[w' k'] | st']; cbn [ended] in E.
  - destruct E as (added & M & N & F2 & K & R). cbn [fst snd app] in *.
    exists w'. subst k'. split; [reflexivity|].
    rewrite (@markersSince_app _ _ _ M), N.
    split; [reflexivity|]. split; [exact Nn|]. split.
    + destruct (fakeElementsInDocument_sound _ _ T) as (Ne & _).
      refine (@Forall2_with_right _ _ _ _ _ _ _ _ F2 (pairsOf_apart groups [] Ne)).
      intros m [earlier [s e]] E (I1 & I2 & I3 & N1 & N2). cbn [fst snd app] in *.
      rewrite E. now apply (@rangeOver_pair w (flat_map snd groups)).
    + intros x Ix. apply (sameRoots_gone R). apply removeAll_gone; [exact D|].
      unfold removedBy. apply in_flat_map in Ix as (g & Ig & Ix).
      apply in_flat_map. exists g. split; [exact Ig | now apply removalOrder_In].
  - exfalso. apply E. split; [exact Nn | exact H].
Qed.

Example tiled_decode :
  match TableClipboardMarkers._convertElementsToMarkers sampleUid tiledCells tiledWriter 0
  with
  | TableClipboardMarkers.Returned (w', calls) =>
      calls = 1
      /\ map name (modelMarkers w')
         = ["comment:thread1"; "comment:e0"; "comment:thread9"]
      /\ fakeMarkersIn (documentRoot w') = []
  | TableClipboardMarkers.Thrown _ => False
  end.
Proof. vm_compute. repeat split. Qed.

Lemma tiledWriter_ids : distinctIds tiledWriter.
Proof. split; vm_compute; repeat constructor; simpl; intuition discriminate. Qed.

Lemma tiled_names_fresh (nm nm' : string) (j : nat) :
  In nm (map fst (TableClipboardMarkers.markersFakeElements tiledCells)) ->
  0 <= j < 0 + callsOf (TableClipboardMarkers.markersFakeElements tiledCells) ->
  nm <> freshName sampleUid nm' j.
Proof.
  intros I Hj. assert (j = 0) by (vm_compute in Hj; lia). subst j.
  unfold freshName. intros E.
  destruct I as [<- | [<- | []]].
  - apply (@string_suffix_unique "comment:thre" _ "ad1" ":e0" eq_refl) in E.
    discriminate.
  - apply (@string_suffix_unique "comment:thre" _ "ad9" ":e0" eq_refl) in E.
    discriminate.
Qed.

Lemma C10_tiled_cells_witness :
  exists w',
    TableClipboardMarkers._convertElementsToMarkers sampleUid tiledCells tiledWriter 0
    = TableClipboardMarkers.Returned (w', 1)
    /\ map name (markersSince tiledWriter w')
       = ["comment:thread1"; "comment:e0"; "comment:thread9"]
    /\ NoDup (map name (markersSince tiledWriter w'))
    /\ Forall2 (fun m pr =>
                  isRangeOver (fst (snd pr)) (snd (snd pr))
                              (AssignFragmentMarkers.removeAll (fst pr) tiledWriter)
                              (markerRange m))
               (markersSince tiledWriter w')
               (pairsOf [] (TableClipboardMarkers.markersFakeElements tiledCells))
    /\ forall x,
         In x (flat_map snd (TableClipboardMarkers.markersFakeElements tiledCells)) ->
         gone x w'.
Proof.
  apply (@C10_duplicated_sentinels_are_paired_and_renamed
           sampleUid tiledCells tiledWriter 0).
  - intros i j Hi Hj _. vm_compute in Hi, Hj. lia.
  - intros i j Hi Hj. vm_compute in Hi, Hj.
    replace i with 0 by lia. replace j with 0 by lia. reflexivity.
  - exact tiled_names_fresh.
  - exact tiledWriter_ids.
  - reflexivity.
  - intros nm _. reflexivity.
  - reflexivity.
Defined.

(** ** Pasting: clones and the slot walk *)








Section SlotWalk.
Variable pastedMap : list (list (option node)).
Variable dims : Dimensions.
Variable selection : Rect.


End SlotWalk.

(** ** The walker on a grid without spans *)

Lemma recordSpans_plain (x : node) (r c : nat) (m : Spanned) :
  colspanOf x = 1 -> rowspanOf x = 1 -> recordSpans x r c m = m.
Proof.
  intros Hc Hr. unfold recordSpans. rewrite Hc, Hr. simpl.
  now rewrite !Nat.eqb_refl.
Qed.

Section PlainWalk.
Variables fr lr fc lc : nat.
Let o := mkOptions fr (Some lr) fc (Some lc) true.

Lemma walkRow_plain (rowElement : node) (r : nat) (cells : list node) :
  forall c idx next fuel,
    Forall (fun x => colspanOf x = 1 /\ rowspanOf x = 1) cells ->
    List.length cells < fuel ->
    lc < c + List.length cells ->
    exists slots,
      walkRow fuel o rowElement r cells c idx next [] = (slots, [])
      /\ map coordsOf slots
         = if r <? fr then []
           else map (pair r) (seq (Nat.max c fc) (lc + 1 - Nat.max c fc)).
Proof.
  induction cells as [|x cells IH]; intros c idx next fuel F Hf Hl;
    (destruct fuel as [|fuel]; [simpl in Hf; lia|]); cbn [walkRow];
    unfold o at 1; cbn [endColumn overEnd].
  - simpl in Hl.
    destruct (Nat.ltb_spec lc c) as [_|?]; [|lia].
    exists []. split; [reflexivity|].
    replace (lc + 1 - Nat.max c fc) with 0 by lia.
    destruct (r <? fr); auto.
  - inversion F as [|? ? [Hc Hr] F']; subst.
    destruct (Nat.ltb_spec lc c) as [G|L].
    + exists []. split; [reflexivity|].
      replace (lc + 1 - Nat.max c fc) with 0 by lia.
      destruct (r <? fr); auto.
    + cbn [spannedAt]. rewrite (recordSpans_plain x r c [] Hc Hr), Hc.
      cbn [Nat.eqb].
      simpl in Hf, Hl.
      destruct (IH (S c) (S idx) (Some (c + 1)) fuel F') as (rest & E1 & E2); try lia.
      rewrite E1. eexists. split; [reflexivity|].
      rewrite map_app, E2.
      unfold shouldSkipSlot, o. cbn [startRow startColumn endColumn overEnd].
      destruct (Nat.ltb_spec r fr) as [Rl|Rg]; cbn [orb]; [reflexivity|].
      destruct (Nat.ltb_spec c fc) as [Cl|Cg]; cbn [orb].
      * cbn [map app]. now replace (Nat.max (S c) fc) with (Nat.max c fc) by lia.
      * destruct (Nat.ltb_spec lc c) as [?|_]; [lia|]. cbn [map app coordsOf row column].
        replace (Nat.max c fc) with c by lia.
        replace (Nat.max (S c) fc) with (S c) by lia.
        replace (lc + 1 - c) with (S (lc + 1 - S c)) by lia.
        reflexivity.
Qed.

Lemma rowFuel_plain (cells : list node) :
  Forall (fun x => colspanOf x = 1 /\ rowspanOf x = 1) cells ->
  rowFuel cells [] = List.length cells + 1.
Proof.
  unfold rowFuel. induction 1 as [|x cells [Hc _] _ IH]; simpl in *; [reflexivity|].
  rewrite Hc. lia.
Qed.

Lemma walkRows_plain (ncols : nat) (rows : list node) :
  forall r0,
    lc < ncols ->
    Forall (fun r => isElementNamed "tableRow" r = true
                     /\ List.length (childrenOf r) = ncols
                     /\ Forall (fun x => colspanOf x = 1 /\ rowspanOf x = 1)
                               (childrenOf r)) rows ->
    lr < r0 + List.length rows ->
    map coordsOf (walkRows o rows r0 [])
    = list_prod (seq (Nat.max r0 fr) (lr + 1 - Nat.max r0 fr)) (seq fc (lc + 1 - fc)).
Proof.
  induction rows as [|rowElement rows IH]; intros r0 Hn F Hl; cbn [walkRows].
  - simpl in Hl. replace (lr + 1 - Nat.max r0 fr) with 0 by lia. reflexivity.
  - inversion F as [|? ? (Hrow & Hlen & Hcells) F']; subst.
    unfold o at 1. cbn [endRow overEnd].
    destruct (Nat.ltb_spec lr r0) as [G|L].
    + replace (lr + 1 - Nat.max r0 fr) with 0 by lia. reflexivity.
    + rewrite Hrow.
      destruct (@walkRow_plain rowElement r0 (childrenOf rowElement) 0 0 None
                  (rowFuel (childrenOf rowElement) []) Hcells) as (slots & E1 & E2).
      * rewrite (rowFuel_plain Hcells). lia.
      * lia.
      * rewrite E1.
        rewrite map_app, E2. simpl in Hl. rewrite (IH (S r0)); auto; [|lia].
        replace (Nat.max 0 fc) with fc by lia.
        destruct (Nat.ltb_spec r0 fr) as [Rl|Rg].
        -- now replace (Nat.max (S r0) fr) with (Nat.max r0 fr) by lia.
        -- replace (Nat.max r0 fr) with r0 by lia.
           replace (Nat.max (S r0) fr) with (S r0) by lia.
           replace (lr + 1 - r0) with (S (lr + 1 - S r0)) by lia.
           reflexivity.
Qed.
End PlainWalk.

(** On a grid without spans, the walk over a rectangle in
    [includeAllSlots] mode visits the slots of the rectangle, row by row. *)
Lemma selectedTableMap_plain (table : node) (nrows ncols : nat) (selection : Rect) :
  plainGrid table nrows ncols ->
  lastRow selection < nrows -> lastColumn selection < ncols ->
  firstRow selection <= lastRow selection ->
  firstColumn selection <= lastColumn selection ->
  map coordsOf (selectedTableMap table selection) = slotsOfRect selection.
Proof.
  intros [Hn F] Hr Hc Lr Lc. unfold selectedTableMap, TableWalker, slotsOfRect.
  rewrite (@walkRows_plain (firstRow selection) (lastRow selection)
             (firstColumn selection) (lastColumn selection)
             ncols (childrenOf table) 0); auto; [|lia].
  replace (Nat.max 0 (firstRow selection)) with (firstRow selection) by lia.
  replace (lastRow selection + 1 - firstRow selection)
    with (lastRow selection - firstRow selection + 1) by lia.
  replace (lastColumn selection + 1 - firstColumn selection)
    with (lastColumn selection - firstColumn selection + 1) by lia.
  reflexivity.
Qed.


Lemma slotsOfRect_bounds (selection : Rect) (r c : nat) :
  firstRow selection <= lastRow selection ->
  firstColumn selection <= lastColumn selection ->
  In (r, c) (slotsOfRect selection) ->
  r <= lastRow selection /\ c <= lastColumn selection.
Proof.
  intros Lr Lc I. unfold slotsOfRect in I.
  apply in_prod_iff in I as [I1 I2]. apply in_seq in I1, I2. lia.
Qed.




(** ** The handler of [insertContent] *)

Section HandlerFacts.
Context `{TableStructure Writer node}.
Variable uid : nat -> string.
Variable pastedColumns : node -> nat.
Variable pastedRows : node -> nat.
Variable cropTableToDimensions : node -> nat * nat * nat * nat -> Writer -> node * Writer.
Variable removeEmptyRowsColumns : node -> node.
Variable findAncestorTable : node -> Writer -> node.


(** With cells selected and a table as the content, the handler takes
    the insertion over. *)
Lemma _onInsertContent_takes_over
      (evtStopped : bool) (c : content) (model : Model) (pastedTable x : node)
      (cells : list node) (w : Writer) (calls : nat) :
  getTableIfOnlyTableInContent c model = Some pastedTable ->
  stopped (_onInsertContent uid pastedColumns pastedRows cropTableToDimensions
                            removeEmptyRowsColumns findAncestorTable
                            evtStopped c TheDocumentSelection model (x :: cells) w calls)
  = true.
Proof.
  intros E. unfold _onInsertContent. rewrite E.
  destruct (_replaceSelectedCells _ _ _ _ _ _ _) as [replaced w2].
  destruct (isDocumentFragment c && _); [|reflexivity].
  destruct (TableClipboardMarkers._convertElementsToMarkers _ _ _ _) as [[w3 k] | [w3 k]];
    reflexivity.
Qed.
End HandlerFacts.

(** ** Splitting the cells around a rectangle *)

Module LayoutFacts.
Import Layout Splits.

Lemma cell_eqb_eq (a b : GridCell) : cell_eqb a b = true <-> a = b.
Proof.
  unfold cell_eqb. rewrite !andb_true_iff, !Nat.eqb_eq.
  destruct a, b; simpl. split.
  - intros [[[-> ->] ->] ->]. reflexivity.
  - intros E. inversion E. auto.
Qed.

Lemma cell_eqb_refl (a : GridCell) : cell_eqb a a = true.
Proof. now apply cell_eqb_eq. Qed.

Lemma flat_map_flat_map (A B D : Type) (f : A -> list B) (h : B -> list D) (l : list A) :
  flat_map h (flat_map f l) = flat_map (fun x => flat_map h (f x)) l.
Proof.
  induction l as [|x l IH]; simpl; [reflexivity|].
  now rewrite flat_map_app, IH.
Qed.

Lemma flat_map_single (A : Type) (l : list A) : flat_map (fun x => [x]) l = l.
Proof. induction l as [|x l IH]; simpl; congruence. Qed.

Section Pass.
(** A pass splits the cells of [targets], each into [pieces]; no piece is
    a target itself. *)
Variable pieces : GridCell -> list GridCell.
Variable isTarget : GridCell -> bool.
Hypothesis pieces_done : forall k x, isTarget k = true -> In x (pieces k) -> isTarget x = false.

Lemma splitIn_piece (targets : list GridCell) (t x : GridCell) :
  isTarget t = true -> Forall (fun u => isTarget u = true) targets ->
  In x (pieces t) -> splitIn pieces targets x = [x].
Proof.
  intros Ht F Hx. unfold splitIn.
  destruct (existsb (cell_eqb x) targets) eqn:E; [|reflexivity].
  apply existsb_exists in E as (u & Hu & Eu). apply cell_eqb_eq in Eu. subst u.
  rewrite Forall_forall in F. specialize (F _ Hu).
  rewrite (@pieces_done t x Ht Hx) in F. discriminate.
Qed.

Lemma splitAll_cells (targets : list GridCell) :
  forall g, Forall (fun u => isTarget u = true) targets ->
            splitAll pieces targets g = flat_map (splitIn pieces targets) g.
Proof.
  induction targets as [|t T IH]; intros g F; cbn [splitAll fold_left].
  - unfold splitIn. simpl. now rewrite flat_map_single.
  - inversion F; subst. fold (splitAll pieces T (splitOne pieces t g)).
    rewrite IH by assumption. unfold splitOne. rewrite flat_map_flat_map.
    apply flat_map_ext. intros k. unfold splitIn at 2. cbn [existsb].
    destruct (cell_eqb k t) eqn:E.
    + apply cell_eqb_eq in E. subst k. cbn [orb].
      assert (P : forall l, (forall x, In x l -> In x (pieces t)) ->
                            flat_map (splitIn pieces T) l = l).
      { induction l as [|x l IHl]; intros Hl; [reflexivity|]. simpl.
        rewrite (@splitIn_piece T t x); auto; [|apply Hl; simpl; auto].
        simpl. rewrite IHl; auto. intros y Hy. apply Hl. simpl. auto. }
      apply P. auto.
    + cbn [orb flat_map]. now rewrite app_nil_r.
Qed.
End Pass.
End LayoutFacts.

Ltac boolp :=
  repeat match goal with
  | H : _ && _ = true |- _ => apply andb_true_iff in H; destruct H
  | H : _ || _ = true |- _ => apply orb_true_iff in H; destruct H
  | H : _ && _ = false |- _ => apply andb_false_iff in H; destruct H
  | H : _ || _ = false |- _ => apply orb_false_iff in H; destruct H
  | H : (_ <=? _) = true |- _ => apply Nat.leb_le in H
  | H : (_ <=? _) = false |- _ => apply Nat.leb_gt in H
  | H : (_ <? _) = true |- _ => apply Nat.ltb_lt in H
  | H : (_ <? _) = false |- _ => apply Nat.ltb_ge in H
  | H : (_ =? _) = true |- _ => apply Nat.eqb_eq in H
  | H : (_ =? _) = false |- _ => apply Nat.eqb_neq in H
  end.

Module SplitFacts.
Import Layout Splits LayoutFacts.

Lemma mapWith_snd (S A B : Type) (f : A -> S -> B * S) (l : list A) :
  forall s, snd (mapWith f l s) = fold_left (fun s' x => snd (f x s')) l s.
Proof.
  induction l as [|x l IH]; intros s; cbn [mapWith fold_left]; [reflexivity|].
  destruct (f x s) as [y s1] eqn:E. specialize (IH s1).
  destruct (mapWith f l s1) as [ys s2]. cbn [snd] in *. now rewrite IH.
Qed.

Lemma fold_left_map (S A B : Type) (f : S -> B -> S) (h : A -> B) (l : list A) :
  forall s, fold_left f (map h l) s = fold_left (fun s' x => f s' (h x)) l s.
Proof. induction l as [|x l IH]; intros s; simpl; auto. Qed.

Lemma filter_map_comm (A B : Type) (f : A -> B) (p : B -> bool) (l : list A) :
  filter p (map f l) = map f (filter (fun x => p (f x)) l).
Proof.
  induction l as [|x l IH]; simpl; [reflexivity|].
  destruct (p (f x)); simpl; now rewrite IH.
Qed.

Lemma filter_filter (A : Type) (p q : A -> bool) (l : list A) :
  filter q (filter p l) = filter (fun x => p x && q x) l.
Proof.
  induction l as [|x l IH]; simpl; [reflexivity|].
  destruct (p x); simpl; [destruct (q x); simpl|]; now rewrite IH.
Qed.

Lemma flat_map_ext_In (A B : Type) (f h : A -> list B) (l : list A) :
  (forall x, In x l -> f x = h x) -> flat_map f l = flat_map h l.
Proof.
  induction l as [|x l IH]; intros E; simpl; [reflexivity|].
  rewrite E, IH; auto; simpl; auto. intros y Hy. apply E. simpl. auto.
Qed.

Lemma existsb_filter_In (p : GridCell -> bool) (g : Grid) (k : GridCell) :
  In k g -> existsb (cell_eqb k) (filter p g) = p k.
Proof.
  intros I. destruct (p k) eqn:E.
  - apply existsb_exists. exists k. split; [apply filter_In; auto | apply cell_eqb_refl].
  - destruct (existsb (cell_eqb k) (filter p g)) eqn:X; [|reflexivity].
    apply existsb_exists in X as (u & Hu & Eu). apply cell_eqb_eq in Eu. subst u.
    apply filter_In in Hu as [_ Hu]. congruence.
Qed.

Lemma vPieces_done (sc : nat) (limit : Limit) (k x : GridCell) :
  vTarget sc limit k = true -> In x (vPieces sc k) -> vTarget sc limit x = false.
Proof.
  unfold vTarget, vPieces, lastColumnOf. intros T [<- | [<- | []]]; cbn [gc_row gc_column gc_rowspan gc_colspan];
    boolp; apply andb_false_iff; left; apply andb_false_iff.
  - right. apply Nat.leb_gt. lia.
  - left. apply Nat.ltb_ge. lia.
Qed.

Lemma hPieces_done (sr startRow : nat) (limit : Limit) (k x : GridCell) :
  hTarget sr startRow limit k = true -> In x (hPieces sr k) ->
  hTarget sr startRow limit x = false.
Proof.
  unfold hTarget, hPieces, lastRowOf. intros T [<- | [<- | []]]; cbn [gc_row gc_column gc_rowspan gc_colspan];
    boolp; apply andb_false_iff; left; apply andb_false_iff.
  - right. apply Nat.leb_gt. lia.
  - left. apply andb_false_iff. right. apply Nat.ltb_ge. lia.
Qed.
End SplitFacts.

Module PassFacts.
Import Layout Splits LayoutFacts SplitFacts.

Lemma doVerticalSplit_cells (sc : nat) (limit : Limit) (g : Grid) :
  snd (doVerticalSplit sc limit g) = flat_map (vPass sc limit) g.
Proof.
  unfold doVerticalSplit.
  destruct (Nat.ltb_spec sc 1) as [L | G].
  - cbn [snd]. rewrite <- (flat_map_single g) at 1.
    apply flat_map_ext. intros k. unfold vPass, vTarget.
    destruct (Nat.ltb_spec (gc_column k) sc); [lia | reflexivity].
  - cbn [getHorizontallyOverlappingCells splitVertically structure].
    unfold horizontallyOverlapping. rewrite filter_map_comm, filter_filter.
    match goal with
    | |- snd (let (_, _) := mapWith ?f ?l ?s in _) = _ =>
        pose proof (mapWith_snd f l s) as M; destruct (mapWith f l s) as [cells g']
    end.
    cbn [snd] in *. subst g'. rewrite fold_left_map.
    change (fold_left _ ?T g) with (splitAll (vPieces sc) T g).
    rewrite (@splitAll_cells (vPieces sc) (vTarget sc limit) (@vPieces_done sc limit)).
    + apply flat_map_ext_In. intros k Hk. unfold splitIn, vPass.
      rewrite (existsb_filter_In _ g k Hk). reflexivity.
    + apply Forall_forall. intros u Hu. apply filter_In in Hu as [_ Hu]. exact Hu.
Qed.

Lemma doHorizontalSplit_cells (sr startRow : nat) (limit : Limit) (g : Grid) :
  snd (doHorizontalSplit sr limit g startRow) = flat_map (hPass sr startRow limit) g.
Proof.
  unfold doHorizontalSplit.
  destruct (Nat.ltb_spec sr 1) as [L | G].
  - cbn [snd]. rewrite <- (flat_map_single g) at 1.
    apply flat_map_ext. intros k. unfold hPass, hTarget.
    destruct (Nat.ltb_spec (gc_row k) sr); [lia|].
    now rewrite andb_false_r.
  - cbn [getVerticallyOverlappingCells splitHorizontally structure].
    unfold verticallyOverlapping. rewrite filter_map_comm, filter_filter.
    match goal with
    | |- snd (let (_, _) := mapWith ?f ?l ?s in _) = _ =>
        pose proof (mapWith_snd f l s) as M; destruct (mapWith f l s) as [cells g']
    end.
    cbn [snd] in *. subst g'. rewrite fold_left_map.
    change (fold_left _ ?T g) with (splitAll (hPieces sr) T g).
    rewrite (@splitAll_cells (hPieces sr) (hTarget sr startRow limit)
               (@hPieces_done sr startRow limit)).
    + apply flat_map_ext_In. intros k Hk. unfold splitIn, hPass.
      rewrite (existsb_filter_In _ g k Hk). reflexivity.
    + apply Forall_forall. intros u Hu. apply filter_In in Hu as [_ Hu]. exact Hu.
Qed.
End PassFacts.

Module RectangleFacts.
Import Layout Splits LayoutFacts SplitFacts PassFacts.

Section Stages.
Variable rect : Rect.
Let fr := firstRow rect.
Let lr := lastRow rect.
Let fc := firstColumn rect.
Let lc := lastColumn rect.
Let rowsLimit := mkLimit fr lr.
Let columnsLimit := mkLimit fc lc.

Ltac stage :=
  unfold stage4, stage3, stage2, stage1, spansOk, rowsMeet, colsMeet,
         lastRowOf, lastColumnOf, fr, lr, fc, lc in *;
  cbn [gc_row gc_column gc_rowspan gc_colspan first last] in *.

Ltac pass_cases T :=
  match goal with
  | H : In _ (if ?b then _ else _) |- _ =>
      destruct b eqn:T;
      [ destruct H as [<- | [<- | []]] | destruct H as [<- | []] ]
  end.

Lemma pass1 (k x : GridCell) :
  spansOk k -> In x (vPass fc rowsLimit k) -> stage1 rect x.
Proof.
  unfold vPass, vPieces, vTarget, isAffectedBySelection. intros S I.
  pass_cases T; stage; subst rowsLimit; cbn [first last] in *; boolp; lia.
Qed.

Lemma pass2 (k x : GridCell) :
  stage1 rect k -> In x (vPass (lc + 1) rowsLimit k) -> stage2 rect x.
Proof.
  unfold vPass, vPieces, vTarget, isAffectedBySelection. intros S I.
  pass_cases T; stage; subst rowsLimit; cbn [first last] in *; boolp; lia.
Qed.

Lemma pass3 (k x : GridCell) :
  stage2 rect k -> In x (hPass fr 0 columnsLimit k) -> stage3 rect x.
Proof.
  unfold hPass, hPieces, hTarget, isAffectedBySelection. intros S I.
  pass_cases T; stage; subst columnsLimit; cbn [first last] in *; boolp; lia.
Qed.

Lemma pass4 (k x : GridCell) :
  stage3 rect k -> In x (hPass (lr + 1) fr columnsLimit k) -> stage4 rect x.
Proof.
  unfold hPass, hPieces, hTarget, isAffectedBySelection. intros S I.
  pass_cases T; stage; subst columnsLimit; cbn [first last] in *; boolp; lia.
Qed.

Lemma stage4_valid (k : GridCell) :
  stage4 rect k -> reaches rect k = true -> inside rect k = true.
Proof.
  unfold reaches, inside. fold fr lr fc lc. intros S R. boolp.
  stage. rewrite !andb_true_iff, !Nat.leb_le. lia.
Qed.
End Stages.
End RectangleFacts.

Module SplitBranch.
Import Layout Splits LayoutFacts SplitFacts PassFacts RectangleFacts.

Lemma Forall_flat_map_pass (P Q : GridCell -> Prop) (f : GridCell -> list GridCell)
      (g : Grid) :
  (forall k x, P k -> In x (f k) -> Q x) -> Forall P g -> Forall Q (flat_map f g).
Proof.
  intros H F. apply Forall_forall. intros x Hx.
  apply in_flat_map in Hx as (k & Hk & Hx).
  rewrite Forall_forall in F. eauto.
Qed.

(** After the four passes, every cell that has a slot in the rectangle
    lies inside it. *)
Lemma splitCellsToRectangularSelection_valid (rect : Rect) (g : Grid) :
  Forall spansOk g ->
  Forall (fun k => spansOk k /\ (reaches rect k = true -> inside rect k = true))
         (splitCellsToRectangularSelection rect g).
Proof.
  intros F. unfold splitCellsToRectangularSelection.
  rewrite !doHorizontalSplit_cells, !doVerticalSplit_cells.
  apply Forall_impl with (P := stage4 rect).
  - intros k S. split; [apply S | now apply stage4_valid].
  - eapply Forall_flat_map_pass; [apply pass4|].
    eapply Forall_flat_map_pass; [apply pass3|].
    eapply Forall_flat_map_pass; [apply pass2|].
    eapply Forall_flat_map_pass; [apply pass1|]. exact F.
Qed.

Lemma appendColumns_spans (at_ n : nat) (g : Grid) :
  Forall spansOk g -> Forall spansOk (appendColumns at_ n g).
Proof.
  intros F. unfold appendColumns. apply Forall_app. split; [exact F|].
  apply Forall_forall. intros x Hx. apply in_map_iff in Hx as (rc & <- & _).
  unfold spansOk. simpl. lia.
Qed.

Lemma appendRows_spans (at_ n : nat) (g : Grid) :
  Forall spansOk g -> Forall spansOk (appendRows at_ n g).
Proof.
  intros F. unfold appendRows. apply Forall_app. split; [exact F|].
  apply Forall_forall. intros x Hx. apply in_map_iff in Hx as (rc & <- & _).
  unfold spansOk. simpl. lia.
Qed.

Lemma expandTableSize_spans (h w : nat) (g : Grid) :
  Forall spansOk g -> Forall spansOk (expandTableSize h w g).
Proof.
  intros F. unfold expandTableSize.
  cbn [getColumns getRows insertColumns insertRows structure].
  destruct (columns g <? w), (rows g <? h);
    auto using appendColumns_spans, appendRows_spans.
Qed.
End SplitBranch.

(** ** A selection that is a rectangle already *)

Module BoxFacts.
Import Layout Splits LayoutFacts RectangleFacts.

Lemma maxOf_ge (f : GridCell -> nat) (l : list GridCell) (k : GridCell) :
  In k l -> f k <= maxOf f l.
Proof.
  induction l as [|x l IH]; intros I; [contradiction|].
  simpl. destruct I as [-> | I]; [lia | specialize (IH I); lia].
Qed.

Lemma maxOf_attained (f : GridCell -> nat) (l : list GridCell) :
  l <> [] -> exists k, In k l /\ f k = maxOf f l.
Proof.
  induction l as [|x l IH]; intros N; [congruence|].
  destruct l as [|y l'].
  - exists x. simpl. split; [auto | lia].
  - destruct IH as (k & Hk & Ek); [discriminate|].
    change (maxOf f (x :: y :: l')) with (Nat.max (f x) (maxOf f (y :: l'))).
    destruct (Nat.le_ge_cases (f x) (maxOf f (y :: l'))).
    + exists k. split; [right; exact Hk | lia].
    + exists x. split; [left; reflexivity | lia].
Qed.

Lemma minOf_le (f : GridCell -> nat) (l : list GridCell) (k : GridCell) :
  In k l -> minOf f l <= f k.
Proof.
  destruct l as [|x l]; intros I; [contradiction|]. simpl.
  assert (G : forall a, fold_right (fun k' acc => Nat.min (f k') acc) a l <= a
                        /\ forall y, In y l ->
                             fold_right (fun k' acc => Nat.min (f k') acc) a l <= f y).
  { clear I. intros a. induction l as [|z l IH]; simpl; [split; [lia | contradiction]|].
    destruct IH as [I1 I2].
    split; [lia|]. intros y [-> | Hy]; [lia | specialize (I2 y Hy); lia]. }
  destruct (G (f x)) as [G1 G2]. destruct I as [-> | I]; auto.
Qed.

Lemma minOf_attained (f : GridCell -> nat) (l : list GridCell) :
  l <> [] -> exists k, In k l /\ f k = minOf f l.
Proof.
  destruct l as [|x l]; intros N; [congruence|]. simpl.
  clear N. induction l as [|z l (k & Hk & Ek)]; simpl.
  - exists x. auto.
  - destruct (Nat.le_ge_cases (f z) (fold_right (fun k' acc => Nat.min (f k') acc) (f x) l)).
    + exists z. split; [auto | lia].
    + exists k. split; [|lia]. destruct Hk as [<- | Hk]; auto.
Qed.

Lemma covers_In (k : GridCell) (r c : nat) :
  covers k r c = true <-> In (r, c) (cellSlots k).
Proof.
  unfold covers, cellSlots. rewrite in_prod_iff, !in_seq.
  rewrite !andb_true_iff, !Nat.leb_le, !Nat.ltb_lt. tauto.
Qed.

Lemma cellSlots_NoDup (k : GridCell) : NoDup (cellSlots k).
Proof.
  unfold cellSlots.
  assert (H : forall (l : list nat) (l' : list nat),
             NoDup l -> NoDup l' -> NoDup (list_prod l l')).
  { induction l as [|x l IH]; intros l' N N'; simpl; [constructor|].
    inversion N; subst. apply NoDup_app.
    - apply NoDup_map_on; auto. intros a b _ _ E. now inversion E.
    - auto.
    - intros [a b] I1 I2. apply in_map_iff in I1 as (y & E & _). inversion E; subst.
      apply in_prod_iff in I2 as [I2 _]. contradiction. }
  apply H; apply seq_NoDup.
Qed.

Lemma cellSlots_length (k : GridCell) :
  List.length (cellSlots k) = gc_rowspan k * gc_colspan k.
Proof. unfold cellSlots. now rewrite length_prod, !length_seq. Qed.

Lemma slots_NoDup (l : list GridCell) :
  ForallOrdPairs disjoint l -> NoDup (flat_map cellSlots l).
Proof.
  induction 1 as [|k l Hk _ IH]; simpl; [constructor|].
  apply NoDup_app; auto using cellSlots_NoDup.
  intros [r c] I1 I2. apply in_flat_map in I2 as (k' & Hk' & I2).
  rewrite Forall_forall in Hk. apply (Hk k' Hk' r c); now apply covers_In.
Qed.

Lemma slots_length (l : list GridCell) :
  List.length (flat_map cellSlots l)
  = fold_right (fun k acc => gc_rowspan k * gc_colspan k + acc) 0 l.
Proof.
  induction l as [|k l IH]; simpl; [reflexivity|].
  now rewrite length_app, cellSlots_length, IH.
Qed.
End BoxFacts.

Module RectangularSelection.
Import Layout Splits LayoutFacts RectangleFacts BoxFacts.

Lemma disjoint_sym (a b : GridCell) : disjoint a b -> disjoint b a.
Proof. unfold disjoint. eauto. Qed.

(** Two cells of a well-formed grid that cover one slot are one cell. *)
Lemma same_cell (g : Grid) (a b : GridCell) (r c : nat) :
  wellFormed g -> In a g -> In b g ->
  covers a r c = true -> covers b r c = true -> a = b.
Proof.
  intros [_ P] Ia Ib Ca Cb.
  destruct (ForallOrdPairs_In P _ _ Ia Ib) as [E | [D | D]]; auto;
    exfalso; [apply (D r c) | apply (D r c)]; auto.
Qed.

Lemma pairs_disjoint (l : list GridCell) :
  NoDup l -> (forall a b, In a l -> In b l -> a <> b -> disjoint a b) ->
  ForallOrdPairs disjoint l.
Proof.
  induction 1 as [|k l Hk N IH]; intros D; constructor.
  - apply Forall_forall. intros x Hx. apply D; simpl; auto. intros ->. contradiction.
  - apply IH. intros a b Ia Ib. apply D; simpl; auto.
Qed.

Lemma leastBy_In (f : GridCell -> nat) (l : list GridCell) (k : GridCell) :
  leastBy f l = Some k -> In k l.
Proof.
  revert k. induction l as [|x l IH]; intros k; simpl; [discriminate|].
  destruct (leastBy f l) as [k'|].
  - destruct (f k' <? f x); intros E; inversion E; subst; auto.
  - intros E; inversion E; auto.
Qed.

Lemma leastBy_Some (f : GridCell -> nat) (l : list GridCell) :
  l <> [] -> exists k, leastBy f l = Some k.
Proof.
  destruct l as [|x l]; intros N; [congruence|]. simpl.
  destruct (leastBy f l) as [k'|]; [destruct (f k' <? f x)|]; eauto.
Qed.

Section Selection.
Variable g : Grid.
Variable sel : list GridCell.
Hypothesis Hwf : wellFormed g.
Hypothesis Hincl : incl sel g.
Hypothesis Hnodup : NoDup sel.
Hypothesis Hrect : selectionIsRectangular sel g = true.

Let R0 := minOf gc_row sel.
Let E := maxOf lastRowOf sel.
Let C0 := minOf gc_column sel.
Let F := maxOf lastColumnOf sel.
Let Rmax := maxOf gc_row sel.
Let Cmax := maxOf gc_column sel.

Lemma spans_of (k : GridCell) : In k g -> 1 <= gc_rowspan k /\ 1 <= gc_colspan k.
Proof. destruct Hwf as [S _]. rewrite Forall_forall in S. apply S. Qed.

Lemma sel_nonempty : sel <> [].
Proof.
  intros ->. unfold selectionIsRectangular in Hrect. simpl in Hrect. discriminate.
Qed.

Lemma sel_area :
  (E - R0 + 1) * (F - C0 + 1)
  = fold_right (fun k acc => gc_rowspan k * gc_colspan k + acc) 0 sel.
Proof.
  unfold selectionIsRectangular in Hrect.
  destruct (List.length sel <? 2); [discriminate|].
  now apply Nat.eqb_eq in Hrect.
Qed.

Lemma sel_in_box (k : GridCell) :
  In k sel ->
  R0 <= gc_row k /\ lastRowOf k <= E /\ C0 <= gc_column k /\ lastColumnOf k <= F.
Proof.
  intros I. repeat split.
  - apply (@minOf_le gc_row sel k I).
  - apply (@maxOf_ge lastRowOf sel k I).
  - apply (@minOf_le gc_column sel k I).
  - apply (@maxOf_ge lastColumnOf sel k I).
Qed.

Lemma sel_pairs : ForallOrdPairs disjoint sel.
Proof.
  apply pairs_disjoint; auto. intros a b Ia Ib N r c Ca Cb.
  apply N. apply (@same_cell g a b r c); auto.
Qed.

(** The selected cells cover every slot of the box around them. *)
Lemma tiling (r c : nat) :
  R0 <= r <= E -> C0 <= c <= F ->
  exists s, In s sel /\ covers s r c = true.
Proof.
  intros Hr Hc.
  assert (I : incl (slotsOfRect (mkRect C0 F R0 E)) (flat_map cellSlots sel)).
  { apply NoDup_length_incl.
    - apply slots_NoDup, sel_pairs.
    - unfold slotsOfRect. cbn [firstRow lastRow firstColumn lastColumn].
      rewrite length_prod, !length_seq, slots_length, sel_area. lia.
    - intros [r' c'] H. apply in_flat_map in H as (k & Hk & H).
      apply covers_In in H. unfold covers in H. boolp.
      destruct (sel_in_box k Hk) as (B1 & B2 & B3 & B4).
      unfold lastRowOf, lastColumnOf in *.
      unfold slotsOfRect. cbn [firstRow lastRow firstColumn lastColumn].
      apply in_prod_iff. rewrite !in_seq. lia. }
  assert (S : In (r, c) (flat_map cellSlots sel)).
  { apply I. unfold slotsOfRect. cbn [firstRow lastRow firstColumn lastColumn].
    apply in_prod_iff. rewrite !in_seq. lia. }
  apply in_flat_map in S as (s & Hs & S). exists s. split; auto. now apply covers_In.
Qed.

(** A cell of the grid with a slot in the box is one of the selected
    cells. *)
Lemma covering_is_selected (k : GridCell) (r c : nat) :
  In k g -> covers k r c = true -> R0 <= r <= E -> C0 <= c <= F -> In k sel.
Proof.
  intros Ik Ck Hr Hc. destruct (@tiling r c Hr Hc) as (s & Hs & Cs).
  rewrite (@same_cell g k s r c); auto.
Qed.
Lemma anchors_in_box :
  R0 <= Rmax <= E /\ C0 <= Cmax <= F.
Proof.
  destruct (maxOf_attained gc_row sel_nonempty) as (s & Hs & Es).
  destruct (maxOf_attained gc_column sel_nonempty) as (t & Ht & Et).
  destruct (sel_in_box s Hs) as (B1 & B2 & _ & _).
  destruct (sel_in_box t Ht) as (_ & _ & B3 & B4).
  destruct (spans_of s (Hincl s Hs)) as [S1 _].
  destruct (spans_of t (Hincl t Ht)) as [_ S2].
  fold Rmax in Es. fold Cmax in Et. unfold lastRowOf, lastColumnOf in *. lia.
Qed.

(** A cell anchored in the last row of anchors, within the columns of the
    selection, is selected and ends in the last row of the box. *)
Lemma last_row_cells (k : GridCell) :
  In k g -> gc_row k = Rmax -> C0 <= gc_column k <= Cmax ->
  In k sel /\ lastRowOf k = E.
Proof.
  intros Ik Er Hc. destruct anchors_in_box as [A1 A2].
  destruct (spans_of k Ik) as [S1 S2].
  assert (Ck : covers k Rmax (gc_column k) = true).
  { unfold covers. rewrite !andb_true_iff, !Nat.leb_le, !Nat.ltb_lt. lia. }
  assert (Ks : In k sel).
  { apply (@covering_is_selected k Rmax (gc_column k)); auto; lia. }
  split; [exact Ks|].
  destruct (sel_in_box k Ks) as (_ & B2 & _ & _).
  destruct (Nat.eq_dec (lastRowOf k) E) as [|N]; [assumption|]. exfalso.
  assert (P1 : R0 <= lastRowOf k + 1 <= E) by (unfold lastRowOf in *; lia).
  assert (P2 : C0 <= gc_column k <= F) by lia.
  destruct (@tiling (lastRowOf k + 1) (gc_column k) P1 P2) as (s & Hs & Cs).
  pose proof (@maxOf_ge gc_row sel s Hs) as M. fold Rmax in M.
  assert (Cs' : covers s Rmax (gc_column k) = true).
  { unfold covers, lastRowOf in *. boolp.
    rewrite !andb_true_iff, !Nat.leb_le, !Nat.ltb_lt. lia. }
  assert (s = k) by (apply (@same_cell g s k Rmax (gc_column k)); auto).
  subst s. unfold covers, lastRowOf in *. boolp. lia.
Qed.

Lemma last_column_cells (k : GridCell) :
  In k g -> gc_column k = Cmax -> R0 <= gc_row k <= E ->
  In k sel /\ lastColumnOf k = F.
Proof.
  intros Ik Ec Hr. destruct anchors_in_box as [A1 A2].
  destruct (spans_of k Ik) as [S1 S2].
  assert (Ck : covers k (gc_row k) Cmax = true).
  { unfold covers. rewrite !andb_true_iff, !Nat.leb_le, !Nat.ltb_lt. lia. }
  assert (Ks : In k sel).
  { apply (@covering_is_selected k (gc_row k) Cmax); auto; lia. }
  split; [exact Ks|].
  destruct (sel_in_box k Ks) as (_ & _ & _ & B4).
  destruct (Nat.eq_dec (lastColumnOf k) F) as [|N]; [assumption|]. exfalso.
  assert (P1 : R0 <= gc_row k <= E) by lia.
  assert (P2 : C0 <= lastColumnOf k + 1 <= F) by (unfold lastColumnOf in *; lia).
  destruct (@tiling (gc_row k) (lastColumnOf k + 1) P1 P2) as (s & Hs & Cs).
  pose proof (@maxOf_ge gc_column sel s Hs) as M. fold Cmax in M.
  assert (Cs' : covers s (gc_row k) Cmax = true).
  { unfold covers, lastColumnOf in *. boolp.
    rewrite !andb_true_iff, !Nat.leb_le, !Nat.ltb_lt. lia. }
  assert (s = k) by (apply (@same_cell g s k (gc_row k) Cmax); auto).
  subst s. unfold covers, lastColumnOf in *. boolp. lia.
Qed.

Lemma adjustedLastRow_box :
  adjustedLastRow (mkRect C0 Cmax R0 Rmax) g = E.
Proof.
  unfold adjustedLastRow. cbn [firstRow lastRow firstColumn lastColumn].
  set (lastRowMap := filter _ g).
  assert (A : forall k, In k lastRowMap -> In k sel /\ lastRowOf k = E).
  { intros k Hk. apply filter_In in Hk as [Ik Hk]. boolp.
    apply last_row_cells; auto. }
  destruct (maxOf_attained gc_row sel_nonempty) as (s & Hs & Es). fold Rmax in Es.
  assert (Is : In s lastRowMap).
  { apply filter_In. split; [auto|].
    pose proof (@minOf_le gc_column sel s Hs). pose proof (@maxOf_ge gc_column sel s Hs).
    fold C0 in H. fold Cmax in H0.
    rewrite !andb_true_iff, Nat.eqb_eq, !Nat.leb_le. lia. }
  destruct (forallb (fun k => gc_rowspan k =? 1) lastRowMap) eqn:U.
  - rewrite forallb_forall in U. specialize (U s Is). apply Nat.eqb_eq in U.
    destruct (A s Is) as [_ Ls]. unfold lastRowOf in Ls. lia.
  - destruct (@leastBy_Some gc_column lastRowMap) as (k0 & L0).
    { intros Z. rewrite Z in Is. contradiction. }
    rewrite L0. apply leastBy_In in L0.
    destruct (A k0 L0) as [K0 L]. apply filter_In in L0 as [I0 H0]. boolp.
    destruct (spans_of k0 I0). unfold lastRowOf in L. lia.
Qed.

Lemma adjustedLastColumn_box :
  adjustedLastColumn (mkRect C0 Cmax R0 E) g = F.
Proof.
  unfold adjustedLastColumn. cbn [firstRow lastRow firstColumn lastColumn].
  set (lastColumnMap := filter _ g).
  assert (A : forall k, In k lastColumnMap -> In k sel /\ lastColumnOf k = F).
  { intros k Hk. apply filter_In in Hk as [Ik Hk]. boolp.
    apply last_column_cells; auto. }
  destruct (maxOf_attained gc_column sel_nonempty) as (s & Hs & Es). fold Cmax in Es.
  assert (Is : In s lastColumnMap).
  { apply filter_In. split; [auto|].
    destruct (sel_in_box s Hs) as (B1 & B2 & _ & _).
    destruct (spans_of s (Hincl s Hs)). unfold lastRowOf in B2.
    rewrite !andb_true_iff, Nat.eqb_eq, !Nat.leb_le. lia. }
  destruct (forallb (fun k => gc_colspan k =? 1) lastColumnMap) eqn:U.
  - rewrite forallb_forall in U. specialize (U s Is). apply Nat.eqb_eq in U.
    destruct (A s Is) as [_ Ls]. unfold lastColumnOf in Ls. lia.
  - destruct (@leastBy_Some gc_row lastColumnMap) as (k0 & L0).
    { intros Z. rewrite Z in Is. contradiction. }
    rewrite L0. apply leastBy_In in L0.
    destruct (A k0 L0) as [K0 L]. apply filter_In in L0 as [I0 H0]. boolp.
    destruct (spans_of k0 I0). unfold lastColumnOf in L. lia.
Qed.

(** Every cell of the grid with a slot in the box lies inside the box. *)
Lemma box_valid (k : GridCell) :
  In k g -> reaches (mkRect C0 F R0 E) k = true -> inside (mkRect C0 F R0 E) k = true.
Proof.
  intros Ik R. unfold reaches in R. cbn [firstRow lastRow firstColumn lastColumn] in R.
  boolp. destruct (spans_of k Ik) as [S1 S2]. destruct anchors_in_box as [A1 A2].
  assert (Ks : In k sel).
  { apply (@covering_is_selected k (Nat.max (gc_row k) R0) (Nat.max (gc_column k) C0));
      auto; unfold covers, lastRowOf, lastColumnOf in *;
      rewrite ?andb_true_iff, ?Nat.leb_le, ?Nat.ltb_lt; lia. }
  destruct (sel_in_box k Ks) as (B1 & B2 & B3 & B4).
  unfold inside. cbn [firstRow lastRow firstColumn lastColumn].
  rewrite !andb_true_iff, !Nat.leb_le. auto.
Qed.
End Selection.
End RectangularSelection.

Module Rectangularized.
Import Layout Splits LayoutFacts RectangleFacts BoxFacts SplitBranch RectangularSelection.

Lemma min_le_max (f : GridCell -> nat) (l : list GridCell) :
  l <> [] -> minOf f l <= maxOf f l.
Proof.
  intros N. destruct (maxOf_attained f N) as (k & Hk & <-).
  now apply minOf_le.
Qed.

(** Walking a rectangle meets cells of the grid that have a slot in it. *)
Lemma walk_cells (g : Grid) (rect : Rect) (P : GridCell -> Prop) :
  firstRow rect <= lastRow rect -> firstColumn rect <= lastColumn rect ->
  Forall (fun k => reaches rect k = true -> P k) g ->
  Forall (fun slot => match snd slot with Some k => P k | None => True end)
         (walk g rect).
Proof.
  intros Lr Lc F. apply Forall_forall. intros [[r c] o] I.
  unfold walk in I. apply in_map_iff in I as ([r' c'] & E & I).
  cbn [fst snd] in E. inversion E; subst. cbn [snd].
  destruct (find (fun k => covers k r c) g) as [k|] eqn:Fk; [|exact Logic.I].
  apply find_some in Fk as [Ik Ck].
  rewrite Forall_forall in F. apply (F k Ik).
  destruct (slotsOfRect_bounds rect r c Lr Lc I) as [B1 B2].
  unfold slotsOfRect in I. apply in_prod_iff in I as [I1 I2]. apply in_seq in I1, I2.
  unfold covers in Ck. unfold reaches, lastRowOf, lastColumnOf. boolp.
  rewrite !andb_true_iff, !Nat.leb_le. lia.
Qed.

(** What [prepareTableForPasting] returns: a rectangle with its first
    row and column not after its last, and a grid in which every cell
    with a slot in the rectangle lies inside it. *)
Lemma prepareTableForPasting_valid (g : Grid) (selected : list GridCell)
      (pasted : Dimensions) :
  wellFormed g -> selected <> [] -> NoDup selected -> incl selected g ->
  1 <= width pasted -> 1 <= height pasted ->
  let result := prepareTableForPasting selected pasted g in
  (firstRow (fst result) <= lastRow (fst result)
   /\ firstColumn (fst result) <= lastColumn (fst result))
  /\ Forall (fun k => reaches (fst result) k = true -> inside (fst result) k = true)
            (snd result).
Proof.
  intros W N D I Pw Ph. cbv zeta. unfold prepareTableForPasting.
  cbn [getColumnIndexes getRowIndexes isSelectionRectangular
       adjustLastRowIndex adjustLastColumnIndex structure
       columnIndexes rowIndexes first last].
  pose proof (min_le_max gc_row N) as Mr. pose proof (min_le_max gc_column N) as Mc.
  assert (S : Forall spansOk g) by apply W.
  destruct (List.length selected =? 1) eqn:One; cbn [orb].
  - cbn [fst snd firstRow lastRow firstColumn lastColumn]. split; [lia|].
    eapply Forall_impl; [|apply splitCellsToRectangularSelection_valid].
    + intros k [_ H]. exact H.
    + now apply expandTableSize_spans.
  - destruct (selectionIsRectangular selected g) eqn:R; cbn [negb].
    + cbn [fst snd firstRow lastRow firstColumn lastColumn].
      rewrite (@adjustedLastRow_box g selected W I D R).
      rewrite (@adjustedLastColumn_box g selected W I D R).
      destruct (@anchors_in_box g selected W I D R) as [A1 A2].
      split; [lia|].
      apply Forall_forall. intros k Hk. exact (@box_valid g selected W I D R k Hk).
    + cbn [fst snd firstRow lastRow firstColumn lastColumn]. split; [lia|].
      eapply Forall_impl; [|apply splitCellsToRectangularSelection_valid; exact S].
      intros k [_ H]. exact H.
Qed.
End Rectangularized.

Module RectangleValidity.
Import Layout Splits Rectangularized.

Lemma apart_disjoint (a b : GridCell) : apart a b = true -> disjoint a b.
Proof.
  unfold apart, disjoint, covers. intros A r c Ca Cb. boolp; lia.
Qed.

Lemma isWellFormed_sound (g : Grid) : isWellFormed g = true -> wellFormed g.
Proof.
  induction g as [|k rest IH]; intros W.
  - split; constructor.
  - cbn [isWellFormed] in W. rewrite !andb_true_iff, !Nat.leb_le in W.
    destruct W as [[[S1 S2] A] W]. destruct (IH W) as [F P]. split.
    + constructor; [lia | exact F].
    + constructor; [|exact P]. rewrite forallb_forall in A.
      apply Forall_forall. intros b Ib. apply apart_disjoint. now apply A.
Qed.

Lemma walk_length (g : Grid) (rect : Rect) :
  List.length (walk g rect)
  = (lastRow rect - firstRow rect + 1) * (lastColumn rect - firstColumn rect + 1).
Proof.
  unfold walk, slotsOfRect. now rewrite length_map, length_prod, !length_seq.
Qed.

(** C2.  For a grid whose cells do not overlap and a non-empty selection
    of distinct cells of the grid, the rectangle returned by
    [prepareTableForPasting] (with [splitCellsToRectangularSelection]
    where it is called), walked over the returned grid with all slots
    included, has a slot for every row and column from its first to its
    last, and meets no cell that spans across its first or last row or
    its first or last column: every cell met lies inside the rectangle.
    The pasted table has at least one row and one column. *)
Theorem C2_walk_of_rectangle_meets_no_crossing_cell
        (g : Grid) (selected : list GridCell) (pasted : Dimensions) :
  wellFormed g -> selected <> [] -> NoDup selected -> incl selected g ->
  1 <= width pasted -> 1 <= height pasted ->
  let result := prepareTableForPasting selected pasted g in
  let rect := fst result in
  (firstRow rect <= lastRow rect /\ firstColumn rect <= lastColumn rect)
  /\ List.length (walk (snd result) rect)
     = (lastRow rect - firstRow rect + 1) * (lastColumn rect - firstColumn rect + 1)
  /\ Forall (fun slot => match snd slot with
                         | Some k => inside rect k = true
                         | None => True
                         end)
            (walk (snd result) rect).
Proof.
  intros W N D I Pw Ph result rect.
  destruct (@prepareTableForPasting_valid g selected pasted W N D I Pw Ph) as [[Lr Lc] V].
  fold result in Lr, Lc, V. fold rect in Lr, Lc, V.
  split; [split; assumption|]. split; [apply walk_length|].
  exact (@walk_cells (snd result) rect (fun k => inside rect k = true) Lr Lc V).
Qed.

(** One selected cell of [spannedGrid] and a pasted table of two rows and
    two columns: the cell spanning rows 1-2 and columns 1-2 is cut at the
    last row and the last column of the rectangle. *)
Lemma C2_spanned_grid_witness :
  let result := prepareTableForPasting [mkCell 0 0 1 1] (mkDimensions 2 2) spannedGrid in
  let rect := fst result in
  (firstRow rect <= lastRow rect /\ firstColumn rect <= lastColumn rect)
  /\ List.length (walk (snd result) rect)
     = (lastRow rect - firstRow rect + 1) * (lastColumn rect - firstColumn rect + 1)
  /\ Forall (fun slot => match snd slot with
                         | Some k => inside rect k = true
                         | None => True
                         end)
            (walk (snd result) rect).
Proof.
  apply (@C2_walk_of_rectangle_meets_no_crossing_cell
           spannedGrid [mkCell 0 0 1 1] (mkDimensions 2 2)).
  - apply isWellFormed_sound. reflexivity.
  - discriminate.
  - constructor; [intros [] | constructor].
  - intros k [<- | []]. simpl. auto.
  - simpl. lia.
  - simpl. lia.
Defined.

(** The rectangle and the grid of the example: the cell 11 is in three
    pieces, the first of them inside the rectangle; the piece in the
    column after the rectangle keeps its two rows. *)
Example spanned_grid_prepared :
  prepareTableForPasting [mkCell 0 0 1 1] (mkDimensions 2 2) spannedGrid
  = (mkRect 0 1 0 1,
     [ mkCell 0 0 1 1; mkCell 0 1 1 1; mkCell 0 2 1 1;
       mkCell 1 0 1 1; mkCell 1 1 1 1; mkCell 2 1 1 1; mkCell 1 2 2 1;
       mkCell 2 0 1 1 ]).
Proof. vm_compute. reflexivity. Qed.

End RectangleValidity.

(* ================================================================== *)
(** * Part III.  Further properties of the code                        *)
(* ================================================================== *)

(** ** [isAffectedBySelection] *)

(** X1: for a span of at least one and a limit whose first index is not
    after its last, [isAffectedBySelection] answers whether the indexes
    the cell takes, [index .. index + span - 1], meet the indexes of the
    limit, [first .. last]: a cell that starts inside the limit and a
    cell that runs into it from before are affected, a cell that ends
    before the limit or starts after it is not. *)
Theorem X1_isAffectedBySelection_is_overlap (index span : nat) (limit : Limit) :
  1 <= span -> first limit <= last limit ->
  (isAffectedBySelection index span limit = true
   <-> index <= last limit /\ first limit <= index + span - 1).
Proof.
  intros S L. unfold isAffectedBySelection. cbv zeta.
  rewrite orb_true_iff, !andb_true_iff, !Nat.leb_le, Nat.ltb_lt. lia.
Qed.

Lemma X1_overlap_witness :
  isAffectedBySelection 1 3 (mkLimit 2 4) = true <-> 1 <= 4 /\ 2 <= 1 + 3 - 1.
Proof.
  apply (@X1_isAffectedBySelection_is_overlap 1 3 (mkLimit 2 4)); simpl; lia.
Defined.

(** ** [getTableIfOnlyTableInContent] *)

Lemma isTable_name (t : node) :
  isTable t = true -> exists i a ch, t = Element i "table" a ch.
Proof.
  destruct t as [i a d | i nm a ch]; [discriminate|]. unfold isTable. simpl.
  intros E. apply String.eqb_eq in E. subst nm. now exists i, a, ch.
Qed.

Lemma items_self (t : node) : In t (items t).
Proof. destruct t; simpl; auto. Qed.

Lemma firstTableAlone_In (model : Model) (ch : list node) (t : node) :
  firstTableAlone model ch t -> isTable t = true /\ In t (itemsIn ch).
Proof.
  intros (before & after & E & T & _). split; [exact T|].
  rewrite E. apply in_or_app. right. apply in_or_app. left. apply items_self.
Qed.

Lemma tableInContainer_In (model : Model) (ch : list node) (t : node) :
  tableInContainer model ch = Some t -> isTable t = true /\ In t (itemsIn ch).
Proof.
  intros E. apply tableInContainer_Some in E as [[-> T] | F].
  - split; [exact T|]. unfold itemsIn. simpl. rewrite app_nil_r. apply items_self.
  - exact (firstTableAlone_In F).
Qed.

(** X2: what [getTableIfOnlyTableInContent] returns is an element named
    [table], and it is the content itself or one of the items inside the
    content; passed back as the content, it is returned again. *)
Theorem X2_classifier_returns_a_table_of_the_content
        (c : content) (model : Model) (t : node) :
  getTableIfOnlyTableInContent c model = Some t ->
  isTable t = true
  /\ (c = Item t \/ In t (itemsIn (contentChildren c)))
  /\ getTableIfOnlyTableInContent (Item t) model = Some t.
Proof.
  intros E.
  assert (T : isTable t = true /\ (c = Item t \/ In t (itemsIn (contentChildren c)))).
  { destruct c as [ch | [i a d | i nm a ch]]; simpl in E.
    - destruct (tableInContainer_In _ _ E) as [T I]. split; [exact T | right; exact I].
    - discriminate.
    - destruct (String.eqb nm "table") eqn:N.
      + inversion E; subst. split; [|left; reflexivity].
        unfold isTable. simpl. exact N.
      + destruct (tableInContainer_In _ _ E) as [T I]. split; [exact T | right; exact I]. }
  destruct T as [T I]. split; [exact T|]. split; [exact I|].
  destruct (isTable_name _ T) as (i & a & ch & ->). reflexivity.
Qed.

Lemma X2_quoted_table_witness :
  isTable sampleTable = true
  /\ (quotedTable = Item sampleTable
      \/ In sampleTable (itemsIn (contentChildren quotedTable)))
  /\ getTableIfOnlyTableInContent (Item sampleTable) editorModel = Some sampleTable.
Proof.
  apply (@X2_classifier_returns_a_table_of_the_content quotedTable editorModel sampleTable).
  reflexivity.
Defined.

Lemma findIndex_least (p : node -> bool) (l : list node) (k j : nat) (x : node) :
  findIndex p l = Some k -> nth_error l j = Some x -> p x = true -> k <= j.
Proof.
  intros F N Px. destruct (findIndex_Some _ _ F) as (y & _ & _ & B).
  destruct (Nat.le_gt_cases k j) as [L | G]; [exact L | exfalso].
  rewrite forallb_forall in B.
  assert (I : In x (firstn k l)).
  { apply nth_error_In with (n := j). rewrite nth_error_firstn.
    apply Nat.ltb_lt in G. now rewrite G. }
  apply B in I. rewrite Px in I. discriminate.
Qed.

Lemma itemsIn_app (l l' : list node) : itemsIn (l ++ l') = itemsIn l ++ itemsIn l'.
Proof. unfold itemsIn. apply flat_map_app. Qed.

Lemma itemsIn_block_end (ch : list node) (k : nat) (x : node) :
  nth_error (itemsIn ch) k = Some x ->
  k + List.length (items x) <= List.length (itemsIn ch).
Proof.
  intros N. destruct (@itemsIn_block ch k x N) as (rest & E).
  assert (L : List.length (skipn k (itemsIn ch))
              = List.length (items x) + List.length rest)
    by now rewrite E, length_app.
  rewrite length_skipn in L.
  assert (k < List.length (itemsIn ch)) by (apply nth_error_Some; congruence).
  lia.
Qed.

(** With two tables among the children, the walk over the items stops at
    a table that has the second of them after it. *)
Lemma tableAmongItems_two_tables (model : Model) (pre mid post : list node)
      (t1 t2 : node) :
  schema_isContent model "table" = true ->
  isTable t1 = true -> isTable t2 = true ->
  tableAmongItems model (pre ++ t1 :: mid ++ t2 :: post) = None.
Proof.
  intros Sc T1 T2. unfold tableAmongItems. cbv zeta.
  set (all := itemsIn (pre ++ t1 :: mid ++ t2 :: post)).
  assert (Eall : all = (itemsIn pre ++ items t1 ++ itemsIn mid)
                       ++ items t2 ++ itemsIn post).
  { unfold all. rewrite itemsIn_app, itemsIn_cons, itemsIn_app, itemsIn_cons.
    now rewrite <- !app_assoc. }
  destruct (findIndex isTable all) as [k|] eqn:F; [|reflexivity].
  destruct (findIndex_Some _ _ F) as (x & Nx & Tx & _).
  rewrite (nth_error_nth _ _ _ Nx).
  set (A := itemsIn pre ++ items t1 ++ itemsIn mid) in *.
  assert (Bound : k + List.length (items x) <= List.length A).
  { assert (N1 : nth_error all (List.length (itemsIn pre)) = Some t1).
    { rewrite Eall. unfold A. rewrite <- !app_assoc.
      rewrite nth_error_app2 by lia. rewrite Nat.sub_diag.
      destruct t1; reflexivity. }
    pose proof (@findIndex_least isTable all k _ t1 F N1 T1) as Le.
    destruct (Nat.eq_dec k (List.length (itemsIn pre))) as [-> | Ne].
    - rewrite N1 in Nx. inversion Nx; subst x. unfold A. rewrite !length_app. lia.
    - assert (Np : nth_error (itemsIn pre) k = Some x).
      { rewrite <- Nx, Eall. unfold A. rewrite <- !app_assoc.
        symmetry. apply nth_error_app1. lia. }
      pose proof (@itemsIn_block_end pre k x Np). unfold A. rewrite !length_app. lia. }
  destruct (hasContent model (firstn k all)); [reflexivity|].
  assert (H2 : hasContent model (skipn (k + List.length (items x)) all) = true).
  { unfold hasContent. apply existsb_exists. exists t2. split.
    - rewrite Eall, skipn_app. apply in_or_app. right.
      replace (k + List.length (items x) - List.length A) with 0 by lia.
      simpl. apply in_or_app. left. apply items_self.
    - destruct (isTable_name _ T2) as (i & a & ch & ->). exact Sc. }
  now rewrite H2.
Qed.

(** X3: when the schema counts a table as content, a fragment with two
    tables among its children - whatever stands before, between and
    after them - is mixed content: [getTableIfOnlyTableInContent]
    returns none. *)
Theorem X3_two_sibling_tables_are_mixed_content
        (model : Model) (pre mid post : list node) (t1 t2 : node) :
  schema_isContent model "table" = true ->
  isTable t1 = true -> isTable t2 = true ->
  getTableIfOnlyTableInContent
    (DocumentFragment (pre ++ t1 :: mid ++ t2 :: post)) model = None.
Proof.
  intros Sc T1 T2. cbn [getTableIfOnlyTableInContent].
  assert (E : tableInContainer model (pre ++ t1 :: mid ++ t2 :: post)
              = tableAmongItems model (pre ++ t1 :: mid ++ t2 :: post)).
  { unfold tableInContainer.
    destruct pre as [|a [|b pre]]; [destruct mid | destruct mid |]; reflexivity. }
  rewrite E. now apply tableAmongItems_two_tables.
Qed.

Lemma X3_two_tables_witness :
  getTableIfOnlyTableInContent
    (DocumentFragment ([Text 1 [] [32%N]] ++ sampleTable
                         :: [] ++ Element 20 "table" [] [] :: []))
    editorModel = None.
Proof.
  apply (@X3_two_sibling_tables_are_mixed_content
           editorModel [Text 1 [] [32%N]] [] [] sampleTable (Element 20 "table" [] []));
    reflexivity.
Defined.

(** ** [_onInsertContent]: when the handler takes the insertion over *)

Section HandlerDecision.
Context `{TableStructure Writer node}.
Variable uid : nat -> string.
Variable pastedColumns : node -> nat.
Variable pastedRows : node -> nat.
Variable cropTableToDimensions : node -> nat * nat * nat * nat -> Writer -> node * Writer.
Variable removeEmptyRowsColumns : node -> node.
Variable findAncestorTable : node -> Writer -> node.

(** X4: the handler stops the [insertContent] event - and so replaces
    the default insertion - exactly when the selectable is absent or the
    document selection, the content is classified as a table, and at
    least one table cell is selected; in every other case the event is
    left as it was.  An event already stopped stays stopped. *)
Theorem X4_onInsertContent_stops_the_event_iff
        (evtStopped : bool) (c : content) (selectable : Selectable) (model : Model)
        (selectedTableCells : list node) (w : Writer) (calls : nat) :
  stopped (_onInsertContent uid pastedColumns pastedRows cropTableToDimensions
                            removeEmptyRowsColumns findAncestorTable
                            evtStopped c selectable model selectedTableCells w calls)
  = evtStopped
    || (match selectable with AnotherSelection => false | _ => true end
        && match getTableIfOnlyTableInContent c model with
           | Some _ => true
           | None => false
           end
        && negb (List.length selectedTableCells =? 0)).
Proof.
  unfold _onInsertContent.
  destruct selectable; cbn [andb];
    try (now rewrite orb_false_r);
    (destruct (getTableIfOnlyTableInContent c model) as [pastedTable|];
     [|now rewrite orb_false_r]);
    (destruct selectedTableCells as [|x cells];
     [cbn; now rewrite orb_false_r|]);
    cbn [List.length Nat.eqb negb andb]; rewrite orb_true_r;
    destruct (_replaceSelectedCells _ _ _ _ _ _ _) as [replaced w2];
    (destruct (isDocumentFragment c && _); [|reflexivity]);
    destruct (TableClipboardMarkers._convertElementsToMarkers _ _ _ _)
      as [[w3 k] | [w3 k]]; reflexivity.
Qed.
End HandlerDecision.

(** ** Encoding: what is inserted, and what is returned *)

Lemma sortInsert_length (A : Type) (cmp : A -> A -> bool) (a : A) (l : list A) :
  List.length (sortInsert cmp a l) = S (List.length l).
Proof.
  induction l as [|y r IH]; simpl; [reflexivity|].
  destruct (cmp a y); simpl; now rewrite ?IH.
Qed.

Lemma sort_length (A : Type) (cmp : A -> A -> bool) (l : list A) :
  List.length (sort cmp l) = List.length l.
Proof.
  induction l as [|x r IH]; simpl; [reflexivity|].
  now rewrite sortInsert_length, IH.
Qed.

Lemma insert_markers (x : node) (p : Position) (w : Writer) :
  modelMarkers (insert x p w) = modelMarkers w
  /\ fragmentMarkers (insert x p w) = fragmentMarkers w.
Proof. unfold insert. destruct (root p); split; reflexivity. Qed.

Module PasteEncodeCoverage.
Import TableClipboardMarkers.

Lemma boundaries_length (markers : list (string * Range)) :
  List.length (flat_map boundaries markers) = 2 * List.length markers.
Proof. induction markers as [|m r IH]; simpl; [reflexivity | rewrite IH; lia]. Qed.

Lemma insertFakeMarkers_markers (bs : list Boundary) :
  forall w, modelMarkers (fold_left insertFakeMarker bs w) = modelMarkers w
            /\ fragmentMarkers (fold_left insertFakeMarker bs w) = fragmentMarkers w.
Proof.
  induction bs as [|b r IH]; intros w; cbn [fold_left]; [split; reflexivity|].
  destruct (IH (insertFakeMarker w b)) as [M F]. rewrite M, F.
  unfold insertFakeMarker, createElement.
  match goal with
  | |- context [insert ?x ?p ?v] => destruct (insert_markers x p v) as [M1 F1]
  end.
  rewrite M1, F1. split; reflexivity.
Qed.
End PasteEncodeCoverage.

(** X5: [_convertMarkersToElements] inserts two fake elements for every
    marker of the pasted fragment and nothing else: one at the start of
    the marker's range and one at its end, each a childless [$marker]
    element whose only attribute is [data-name], the marker's name.  The
    markers of the model and of the fragment are left as they are. *)
Theorem X5_paste_markers_become_two_fake_elements
        (markers : list (string * Range)) (w : Writer) :
  let w' := TableClipboardMarkers._convertMarkersToElements markers w in
  List.length (insertsSince w w') = 2 * List.length markers
  /\ (forall nm range,
         In (nm, range) markers ->
         exists ks ke,
           In (Element ks "$marker" [("data-name", VStr nm)] [], rstart range)
              (insertsSince w w')
           /\ In (Element ke "$marker" [("data-name", VStr nm)] [], rend range)
                 (insertsSince w w'))
  /\ modelMarkers w' = modelMarkers w
  /\ fragmentMarkers w' = fragmentMarkers w.
Proof.
  cbv zeta. unfold TableClipboardMarkers._convertMarkersToElements.
  destruct (PasteEncodeFacts.insertNamedFakeMarker_log
              (TableClipboardMarkers.sortedMarkers markers) w) as (news & L & F).
  rewrite (@insertsSince_app _ _ _ L).
  split; [|split].
  - rewrite <- (Forall2_length F). unfold TableClipboardMarkers.sortedMarkers.
    rewrite sort_length. apply PasteEncodeCoverage.boundaries_length.
  - intros nm range I.
    assert (B : forall b, In b (TableClipboardMarkers.boundaries (nm, range)) ->
                          In b (TableClipboardMarkers.sortedMarkers markers)).
    { intros b Hb. unfold TableClipboardMarkers.sortedMarkers. apply sort_In.
      apply in_flat_map. exists (nm, range). auto. }
    destruct (Forall2_In_left F _ (B _ (or_introl eq_refl))) as (e1 & I1 & k1 & ->).
    destruct (Forall2_In_left F _ (B _ (or_intror (or_introl eq_refl))))
      as (e2 & I2 & k2 & ->).
    exists k1, k2. split; assumption.
  - apply PasteEncodeCoverage.insertFakeMarkers_markers.
Qed.

Module CopyEncodeCoverage.
Import AssignFragmentMarkers.

Lemma pushTo_elements (k : string) (x : node) (m : list (string * list node)) :
  Permutation (insertedElements (pushTo k x m)) (insertedElements m ++ [x]).
Proof.
  unfold insertedElements.
  induction m as [|[k' xs] r IH]; cbn [pushTo flat_map snd].
  - reflexivity.
  - destruct (String.eqb k' k); cbn [flat_map snd].
    + rewrite <- !app_assoc. apply Permutation_app_head. apply Permutation_app_comm.
    + rewrite <- app_assoc. now apply Permutation_app_head.
Qed.




End CopyEncodeCoverage.


(** ** Decoding: the elements of the encoding are taken out again *)

(** X7: when the identities in each root are distinct, none of the
    elements of the map handed to [afterCopySelectionMarkersFragment]
    (or to [collectAndRemoveFakeMarkers]) - the fake elements the
    encoding inserted into the source of the copy - is left in the
    document or in the fragment: the source of the copy is cleaned up,
    whatever fake elements the fragment holds (their names being plain
    names).  The inserted elements are different nodes of the document. *)
Theorem X7_decoding_removes_the_inserted_elements
        (w : Writer) (inserted : list (string * list node)) (x : node) :
  distinctIds w ->
  namesArePlain (itemsIn (fragmentRoot w)) = true ->
  insertedInDocument inserted w = true ->
  In x (AssignFragmentMarkers.insertedElements inserted) ->
  gone x (AssignFragmentMarkers.afterCopySelectionMarkersFragment w inserted)
  /\ gone x (AssignFragmentMarkers.collectAndRemoveFakeMarkers w inserted).
Proof.
  intros D _ _ I.
  unfold AssignFragmentMarkers.afterCopySelectionMarkersFragment,
         AssignFragmentMarkers.collectAndRemoveFakeMarkers,
         AssignFragmentMarkers._removeFakeMarkersInsideFragment,
         AssignFragmentMarkers._removeFakeMarkersFromFragment.
  destruct (DecodeFacts.removeFakeMarkers_fold
              (AssignFragmentMarkers._getAllFakeMarkersFromElement w) [] w)
    as (S1 & _ & _ & _).
  destruct (fold_left AssignFragmentMarkers.removeFakeMarkers
              (AssignFragmentMarkers._getAllFakeMarkersFromElement w) ([], w))
    as [ranges w1].
  cbn [fst snd] in *.
  pose proof (shrinks_distinct S1 D) as D1.
  destruct (FragmentFacts.setFragmentMarkers_roots ranges w1) as [R1 R2].
  pose proof (@distinctIds_roots w1 _ R1 R2 D1) as D2.
  split.
  - now apply removeAll_gone.
  - destruct (FragmentFacts.coverWholeFragment_fold ranges inserted
                (AssignFragmentMarkers.setFragmentMarkers ranges w1)) as (C1 & C2 & _).
    cbv zeta in *. apply removeAll_gone; [|exact I].
    exact (@distinctIds_roots _ _ C1 C2 D2).
Qed.

Lemma loneEndWriter_distinct : distinctIds loneEndWriter.
Proof. split; vm_compute; repeat constructor; simpl; intuition discriminate. Qed.

Lemma X7_lone_end_witness :
  gone (fakeMarker 100 "comment:thread1" "end")
       (AssignFragmentMarkers.afterCopySelectionMarkersFragment
          loneEndWriter encodedInserted)
  /\ gone (fakeMarker 100 "comment:thread1" "end")
          (AssignFragmentMarkers.collectAndRemoveFakeMarkers
             loneEndWriter encodedInserted).
Proof.
  apply (@X7_decoding_removes_the_inserted_elements loneEndWriter encodedInserted
           (fakeMarker 100 "comment:thread1" "end") loneEndWriter_distinct).
  - reflexivity.
  - reflexivity.
  - simpl. auto.
Defined.

(** ** The two revisions of the decoding *)

Lemma cover_nothing (ranges : list (string * Range))
      (inserted : list (string * list node)) :
  (forall nm, In nm (map fst inserted) -> lookup nm ranges <> None) ->
  forall w, fold_left (AssignFragmentMarkers.coverWholeFragment ranges) inserted w = w.
Proof.
  induction inserted as [|entry rest IH]; intros A w; cbn [fold_left]; [reflexivity|].
  unfold AssignFragmentMarkers.coverWholeFragment at 2.
  destruct (lookup (fst entry) ranges) eqn:L.
  - apply IH. intros nm I. apply A. right. exact I.
  - exfalso. apply (A (fst entry)); [left; reflexivity | exact L].
Qed.

(** X8: [collectAndRemoveFakeMarkers] and the earlier
    [afterCopySelectionMarkersFragment] leave the same writer whenever
    every marker of the map of inserted elements got a range from the
    fake elements found in the fragment; they differ only for a marker
    that has no fake element in the fragment.  (The [data-name]
    attributes in the fragment are plain names.) *)
Theorem X8_decoding_revisions_agree (w : Writer) (inserted : list (string * list node)) :
  namesArePlain (itemsIn (fragmentRoot w)) = true ->
  (forall nm,
      In nm (map fst inserted) ->
      lookup nm (fst (AssignFragmentMarkers._removeFakeMarkersInsideFragment w
                        (AssignFragmentMarkers._getAllFakeMarkersFromElement w)))
      <> None) ->
  AssignFragmentMarkers.collectAndRemoveFakeMarkers w inserted
  = AssignFragmentMarkers.afterCopySelectionMarkersFragment w inserted.
Proof.
  intros _ A.
  unfold AssignFragmentMarkers.collectAndRemoveFakeMarkers,
         AssignFragmentMarkers.afterCopySelectionMarkersFragment,
         AssignFragmentMarkers._removeFakeMarkersInsideFragment in *.
  destruct (AssignFragmentMarkers._removeFakeMarkersFromFragment w
              (AssignFragmentMarkers._getAllFakeMarkersFromElement w)) as [ranges w1].
  cbn [fst] in A. now rewrite cover_nothing.
Qed.

Lemma X8_lone_end_witness :
  AssignFragmentMarkers.collectAndRemoveFakeMarkers loneEndWriter encodedInserted
  = AssignFragmentMarkers.afterCopySelectionMarkersFragment loneEndWriter encodedInserted.
Proof.
  apply (@X8_decoding_revisions_agree loneEndWriter encodedInserted).
  - reflexivity.
  - intros nm [<- | []]. vm_compute. discriminate.
Defined.

(** X9: a marker that is in the map of inserted elements but has no fake
    element in the fragment (the selection lies inside the marker).
    [collectAndRemoveFakeMarkers] sets it on the fragment with the range
    of the whole fragment, as the fragment is once the fake elements
    found in it are removed; the earlier
    [afterCopySelectionMarkersFragment] sets nothing for it and leaves
    the fragment's entry of that name as it was.  The name is a plain
    name (the names of the markers that are encoded start with
    [comment:]), as are the [data-name] attributes in the fragment, and
    the inserted elements are different nodes of the document. *)
Theorem X9_marker_around_the_selection
        (w : Writer) (inserted : list (string * list node)) (nm : string) :
  In nm (map fst inserted) ->
  isPlainName nm = true ->
  namesArePlain (itemsIn (fragmentRoot w)) = true ->
  insertedInDocument inserted w = true ->
  lookup nm (AssignFragmentMarkers._getAllFakeMarkersFromElement w) = None ->
  lookup nm (fragmentMarkers (AssignFragmentMarkers.collectAndRemoveFakeMarkers w inserted))
  = Some (createRangeIn
            (snd (AssignFragmentMarkers._removeFakeMarkersInsideFragment w
                    (AssignFragmentMarkers._getAllFakeMarkersFromElement w))))
  /\ lookup nm (fragmentMarkers
                  (AssignFragmentMarkers.afterCopySelectionMarkersFragment w inserted))
     = lookup nm (fragmentMarkers w).
Proof.
  intros I _ _ _ N. split; [now apply CoverFacts.collectAndRemoveFakeMarkers_covers_fragment|].
  unfold AssignFragmentMarkers.afterCopySelectionMarkersFragment,
         AssignFragmentMarkers._removeFakeMarkersFromFragment.
  destruct (DecodeFacts.removeFakeMarkers_fold
              (AssignFragmentMarkers._getAllFakeMarkersFromElement w) [] w)
    as (_ & M & L & _).
  destruct (fold_left AssignFragmentMarkers.removeFakeMarkers
              (AssignFragmentMarkers._getAllFakeMarkersFromElement w) ([], w))
    as [ranges w1].
  cbn [fst snd] in *.
  assert (R : lookup nm ranges = None).
  { rewrite L; [reflexivity | now apply lookup_None]. }
  rewrite (proj2 (FragmentFacts.removeAll_facts _ _)).
  rewrite FragmentFacts.setFragmentMarkers_other; [now rewrite M | now apply lookup_None].
Qed.

Lemma X9_inside_witness :
  lookup "comment:thread1"
    (fragmentMarkers
       (AssignFragmentMarkers.collectAndRemoveFakeMarkers insideWriter encodedInserted))
  = Some (createRangeIn
            (snd (AssignFragmentMarkers._removeFakeMarkersInsideFragment insideWriter
                    (AssignFragmentMarkers._getAllFakeMarkersFromElement insideWriter))))
  /\ lookup "comment:thread1"
       (fragmentMarkers
          (AssignFragmentMarkers.afterCopySelectionMarkersFragment
             insideWriter encodedInserted))
     = lookup "comment:thread1" (fragmentMarkers insideWriter).
Proof.
  apply (@X9_marker_around_the_selection insideWriter encodedInserted "comment:thread1").
  - simpl. auto.
  - reflexivity.
  - reflexivity.
  - reflexivity.
  - reflexivity.
Defined.

(** ** The groups of fake elements that the decoding works on *)

Lemma pushTo_lookup_same (k : string) (x : node) (m : list (string * list node)) :
  lookup k (pushTo k x m) = Some (groupOf k m ++ [x]).
Proof.
  unfold groupOf. induction m as [|[k' xs] r IH]; cbn [pushTo lookup].
  - now rewrite String.eqb_refl.
  - destruct (String.eqb k' k) eqn:E; cbn [lookup]; rewrite E; [reflexivity | exact IH].
Qed.

Lemma pushTo_lookup_other (k k' : string) (x : node) (m : list (string * list node)) :
  k' <> k -> lookup k' (pushTo k x m) = lookup k' m.
Proof.
  intros Ne. induction m as [|[k0 xs] r IH]; cbn [pushTo lookup].
  - apply String.eqb_neq in Ne. rewrite String.eqb_sym in Ne. now rewrite Ne.
  - destruct (String.eqb k0 k) eqn:E; cbn [lookup].
    + apply String.eqb_eq in E. subst k0.
      destruct (String.eqb k k') eqn:E'; [|reflexivity].
      apply String.eqb_eq in E'. congruence.
    + now rewrite IH.
Qed.

Section Groups.
Variable sel : node -> option string.

Lemma collectBy_group (nm : string) (acc : list (string * list node)) (x : node) :
  groupOf nm (collectBy sel acc x)
  = groupOf nm acc ++ (if namedBy sel nm x then [x] else []).
Proof.
  unfold collectBy, namedBy. destruct (sel x) as [k|]; [|now rewrite app_nil_r].
  destruct (String.eqb k nm) eqn:E.
  - apply String.eqb_eq in E. subst k. unfold groupOf at 1.
    now rewrite pushTo_lookup_same.
  - apply String.eqb_neq in E. unfold groupOf.
    rewrite pushTo_lookup_other by congruence. now rewrite app_nil_r.
Qed.

Lemma collectBy_nonempty (acc : list (string * list node)) (x : node) :
  (forall k, lookup k acc <> Some []) ->
  forall k, lookup k (collectBy sel acc x) <> Some [].
Proof.
  intros A k. unfold collectBy. destruct (sel x) as [k0|]; [|apply A].
  destruct (String.eqb k0 k) eqn:E.
  - apply String.eqb_eq in E. subst k0. rewrite pushTo_lookup_same.
    intros C. inversion C as [C']. destruct (groupOf k acc); discriminate.
  - apply String.eqb_neq in E. rewrite pushTo_lookup_other by congruence. apply A.
Qed.

Lemma collectBy_fold (nm : string) (l : list node) :
  forall acc,
    (forall k, lookup k acc <> Some []) ->
    groupOf nm (fold_left (collectBy sel) l acc) = groupOf nm acc ++ filter (namedBy sel nm) l
    /\ forall k, lookup k (fold_left (collectBy sel) l acc) <> Some [].
Proof.
  induction l as [|x r IH]; intros acc A; cbn [fold_left filter].
  - rewrite app_nil_r. auto.
  - destruct (IH (collectBy sel acc x) (@collectBy_nonempty acc x A)) as [G N].
    split; [|exact N]. rewrite G, collectBy_group.
    destruct (namedBy sel nm x); now rewrite <- app_assoc.
Qed.

(** The group of a name after the scan of [l]: the items of [l] filed
    under the name, in the order of [l]; no entry when there is none. *)
Lemma collectBy_lookup (nm : string) (l : list node) :
  lookup nm (fold_left (collectBy sel) l [])
  = match filter (namedBy sel nm) l with
    | [] => None
    | found => Some found
    end.
Proof.
  destruct (@collectBy_fold nm l []) as [G N]; [intros k; discriminate|].
  unfold groupOf in G. cbn [lookup app] in G. specialize (N nm).
  destruct (lookup nm (fold_left (collectBy sel) l [])) as [found|].
  - subst found. destruct (filter (namedBy sel nm) l); [congruence | reflexivity].
  - now rewrite <- G.
Qed.
End Groups.

Lemma scan_collectBy (l : list node) :
  forall acc,
    fold_left AssignFragmentMarkers.collectFakeMarker l acc
    = fold_left (collectBy fakeElementName) l acc.
Proof.
  induction l as [|x r IH]; intros acc; cbn [fold_left]; [reflexivity|].
  rewrite IH. f_equal. unfold AssignFragmentMarkers.collectFakeMarker, collectBy,
                              fakeElementName.
  destruct (isElement x); reflexivity.
Qed.

Lemma named_string (sel : node -> option string) (nm : string) (l : list node) :
  nm <> "" ->
  (forall x, sel x = AssignFragmentMarkers.fakeMarkerName x) ->
  filter (namedBy sel nm) l = filter (hasDataName nm) l.
Proof.
  intros Ne S. apply filter_ext. intros x.
  unfold namedBy, hasDataName. rewrite S. unfold AssignFragmentMarkers.fakeMarkerName.
  destruct (getAttribute "data-name" x) as [[s|n]|]; try reflexivity.
  destruct (String.eqb s "") eqn:E; [|reflexivity].
  apply String.eqb_eq in E. subst s. symmetry. apply String.eqb_neq. congruence.
Qed.

(** X10: [_getAllFakeMarkersFromElement] files under a name exactly the
    elements of the fragment whose [data-name] is that name, in document
    order, whatever the name of the element is (it is not checked to be
    [$marker]); text nodes are passed over, and a name that no element
    carries has no entry.  The name is not empty - an empty [data-name]
    is skipped - and the [data-name] attributes are plain names. *)
Theorem X10_scan_groups_elements_by_data_name (w : Writer) (nm : string) :
  nm <> "" ->
  namesArePlain (itemsIn (fragmentRoot w)) = true ->
  lookup nm (AssignFragmentMarkers._getAllFakeMarkersFromElement w)
  = match filter (fun x => isElement x && hasDataName nm x) (itemsIn (fragmentRoot w)) with
    | [] => None
    | found => Some found
    end.
Proof.
  intros Ne _. unfold AssignFragmentMarkers._getAllFakeMarkersFromElement.
  rewrite scan_collectBy, collectBy_lookup.
  assert (E : filter (namedBy fakeElementName nm) (itemsIn (fragmentRoot w))
              = filter (fun x => isElement x && hasDataName nm x)
                       (itemsIn (fragmentRoot w))).
  { apply filter_ext. intros x. unfold namedBy, fakeElementName.
    destruct (isElement x); cbn [andb]; [|reflexivity].
    assert (F : filter (namedBy AssignFragmentMarkers.fakeMarkerName nm) [x]
                = filter (hasDataName nm) [x])
      by (apply named_string; auto).
    cbn [filter] in F. unfold namedBy in F.
    destruct (AssignFragmentMarkers.fakeMarkerName x) as [k|];
      [destruct (String.eqb k nm)|]; destruct (hasDataName nm x);
      try reflexivity; discriminate. }
  now rewrite E.
Qed.

Lemma X10_pair_witness :
  lookup "comment:thread1" (AssignFragmentMarkers._getAllFakeMarkersFromElement pairWriter)
  = match filter (fun x => isElement x && hasDataName "comment:thread1" x)
                 (itemsIn (fragmentRoot pairWriter)) with
    | [] => None
    | found => Some found
    end.
Proof.
  apply (@X10_scan_groups_elements_by_data_name pairWriter "comment:thread1").
  - discriminate.
  - reflexivity.
Defined.

(** X11: [_convertElementsToMarkers] groups the items inside the replaced
    cells by their [data-name]: under a name are all the items - elements
    and text nodes alike - that carry it, cell after cell in document
    order, and a name that no item carries has no group.  The name is
    not empty and the [data-name] attributes are plain names. *)
Theorem X11_paste_groups_items_by_data_name (replacedCells : list node) (nm : string) :
  nm <> "" ->
  namesArePlain (flat_map items replacedCells) = true ->
  lookup nm (TableClipboardMarkers.markersFakeElements replacedCells)
  = match filter (hasDataName nm) (flat_map items replacedCells) with
    | [] => None
    | found => Some found
    end.
Proof.
  intros Ne _. unfold TableClipboardMarkers.markersFakeElements.
  change TableClipboardMarkers.collectFakeElement
    with (collectBy AssignFragmentMarkers.fakeMarkerName).
  rewrite collectBy_lookup.
  now rewrite (@named_string AssignFragmentMarkers.fakeMarkerName nm
                 (flat_map items replacedCells) Ne (fun x => eq_refl)).
Qed.

Lemma X11_tiled_witness :
  lookup "comment:thread1" (TableClipboardMarkers.markersFakeElements tiledCells)
  = match filter (hasDataName "comment:thread1") (flat_map items tiledCells) with
    | [] => None
    | found => Some found
    end.
Proof.
  apply (@X11_paste_groups_items_by_data_name tiledCells "comment:thread1").
  - discriminate.
  - reflexivity.
Defined.

(** ** Decoding one marker: a lone start, a pair, a lone element of no kind *)

Module EntryFacts.
Import AssignFragmentMarkers.

Lemma kind_start_not_end (e : node) :
  dataTypeIs "start" e = true -> dataTypeIs "end" e = false.
Proof.
  unfold dataTypeIs. destruct (getAttribute "data-type" e) as [[s|n]|]; auto.
  intros H. apply String.eqb_eq in H. subst. reflexivity.
Qed.

(** The entry of a name in the reduction: what is before it does not
    assign the name, what is after it does not either. *)
Lemma ranges_of_entry (w : Writer) (pre post : list (string * list node))
      (nm : string) (els : list node) :
  NoDup (map fst (pre ++ (nm, els) :: post)) ->
  let before := fold_left removeFakeMarkers pre ([], w) in
  let step := removeFakeMarkers before (nm, els) in
  let result := _removeFakeMarkersFromFragment w (pre ++ (nm, els) :: post) in
  lookup nm (fst result) = lookup nm (fst step)
  /\ NoDup (map fst (fst result))
  /\ shrinks w (snd before)
  /\ shrinks (snd step) (snd result)
  /\ lookup nm (fst before) = None.
Proof.
  intros K. cbv zeta. unfold _removeFakeMarkersFromFragment.
  rewrite fold_left_app. cbn [fold_left].
  rewrite map_app in K. apply NoDup_app_parts in K as (_ & K & D).
  cbn [map fst] in K, D. inversion K as [|? ? Kn Kp]; subst.
  destruct (DecodeFacts.removeFakeMarkers_fold pre [] w) as (S0 & _ & L0 & N0).
  cbv zeta in *.
  destruct (fold_left removeFakeMarkers pre ([], w)) as [acc0 w0].
  cbn [fst snd] in *.
  destruct (DecodeFacts.removeFakeMarkers_step acc0 w0 (nm, els)) as (_ & _ & _ & Ns).
  destruct (removeFakeMarkers (acc0, w0) (nm, els)) as [acc1 w1].
  cbn [fst snd] in *.
  destruct (DecodeFacts.removeFakeMarkers_fold post acc1 w1) as (S1 & _ & L1 & N1).
  cbv zeta in *.
  split; [|split; [|split; [|split]]].
  - now apply L1.
  - apply N1, Ns, N0. constructor.
  - exact S0.
  - exact S1.
  - rewrite L0; [reflexivity|]. intros I. apply (D nm I). left. reflexivity.
Qed.

(** The ranges found in the fragment are set on the fragment by both
    revisions, which add no node to the fragment. *)
Lemma decoded (w : Writer) (inserted : list (string * list node)) :
  let found := _removeFakeMarkersFromFragment w (_getAllFakeMarkersFromElement w) in
  let after := afterCopySelectionMarkersFragment w inserted in
  let after' := collectAndRemoveFakeMarkers w inserted in
  (forall nm range,
      lookup nm (fst found) = Some range ->
      lookup nm (fragmentMarkers after) = Some range
      /\ lookup nm (fragmentMarkers after') = Some range)
  /\ (forall nm,
         lookup nm (fst found) = None ->
         lookup nm (fragmentMarkers after) = lookup nm (fragmentMarkers w)
         /\ (~ In nm (map fst inserted) ->
             lookup nm (fragmentMarkers after') = lookup nm (fragmentMarkers w)))
  /\ incl (idsIn (fragmentRoot after)) (idsIn (fragmentRoot (snd found)))
  /\ incl (idsIn (fragmentRoot after')) (idsIn (fragmentRoot (snd found))).
Proof.
  cbv zeta.
  unfold afterCopySelectionMarkersFragment, collectAndRemoveFakeMarkers,
         _removeFakeMarkersInsideFragment.
  assert (N : NoDup (map fst (fst (_removeFakeMarkersFromFragment w
                                     (_getAllFakeMarkersFromElement w))))).
  { unfold _removeFakeMarkersFromFragment.
    destruct (DecodeFacts.removeFakeMarkers_fold (_getAllFakeMarkersFromElement w) [] w)
      as (_ & _ & _ & N).
    apply N. constructor. }
  assert (M : fragmentMarkers (snd (_removeFakeMarkersFromFragment w
                                      (_getAllFakeMarkersFromElement w)))
              = fragmentMarkers w).
  { unfold _removeFakeMarkersFromFragment.
    now destruct (DecodeFacts.removeFakeMarkers_fold
                    (_getAllFakeMarkersFromElement w) [] w) as (_ & M & _ & _). }
  destruct (_removeFakeMarkersFromFragment w (_getAllFakeMarkersFromElement w))
    as [ranges w1].
  cbn [fst snd] in *.
  destruct (FragmentFacts.removeAll_facts (insertedElements inserted)
              (setFragmentMarkers ranges w1)) as [Sh Mk].
  destruct (FragmentFacts.coverWholeFragment_fold ranges inserted
              (setFragmentMarkers ranges w1)) as (R1 & R2 & R3).
  cbv zeta in *.
  destruct (FragmentFacts.removeAll_facts (insertedElements inserted)
              (fold_left (coverWholeFragment ranges) inserted
                 (setFragmentMarkers ranges w1))) as [Sh' Mk'].
  destruct (FragmentFacts.setFragmentMarkers_roots ranges w1) as [Rf _].
  split; [|split; [|split]].
  - intros nm range L. split.
    + rewrite Mk. apply FragmentFacts.setFragmentMarkers_lookup; auto.
      now apply lookup_In.
    + rewrite Mk', (R3 _ _ L).
      apply FragmentFacts.setFragmentMarkers_lookup; auto. now apply lookup_In.
  - intros nm L. apply lookup_None in L.
    assert (E : lookup nm (fragmentMarkers (setFragmentMarkers ranges w1))
                = lookup nm (fragmentMarkers w)).
    { rewrite FragmentFacts.setFragmentMarkers_other by exact L. now rewrite M. }
    split; [now rewrite Mk|].
    intros Ni. rewrite Mk', <- E. clear - Ni.
    generalize (setFragmentMarkers ranges w1).
    induction inserted as [|entry rest IH]; intros v; cbn [fold_left]; [reflexivity|].
    cbn [map In] in Ni. rewrite IH by tauto.
    unfold coverWholeFragment. destruct (lookup (fst entry) ranges); [reflexivity|].
    cbn [setFragmentMarker fragmentMarkers]. apply lookup_assign_other. tauto.
  - intros i I. apply Sh in I. now rewrite Rf in I.
  - intros i I. apply Sh' in I. rewrite R1 in I. now rewrite Rf in I.
Qed.
End EntryFacts.

(** X12: when decoding finds, for a marker name, exactly one fake element
    and its recorded kind is start (the marker starts inside the copied
    content and ends after it), the marker set on the fragment runs from
    the position just before the element - as the tree is when the entry
    of the name is reached - to the end of the fragment as it is once the
    element is removed; the element is no longer in the fragment
    afterwards.  This holds for both revisions of the decoding.  (The
    identities in the fragment are distinct, the [data-name] attributes
    are plain names and the inserted elements are different nodes of the
    document.) *)
Theorem X12_lone_start_sentinel_range
        (w : Writer) (inserted pre post : list (string * list node))
        (markerName : string) (e : node) :
  AssignFragmentMarkers._getAllFakeMarkersFromElement w
    = pre ++ (markerName, [e]) :: post ->
  AssignFragmentMarkers.dataTypeIs "start" e = true ->
  NoDup (idsIn (fragmentRoot w)) ->
  namesArePlain (itemsIn (fragmentRoot w)) = true ->
  insertedInDocument inserted w = true ->
  let reached :=
    snd (fold_left AssignFragmentMarkers.removeFakeMarkers pre ([], w)) in
  let range := mkRange (createPositionBefore e reached)
                       (createPositionAtEnd (remove e reached)) in
  let after := AssignFragmentMarkers.afterCopySelectionMarkersFragment w inserted in
  let after' := AssignFragmentMarkers.collectAndRemoveFakeMarkers w inserted in
  (lookup markerName (fragmentMarkers after) = Some range
   /\ ~ In (nodeId e) (idsIn (fragmentRoot after)))
  /\ (lookup markerName (fragmentMarkers after') = Some range
      /\ ~ In (nodeId e) (idsIn (fragmentRoot after'))).
Proof.
  intros S T N _ _. cbv zeta.
  assert (K : NoDup (map fst (pre ++ (markerName, [e]) :: post))).
  { rewrite <- S. apply DecodeFacts._getAllFakeMarkersFromElement_keys. }
  destruct (@EntryFacts.ranges_of_entry w pre post markerName [e] K)
    as (L & _ & S0 & S1 & _).
  destruct (EntryFacts.decoded w inserted) as (Set_ & _ & I1 & I2).
  cbv zeta in *. rewrite S in *.
  destruct (fold_left AssignFragmentMarkers.removeFakeMarkers pre ([], w))
    as [acc0 w0].
  cbn [AssignFragmentMarkers.removeFakeMarkers fst snd] in *.
  rewrite T, (EntryFacts.kind_start_not_end e T) in *. cbn [fst snd] in *.
  rewrite lookup_assign_same in L.
  destruct (Set_ _ _ L) as [L1 L2].
  assert (G : ~ In (nodeId e)
                (idsIn (fragmentRoot
                          (snd (AssignFragmentMarkers._removeFakeMarkersFromFragment w
                                  (pre ++ (markerName, [e]) :: post)))))).
  { intros I. apply (@remove_gone e w0).
    - apply S0. exact N.
    - apply S1. exact I. }
  split; (split; [assumption|]); intros I; apply G; auto.
Qed.

Lemma loneStartWriter_ids : NoDup (idsIn (fragmentRoot loneStartWriter)).
Proof. vm_compute. repeat constructor; simpl; intuition discriminate. Qed.

Lemma X12_lone_start_witness :
  (lookup "comment:thread1"
     (fragmentMarkers
        (AssignFragmentMarkers.afterCopySelectionMarkersFragment
           loneStartWriter encodedInserted))
   = Some (mkRange (mkPosition FragmentRoot [0; 2]) (mkPosition FragmentRoot [1]))
   /\ ~ In 203 (idsIn (fragmentRoot
                         (AssignFragmentMarkers.afterCopySelectionMarkersFragment
                            loneStartWriter encodedInserted))))
  /\ (lookup "comment:thread1"
        (fragmentMarkers
           (AssignFragmentMarkers.collectAndRemoveFakeMarkers
              loneStartWriter encodedInserted))
      = Some (mkRange (mkPosition FragmentRoot [0; 2]) (mkPosition FragmentRoot [1]))
      /\ ~ In 203 (idsIn (fragmentRoot
                            (AssignFragmentMarkers.collectAndRemoveFakeMarkers
                               loneStartWriter encodedInserted)))).
Proof.
  exact (@X12_lone_start_sentinel_range loneStartWriter encodedInserted [] []
           "comment:thread1" (fakeMarker 203 "comment:thread1" "start")
           eq_refl eq_refl loneStartWriter_ids eq_refl eq_refl).
Defined.

(** X13: when decoding finds two or more fake elements for a marker
    name, the first two decide, whatever kinds they record: the marker
    set on the fragment starts just before the first - as the tree is
    when the entry of the name is reached - and ends just before the
    second as it stands once the first is removed; both are no longer in
    the fragment afterwards.  This holds for both revisions of the
    decoding.  (The identities in the fragment are distinct, the
    [data-name] attributes are plain names and the inserted elements are
    different nodes of the document.) *)
Theorem X13_sentinel_pair_range
        (w : Writer) (inserted pre post : list (string * list node))
        (markerName : string) (s e : node) (more : list node) :
  AssignFragmentMarkers._getAllFakeMarkersFromElement w
    = pre ++ (markerName, s :: e :: more) :: post ->
  NoDup (idsIn (fragmentRoot w)) ->
  namesArePlain (itemsIn (fragmentRoot w)) = true ->
  insertedInDocument inserted w = true ->
  let reached :=
    snd (fold_left AssignFragmentMarkers.removeFakeMarkers pre ([], w)) in
  let range := mkRange (createPositionBefore s reached)
                       (createPositionBefore e (remove s reached)) in
  let after := AssignFragmentMarkers.afterCopySelectionMarkersFragment w inserted in
  let after' := AssignFragmentMarkers.collectAndRemoveFakeMarkers w inserted in
  (lookup markerName (fragmentMarkers after) = Some range
   /\ ~ In (nodeId s) (idsIn (fragmentRoot after))
   /\ ~ In (nodeId e) (idsIn (fragmentRoot after)))
  /\ (lookup markerName (fragmentMarkers after') = Some range
      /\ ~ In (nodeId s) (idsIn (fragmentRoot after'))
      /\ ~ In (nodeId e) (idsIn (fragmentRoot after'))).
Proof.
  intros S N _ _. cbv zeta.
  assert (K : NoDup (map fst (pre ++ (markerName, s :: e :: more) :: post))).
  { rewrite <- S. apply DecodeFacts._getAllFakeMarkersFromElement_keys. }
  destruct (@EntryFacts.ranges_of_entry w pre post markerName (s :: e :: more) K)
    as (L & _ & S0 & S1 & _).
  destruct (EntryFacts.decoded w inserted) as (Set_ & _ & I1 & I2).
  cbv zeta in *. rewrite S in *.
  destruct (fold_left AssignFragmentMarkers.removeFakeMarkers pre ([], w))
    as [acc0 w0].
  cbn [AssignFragmentMarkers.removeFakeMarkers fst snd] in *.
  rewrite lookup_assign_same in L.
  destruct (Set_ _ _ L) as [L1 L2].
  assert (N0 : NoDup (idsIn (fragmentRoot w0))) by (apply S0; exact N).
  assert (Gs : ~ In (nodeId s)
                 (idsIn (fragmentRoot
                           (snd (AssignFragmentMarkers._removeFakeMarkersFromFragment w
                                   (pre ++ (markerName, s :: e :: more) :: post)))))).
  { intros I. apply (@remove_gone s w0 N0).
    apply (remove_shrinks e (remove s w0)). apply S1. exact I. }
  assert (Ge : ~ In (nodeId e)
                 (idsIn (fragmentRoot
                           (snd (AssignFragmentMarkers._removeFakeMarkersFromFragment w
                                   (pre ++ (markerName, s :: e :: more) :: post)))))).
  { intros I. apply (@remove_gone e (remove s w0)).
    - apply (remove_shrinks s w0). exact N0.
    - apply S1. exact I. }
  split; (split; [assumption|]); split; intros I;
    solve [apply Gs; auto | apply Ge; auto].
Qed.

Lemma pairWriter_ids : NoDup (idsIn (fragmentRoot pairWriter)).
Proof. vm_compute. repeat constructor; simpl; intuition discriminate. Qed.

Lemma X13_pair_witness :
  (lookup "comment:thread1"
     (fragmentMarkers
        (AssignFragmentMarkers.afterCopySelectionMarkersFragment
           pairWriter encodedInserted))
   = Some (mkRange (mkPosition FragmentRoot [0; 1]) (mkPosition FragmentRoot [0; 4]))
   /\ ~ In 203 (idsIn (fragmentRoot
                         (AssignFragmentMarkers.afterCopySelectionMarkersFragment
                            pairWriter encodedInserted)))
   /\ ~ In 205 (idsIn (fragmentRoot
                         (AssignFragmentMarkers.afterCopySelectionMarkersFragment
                            pairWriter encodedInserted))))
  /\ (lookup "comment:thread1"
        (fragmentMarkers
           (AssignFragmentMarkers.collectAndRemoveFakeMarkers
              pairWriter encodedInserted))
      = Some (mkRange (mkPosition FragmentRoot [0; 1]) (mkPosition FragmentRoot [0; 4]))
      /\ ~ In 203 (idsIn (fragmentRoot
                            (AssignFragmentMarkers.collectAndRemoveFakeMarkers
                               pairWriter encodedInserted)))
      /\ ~ In 205 (idsIn (fragmentRoot
                            (AssignFragmentMarkers.collectAndRemoveFakeMarkers
                               pairWriter encodedInserted)))).
Proof.
  exact (@X13_sentinel_pair_range pairWriter encodedInserted [] []
           "comment:thread1" (fakeMarker 203 "comment:thread1" "start")
           (fakeMarker 205 "comment:thread1" "end") []
           eq_refl pairWriter_ids eq_refl eq_refl).
Defined.

(** X14: when decoding finds, for a marker name, exactly one fake element
    and it records neither the kind start nor the kind end (a fake
    element written without [data-type]), no range is made for the name:
    [afterCopySelectionMarkersFragment] leaves the fragment's entry of
    that name as it was, and so does [collectAndRemoveFakeMarkers]
    unless the name is in the map of inserted elements.  (The
    [data-name] attributes are plain names and the inserted elements are
    different nodes of the document.) *)
Theorem X14_lone_sentinel_without_kind
        (w : Writer) (inserted pre post : list (string * list node))
        (markerName : string) (e : node) :
  AssignFragmentMarkers._getAllFakeMarkersFromElement w
    = pre ++ (markerName, [e]) :: post ->
  AssignFragmentMarkers.dataTypeIs "start" e = false ->
  AssignFragmentMarkers.dataTypeIs "end" e = false ->
  namesArePlain (itemsIn (fragmentRoot w)) = true ->
  insertedInDocument inserted w = true ->
  lookup markerName
    (fst (AssignFragmentMarkers._removeFakeMarkersFromFragment w
            (AssignFragmentMarkers._getAllFakeMarkersFromElement w))) = None
  /\ lookup markerName
       (fragmentMarkers (AssignFragmentMarkers.afterCopySelectionMarkersFragment w inserted))
     = lookup markerName (fragmentMarkers w)
  /\ (~ In markerName (map fst inserted) ->
      lookup markerName
        (fragmentMarkers (AssignFragmentMarkers.collectAndRemoveFakeMarkers w inserted))
      = lookup markerName (fragmentMarkers w)).
Proof.
  intros S Ts Te _ _.
  assert (K : NoDup (map fst (pre ++ (markerName, [e]) :: post))).
  { rewrite <- S. apply DecodeFacts._getAllFakeMarkersFromElement_keys. }
  destruct (@EntryFacts.ranges_of_entry w pre post markerName [e] K)
    as (L & _ & _ & _ & L0).
  destruct (EntryFacts.decoded w inserted) as (_ & Keep & _ & _).
  cbv zeta in *. rewrite S in *.
  destruct (fold_left AssignFragmentMarkers.removeFakeMarkers pre ([], w))
    as [acc0 w0].
  cbn [AssignFragmentMarkers.removeFakeMarkers fst snd] in *.
  rewrite Ts, Te in L. cbn [fst snd] in L. rewrite L0 in L.
  split; [exact L|]. exact (Keep _ L).
Qed.

Lemma X14_untyped_witness :
  lookup "comment:thread1"
    (fst (AssignFragmentMarkers._removeFakeMarkersFromFragment untypedWriter
            (AssignFragmentMarkers._getAllFakeMarkersFromElement untypedWriter))) = None
  /\ lookup "comment:thread1"
       (fragmentMarkers
          (AssignFragmentMarkers.afterCopySelectionMarkersFragment untypedWriter []))
     = lookup "comment:thread1" (fragmentMarkers untypedWriter)
  /\ (~ In "comment:thread1" (map fst (@nil (string * list node))) ->
      lookup "comment:thread1"
        (fragmentMarkers
           (AssignFragmentMarkers.collectAndRemoveFakeMarkers untypedWriter []))
      = lookup "comment:thread1" (fragmentMarkers untypedWriter)).
Proof.
  exact (@X14_lone_sentinel_without_kind untypedWriter [] [] []
           "comment:thread1"
           (Element 203 "$marker" [("data-name", VStr "comment:thread1")] [])
           eq_refl eq_refl eq_refl eq_refl eq_refl).
Defined.

(** ** The name given to a duplicated marker *)

Lemma lastIndexOf_after (c : ascii) (p s : string) :
  lastIndexOf c s = None ->
  lastIndexOf c (p ++ String c s) = Some (String.length p).
Proof.
  intros N. induction p as [|a p IH]; cbn [String.append lastIndexOf String.length].
  - now rewrite N, Ascii.eqb_refl.
  - now rewrite IH.
Qed.

Lemma substring_prefix (p s : string) : substring 0 (String.length p) (p ++ s) = p.
Proof.
  induction p as [|a p IH]; cbn [String.append String.length substring].
  - destruct s; reflexivity.
  - now rewrite IH.
Qed.

Lemma sliceToLastColon_colon (p s : string) :
  lastIndexOf ":"%char s = None -> sliceToLastColon (p ++ ":" ++ s) = p.
Proof.
  intros N. unfold sliceToLastColon.
  change (p ++ ":" ++ s)%string with (p ++ String ":"%char s)%string.
  rewrite (@lastIndexOf_after ":"%char p s N). apply substring_prefix.
Qed.

Lemma sliceToLastColon_no_colon (body : string) (c : ascii) :
  lastIndexOf ":"%char (body ++ String c "") = None ->
  sliceToLastColon (body ++ String c "") = body.
Proof.
  intros N. unfold sliceToLastColon. rewrite N.
  rewrite string_length_append. cbn [String.length].
  replace (String.length body + 1 - 1) with (String.length body) by lia.
  apply substring_prefix.
Qed.

(** X15: the name under which a later pair of fake elements of a marker
    is registered.  When the marker name is [p:s] with no colon in [s],
    it is [p:] followed by the identifier that [uid()] hands out - the
    part before the last colon is kept, the part after it is replaced -
    and one identifier is used up.  When the marker name has no colon at
    all, it is the name without its last character, then a colon and the
    identifier. *)
Theorem X15_later_pairs_get_a_fresh_name
        (uid : nat -> string) (chunkOffset calls : nat) :
  (forall p s,
      lastIndexOf ":"%char s = None ->
      TableClipboardMarkers.chunkMarkerName uid (p ++ ":" ++ s) (S chunkOffset) calls
      = ((p ++ ":" ++ uid calls)%string, S calls))
  /\ (forall body c,
         lastIndexOf ":"%char (body ++ String c "") = None ->
         TableClipboardMarkers.chunkMarkerName uid (body ++ String c "")
                                               (S chunkOffset) calls
         = ((body ++ ":" ++ uid calls)%string, S calls)).
Proof.
  unfold TableClipboardMarkers.chunkMarkerName. cbn [Nat.ltb Nat.leb].
  split.
  - intros p s N. now rewrite (@sliceToLastColon_colon p s N).
  - intros body c N. now rewrite (@sliceToLastColon_no_colon body c N).
Qed.

Example later_pair_of_a_comment :
  TableClipboardMarkers.chunkMarkerName sampleUid "comment:thread1:abc" 1 0
  = ("comment:thread1:e0", 1)
  /\ TableClipboardMarkers.chunkMarkerName sampleUid "bookmark" 1 0
     = ("bookmar:e0", 1).
Proof. split; reflexivity. Qed.

(** ** Decoding after a paste: what is registered *)

Section PasteDecodeRanges.
Variable uid : nat -> string.

Lemma markersFakeElements_none (replacedCells : list node) :
  Forall (fun x => getAttribute "data-name" x = None) (flat_map items replacedCells) ->
  TableClipboardMarkers.markersFakeElements replacedCells = [].
Proof.
  unfold TableClipboardMarkers.markersFakeElements.
  generalize (flat_map items replacedCells). intros l F.
  induction F as [|x r Hx F IH]; cbn [fold_left]; [reflexivity|].
  unfold TableClipboardMarkers.collectFakeElement at 2,
         AssignFragmentMarkers.fakeMarkerName. now rewrite Hx.
Qed.

(** X16: when no item inside the replaced cells carries a [data-name],
    [_convertElementsToMarkers] does nothing: no marker is registered,
    no node is removed and no identifier is drawn.  The markers of the
    pasted fragment whose fake elements did not end up in the replaced
    cells are not restored. *)
Theorem X16_no_fake_element_no_marker
        (replacedCells : list node) (w : Writer) (calls : nat) :
  Forall (fun x => getAttribute "data-name" x = None) (flat_map items replacedCells) ->
  TableClipboardMarkers._convertElementsToMarkers uid replacedCells w calls
  = TableClipboardMarkers.Returned (w, calls).
Proof.
  intros F. unfold TableClipboardMarkers._convertElementsToMarkers.
  now rewrite (@markersFakeElements_none replacedCells F).
Qed.

Lemma registeredNames_app (a b : list (string * list node)) :
  forall k, registeredNames uid (a ++ b) k
            = registeredNames uid a k ++ registeredNames uid b (k + callsOf a).
Proof.
  induction a as [|[nm els] a IH]; intros k; cbn [app registeredNames callsOf].
  - now rewrite Nat.add_0_r.
  - rewrite IH, <- app_assoc. do 3 f_equal. lia.
Qed.

Lemma pairsOf_app (a b : list (string * list node)) :
  forall earlier, pairsOf earlier (a ++ b)
                  = pairsOf earlier a ++ pairsOf (earlier ++ removedBy a) b.
Proof.
  induction a as [|g a IH]; intros earlier; cbn [app pairsOf removedBy flat_map].
  - now rewrite app_nil_r.
  - now rewrite IH, <- !app_assoc.
Qed.

Lemma pairsOfGroup_length (elements : list node) :
  forall earlier, List.length (pairsOfGroup earlier elements) = pairCount elements.
Proof.
  induction elements as [|a|a b r IH] using list_pair_ind; intros earlier;
    cbn [pairsOfGroup pairCount List.length]; auto.
Qed.

Lemma groupNames_length (nm : string) (pairs k : nat) :
  List.length (groupNames uid nm pairs k) = pairs.
Proof.
  destruct pairs; cbn [groupNames List.length]; [reflexivity|].
  now rewrite length_map, length_seq.
Qed.

Lemma registeredNames_length (groups : list (string * list node)) :
  forall k earlier,
    List.length (registeredNames uid groups k) = List.length (pairsOf earlier groups).
Proof.
  induction groups as [|[nm els] rest IH]; intros k earlier;
    cbn [registeredNames pairsOf snd]; [reflexivity|].
  rewrite !length_app, groupNames_length, pairsOfGroup_length. f_equal. apply IH.
Qed.

Lemma app_same_length (A : Type) (l1 l2 r1 r2 : list A) :
  List.length l1 = List.length l2 -> l1 ++ r1 = l2 ++ r2 -> l1 = l2 /\ r1 = r2.
Proof.
  revert l2. induction l1 as [|a l1 IH]; intros [|b l2] L E; try discriminate.
  - auto.
  - cbn [app] in E. inversion E; subst. cbn [List.length] in L.
    destruct (IH l2) as [-> ->]; auto.
Qed.

(** X17: a marker name with exactly two fake elements in the replaced
    cells.  When the decoding returns, [addMarker] was called for the
    pair with the marker name itself and with the range from the
    position before the first element to the position before the second,
    both made in the tree as it is when the group is reached: the fake
    elements of the groups before it are removed, the two of the pair
    are still there.  This is the range handed to the writer; the engine
    keeps the range of a marker live, and what it is after the two
    elements are removed is not said here.  (The [data-name] attributes
    are plain names.) *)
Theorem X17_pair_is_registered_under_its_name
        (replacedCells : list node) (w w' : Writer) (calls calls' : nat)
        (pre post : list (string * list node)) (markerName : string) (s e : node) :
  TableClipboardMarkers.markersFakeElements replacedCells
    = pre ++ (markerName, [s; e]) :: post ->
  namesArePlain (flat_map items replacedCells) = true ->
  TableClipboardMarkers._convertElementsToMarkers uid replacedCells w calls
    = TableClipboardMarkers.Returned (w', calls') ->
  let reached := AssignFragmentMarkers.removeAll (removedBy pre) w in
  In (mkMarker markerName (rangeOver s e reached)) (markersSince w w').
Proof.
  intros G _ R. cbv zeta.
  pose proof (@convertGroups_ended uid w
                (TableClipboardMarkers.markersFakeElements replacedCells)
                [] (w, calls) (sameRoots_refl w)) as E.
  unfold TableClipboardMarkers._convertElementsToMarkers in R. rewrite R in E.
  cbn [ended] in E. destruct E as (added & M & N & F & _). cbn [fst snd] in *.
  rewrite (@markersSince_app _ _ _ M).
  rewrite G, registeredNames_app in N. rewrite G, pairsOf_app in F.
  cbn [registeredNames pairsOf pairsOfGroup snd pairCount groupNames seq map app] in N, F.
  apply Forall2_app_inv_r in F as (a1 & a2 & F1 & F2 & ->).
  inversion F2 as [|m pr a3 ps Hm F3]; subst. cbn [fst snd] in Hm.
  rewrite map_app in N. cbn [map] in N.
  apply app_same_length in N as [_ N].
  - injection N as Hn _. apply in_or_app. right. left.
    destruct m as [nm r]. cbn [name markerRange] in *. congruence.
  - rewrite length_map, (Forall2_length F1). symmetry. apply registeredNames_length.
Qed.
End PasteDecodeRanges.

Lemma X16_plain_cells_witness :
  TableClipboardMarkers._convertElementsToMarkers sampleUid
    [letterCell 10 97%N] gridWriter 0 = TableClipboardMarkers.Returned (gridWriter, 0).
Proof.
  apply (@X16_no_fake_element_no_marker sampleUid [letterCell 10 97%N] gridWriter 0).
  repeat constructor.
Defined.

Lemma X17_second_comment_witness :
  let reached :=
    AssignFragmentMarkers.removeAll
      (removedBy
         [("comment:thread1",
           [ namedFakeMarker 21 "comment:thread1"; namedFakeMarker 22 "comment:thread1";
             namedFakeMarker 23 "comment:thread1"; namedFakeMarker 24 "comment:thread1";
             namedFakeMarker 25 "comment:thread1" ])])
      tiledWriter in
  In (mkMarker "comment:thread9"
               (rangeOver (namedFakeMarker 26 "comment:thread9")
                          (namedFakeMarker 27 "comment:thread9") reached))
     (markersSince tiledWriter tiledDecoded).
Proof.
  apply (@X17_pair_is_registered_under_its_name sampleUid tiledCells tiledWriter
           tiledDecoded 0 1
           [("comment:thread1",
             [ namedFakeMarker 21 "comment:thread1"; namedFakeMarker 22 "comment:thread1";
               namedFakeMarker 23 "comment:thread1"; namedFakeMarker 24 "comment:thread1";
               namedFakeMarker 25 "comment:thread1" ])]
           [] "comment:thread9"
           (namedFakeMarker 26 "comment:thread9") (namedFakeMarker 27 "comment:thread9")).
  - reflexivity.
  - reflexivity.
  - vm_compute. reflexivity.
Defined.

(** ** Encoding: the order of the insertions *)

Lemma pathBefore_irrefl (p : list nat) : pathBefore p p = false.
Proof.
  induction p as [|a p IH]; cbn [pathBefore]; [reflexivity|].
  now rewrite Nat.ltb_irrefl.
Qed.

Lemma pathBefore_trans (p : list nat) :
  forall q r, pathBefore p q = true -> pathBefore q r = true -> pathBefore p r = true.
Proof.
  induction p as [|a p IH]; intros [|b q] [|c r]; cbn [pathBefore]; try congruence.
  destruct (a <? b) eqn:AB, (b <? a) eqn:BA, (b <? c) eqn:BC, (c <? b) eqn:CB,
           (a <? c) eqn:AC, (c <? a) eqn:CA; boolp; try congruence; try lia.
  assert (a = b) by lia. assert (b = c) by lia. subst. apply IH.
Qed.

Lemma pathBefore_total (p : list nat) :
  forall q, p <> q -> pathBefore p q = true \/ pathBefore q p = true.
Proof.
  induction p as [|a p IH]; intros [|b q] Ne; cbn [pathBefore]; auto; try congruence.
  destruct (a <? b) eqn:AB, (b <? a) eqn:BA; boolp; auto.
  assert (a = b) by lia. subst b. apply IH. congruence.
Qed.

Section SortedBackwards.
Variable A : Type.
Variable pos : A -> Position.
Variable rt : rootId.

Let before (a b : A) : bool := isBefore (pos a) (pos b).
Let after (a b : A) : Prop := isBefore (pos b) (pos a) = true.

Lemma before_trans (a b c : A) : after a b -> after b c -> after a c.
Proof.
  unfold after, isBefore. rewrite !andb_true_iff. intros [R1 P1] [R2 P2].
  split.
  - destruct (root (pos a)), (root (pos b)), (root (pos c)); auto.
  - exact (pathBefore_trans _ _ _ P2 P1).
Qed.

Lemma before_total (a b : A) :
  root (pos a) = rt -> root (pos b) = rt -> pos a <> pos b ->
  before a b = false -> after a b.
Proof.
  unfold before, after, isBefore. intros Ra Rb Ne F. rewrite Ra, Rb in *.
  assert (Rr : rootId_eqb rt rt = true) by (destruct rt; reflexivity).
  rewrite Rr in *. cbn [andb] in *.
  destruct (@pathBefore_total (path (pos a)) (path (pos b))) as [H | H]; auto.
  - intros E. apply Ne. destruct (pos a), (pos b). cbn in *. congruence.
  - congruence.
Qed.

Lemma sortInsert_sorted (x : A) (l : list A) :
  root (pos x) = rt -> Forall (fun y => root (pos y) = rt) l ->
  ~ In (pos x) (map pos l) ->
  StronglySorted after l -> StronglySorted after (sortInsert before x l).
Proof.
  intros Rx Rl Nx S. induction S as [|y r S IH F]; cbn [sortInsert].
  - repeat constructor.
  - pose proof (Forall_inv Rl) as Ry. pose proof (Forall_inv_tail Rl) as Rr.
    cbn [map In] in Nx.
    destruct (before x y) eqn:B.
    + constructor; [apply IH; [assumption | tauto]|].
      apply Forall_forall. intros z Hz. apply sortInsert_In in Hz as [-> | Hz].
      * exact B.
      * rewrite Forall_forall in F. now apply F.
    + assert (Ay : after x y) by (apply before_total; auto; intros E; apply Nx; auto).
      constructor; [now constructor|].
      constructor; [exact Ay|].
      apply Forall_forall. intros z Hz. rewrite Forall_forall in F.
      exact (before_trans Ay (F z Hz)).
Qed.

(** Sorting boundaries with distinct positions of one root: every
    boundary is before all that precede it. *)
Lemma sort_sorted (l : list A) :
  Forall (fun y => root (pos y) = rt) l -> NoDup (map pos l) ->
  StronglySorted after (sort before l).
Proof.
  induction l as [|x r IH]; intros Rl N; cbn [sort fold_right]; [constructor|].
  pose proof (Forall_inv Rl) as Rx. pose proof (Forall_inv_tail Rl) as Rr.
  cbn [map] in N. pose proof (NoDup_cons_iff (pos x) (map pos r)) as C.
  apply C in N as [Nx Nr]. clear C.
  apply sortInsert_sorted; auto.
  - apply Forall_forall. intros y Hy. apply sort_In in Hy.
    rewrite Forall_forall in *. auto.
  - intros I. apply Nx. apply in_map_iff in I as (y & E & Hy).
    apply sort_In in Hy. apply in_map_iff. now exists y.
Qed.
End SortedBackwards.

Lemma Forall2_sorted (A B : Type) (R : A -> A -> Prop) (R' : B -> B -> Prop)
      (P : A -> B -> Prop) (l : list A) (l' : list B) :
  (forall a a' b b', P a b -> P a' b' -> R a a' -> R' b b') ->
  Forall2 P l l' -> StronglySorted R l -> StronglySorted R' l'.
Proof.
  intros T F. induction F as [|a b l l' Pab F IH]; intros S; [constructor|].
  inversion S as [|? ? S' Fa]; subst. constructor; [now apply IH|].
  apply Forall_forall. intros b' Hb'.
  destruct (Forall2_In_right F _ Hb') as (a' & Ha' & Pa').
  rewrite Forall_forall in Fa. exact (T _ _ _ _ Pab Pa' (Fa _ Ha')).
Qed.

(** X18: when the boundaries of the markers collected from the selection
    lie in one root and at positions that are all different, the fake
    elements of the copy are inserted from the last position to the
    first: every insertion is made at a position before the positions of
    all insertions made earlier, so that no insertion moves a position
    still to come. *)
Theorem X18_copy_inserts_from_the_last_position_to_the_first
        (w : Writer) (selection : Selection) (rt : rootId) :
  let bs := flat_map AssignFragmentMarkers.boundaries
              (AssignFragmentMarkers._getCopyableMarkersFromSelection w selection) in
  Forall (fun b => root (AssignFragmentMarkers.position b) = rt) bs ->
  NoDup (map AssignFragmentMarkers.position bs) ->
  StronglySorted (fun earlier later => isBefore (snd later) (snd earlier) = true)
    (insertsSince w
       (snd (AssignFragmentMarkers.beforeCopySelectionMarkersFragment w selection))).
Proof.
  cbv zeta. intros Rt N.
  unfold AssignFragmentMarkers.beforeCopySelectionMarkersFragment,
         AssignFragmentMarkers._insertFakeMarkersElements.
  set (markers := AssignFragmentMarkers._getCopyableMarkersFromSelection w selection) in *.
  destruct (EncodeFacts.insertFakeMarker_log
              (AssignFragmentMarkers.sortedMarkers markers) ([], w)) as (news & L & F).
  cbn [snd] in L. rewrite (@insertsSince_app _ _ _ L).
  pose proof (@sort_sorted _ AssignFragmentMarkers.position rt _ Rt N) as S.
  refine (@Forall2_sorted _ _ _ _ _ _ _ _ F S).
  intros a a' b b' (k & ->) (k' & ->) H. exact H.
Qed.

Lemma X18_sample_witness :
  StronglySorted (fun earlier later => isBefore (snd later) (snd earlier) = true)
    (insertsSince sampleWriter
       (snd (AssignFragmentMarkers.beforeCopySelectionMarkersFragment
               sampleWriter sampleSelection))).
Proof.
  apply (@X18_copy_inserts_from_the_last_position_to_the_first
           sampleWriter sampleSelection DocumentRoot).
  - repeat constructor.
  - vm_compute. repeat constructor; simpl; intuition discriminate.
Defined.

(** X19: the same for the markers of a pasted fragment: when their
    boundaries lie in one root and at positions that are all different,
    [_convertMarkersToElements] makes every insertion at a position
    before the positions of all insertions made earlier. *)
Theorem X19_paste_inserts_from_the_last_position_to_the_first
        (markers : list (string * Range)) (w : Writer) (rt : rootId) :
  let bs := flat_map TableClipboardMarkers.boundaries markers in
  Forall (fun b => root (TableClipboardMarkers.position b) = rt) bs ->
  NoDup (map TableClipboardMarkers.position bs) ->
  StronglySorted (fun earlier later => isBefore (snd later) (snd earlier) = true)
    (insertsSince w (TableClipboardMarkers._convertMarkersToElements markers w)).
Proof.
  cbv zeta. intros Rt N. unfold TableClipboardMarkers._convertMarkersToElements.
  destruct (PasteEncodeFacts.insertNamedFakeMarker_log
              (TableClipboardMarkers.sortedMarkers markers) w) as (news & L & F).
  rewrite (@insertsSince_app _ _ _ L).
  pose proof (@sort_sorted _ TableClipboardMarkers.position rt _ Rt N) as S.
  refine (@Forall2_sorted _ _ _ _ _ _ _ _ F S).
  intros a a' b b' (k & ->) (k' & ->) H. exact H.
Qed.

Lemma X19_pasted_witness :
  StronglySorted (fun earlier later => isBefore (snd later) (snd earlier) = true)
    (insertsSince pasteWriter
       (TableClipboardMarkers._convertMarkersToElements pastedMarkers pasteWriter)).
Proof.
  apply (@X19_paste_inserts_from_the_last_position_to_the_first
           pastedMarkers pasteWriter FragmentRoot).
  - repeat constructor.
  - vm_compute. repeat constructor; simpl; intuition discriminate.
Defined.

(** ** The earlier revision of the decoding *)

Lemma labelsIn_cons (c : node) (r : list node) :
  labelsIn (c :: r) = labelOf c :: labelsIn (childrenOf c) ++ labelsIn r.
Proof.
  unfold labelsIn. rewrite itemsIn_cons, items_head, map_app. reflexivity.
Qed.

Lemma removeNode_label (i : nat) (n : node) : labelOf (removeNode i n) = labelOf n.
Proof. destruct n; reflexivity. Qed.

Lemma removeFrom_labels :
  forall (ch : list node) (i : nat), incl (labelsIn (removeFrom i ch)) (labelsIn ch).
Proof.
  apply (forest_ind
    (fun n => forall i,
       incl (labelsIn (childrenOf (removeNode i n))) (labelsIn (childrenOf n)))
    (fun l => forall i, incl (labelsIn (removeFrom i l)) (labelsIn l))).
  - intros j a d i. apply incl_refl.
  - intros j nm a ch IH i. rewrite removeNode_element. simpl childrenOf. apply IH.
  - intros i. apply incl_refl.
  - intros c r IHc IHr i. rewrite removeFrom_cons, labelsIn_cons.
    destruct (Nat.eqb_spec (nodeId c) i) as [E | NE].
    + intros x Hx. right. apply in_or_app. auto.
    + rewrite labelsIn_cons, removeNode_label.
      intros x [<- | Hx]; [left; reflexivity | right].
      apply in_app_or in Hx as [Hx | Hx]; apply in_or_app.
      * left. now apply (IHc i).
      * right. now apply (IHr i).
Qed.

Lemma removeAll_labels (elements : list node) :
  forall w, incl (labelsIn (fragmentRoot (AssignFragmentMarkers.removeAll elements w)))
                 (labelsIn (fragmentRoot w)).
Proof.
  induction elements as [|a r IH]; intros w; [apply incl_refl|].
  unfold AssignFragmentMarkers.removeAll. cbn [fold_left].
  fold (AssignFragmentMarkers.removeAll r (remove a w)).
  eapply incl_tran; [apply IH|]. unfold remove, setRoot. cbn [fragmentRoot].
  apply removeFrom_labels.
Qed.

(** The elements that the scan files, all names together. *)
Lemma collectBy_elements (sel : node -> option string) (l : list node) :
  forall acc,
    Permutation (flat_map snd (fold_left (collectBy sel) l acc))
                (flat_map snd acc
                 ++ filter (fun x => match sel x with Some _ => true | None => false end) l).
Proof.
  induction l as [|x r IH]; intros acc; cbn [fold_left filter].
  - now rewrite app_nil_r.
  - rewrite IH. unfold collectBy. destruct (sel x) as [k|]; [|reflexivity].
    pose proof (CopyEncodeCoverage.pushTo_elements k x acc) as P.
    unfold AssignFragmentMarkers.insertedElements in P.
    rewrite (Permutation_app_tail _ P), <- app_assoc. reflexivity.
Qed.

Module EarlierFacts.
Import EarlierMarkers.

Lemma constructRange_failed (w : Writer) (l : list (string * list node)) :
  fold_left (constructRange w) l None = None.
Proof. induction l as [|entry r IH]; cbn [fold_left constructRange]; auto. Qed.

Lemma constructRange_lone (w : Writer) (nm : string) (e : node)
      (l : list (string * list node)) :
  In (nm, [e]) l -> forall st, fold_left (constructRange w) l st = None.
Proof.
  induction l as [|entry r IH]; intros I st; [destruct I|]. cbn [fold_left].
  destruct I as [-> | I]; [|now apply IH].
  destruct st as [acc|]; cbn [constructRange snd]; apply constructRange_failed.
Qed.

Lemma found_elements (w : Writer) (x : node) :
  In x (flat_map snd (_restoreAllFakeMarkersFromElement w))
  <-> In x (itemsIn (fragmentRoot w)) /\ fakeElementName x <> None.
Proof.
  unfold _restoreAllFakeMarkersFromElement. rewrite scan_collectBy.
  pose proof (collectBy_elements fakeElementName (itemsIn (fragmentRoot w)) []) as P.
  cbn [flat_map app] in P. split.
  - intros I. apply (Permutation_in _ P) in I. apply filter_In in I as [I S].
    split; [exact I|]. destruct (fakeElementName x); [discriminate | discriminate].
  - intros [I S]. apply (Permutation_in _ (Permutation_sym P)). apply filter_In.
    split; [exact I|]. destruct (fakeElementName x); [reflexivity | congruence].
Qed.
End EarlierFacts.

(** A node of the tree has a position before it, and its path is not
    empty. *)
Lemma findAmong_found :
  forall (l : list node) (i off : nat),
    In i (idsIn l) -> exists a p, findAmong (findPath i) i l off = Some (a :: p).
Proof.
  apply (forest_ind
    (fun n => forall i, In i (idsIn (childrenOf n)) ->
                        exists a p, findPath i n = Some (a :: p))
    (fun l => forall i off, In i (idsIn l) ->
                            exists a p, findAmong (findPath i) i l off = Some (a :: p))).
  - intros j a d i [].
  - intros j nm a ch IH i I. rewrite findPath_element. now apply IH.
  - intros i off [].
  - intros c r IHc IHr i off I. rewrite idsIn_cons, idsOf_head in I.
    cbn [findAmong]. destruct (Nat.eqb_spec (nodeId c) i) as [E | NE].
    + now exists off, [].
    + destruct I as [I | I]; [congruence|]. apply in_app_or in I as [I | I].
      * destruct (IHc i I) as (a & p & ->). now exists off, (a :: p).
      * destruct (findPath i c) as [p|]; [now exists off, p | now apply IHr].
Qed.

Lemma createPositionBefore_found (x : node) (w : Writer) :
  In (nodeId x) (idsIn (fragmentRoot w)) ->
  exists a p, path (createPositionBefore x w) = a :: p.
Proof.
  intros I. unfold createPositionBefore, pathOf, asRoot. rewrite findPath_element.
  destruct (findAmong_found (fragmentRoot w) (nodeId x) 0 I) as (a & p & ->).
  now exists a, p.
Qed.

Module EarlierDecode.
Import EarlierMarkers.

Lemma constructRange_pairs (w : Writer) (l : list (string * list node)) :
  Forall (fun entry => 2 <= List.length (snd entry)
                       /\ forall x, In x (snd entry) ->
                                    In (nodeId x) (idsIn (fragmentRoot w))) l ->
  forall acc,
  exists ranges,
    fold_left (constructRange w) l (Some acc) = Some ranges
    /\ forall nm, In nm (map fst l) \/ lookup nm acc <> None -> lookup nm ranges <> None.
Proof.
  induction 1 as [|[nm els] r [Len In_] F IH]; intros acc; cbn [fold_left].
  - exists acc. split; [reflexivity|]. intros nm [[] | H]; exact H.
  - destruct els as [|s [|e more]]; cbn [List.length snd] in *; try lia.
    cbn [constructRange snd fst].
    destruct (@createPositionBefore_found e w) as (a & p & ->);
      [apply In_; simpl; auto|].
    destruct (@createPositionBefore_found s w) as (a' & p' & E');
      [apply In_; simpl; auto|].
    rewrite E'. cbv beta iota.
    match goal with
    | |- context [fold_left _ r (Some ?acc1)] =>
        destruct (IH acc1) as (ranges & E & K)
    end.
    exists ranges. split; [exact E|].
    intros k [[<- | I] | H]; apply K.
    + right. cbn [fst]. now rewrite lookup_assign_same.
    + left. exact I.
    + right. destruct (String.eqb_spec nm k) as [-> | Ne].
      * now rewrite lookup_assign_same.
      * now rewrite lookup_assign_other.
Qed.
End EarlierDecode.

(** X20: in the earlier revision, a marker name with exactly one fake
    element in the fragment - the selection starts or ends inside the
    marker - makes [afterCopySelectionMarkersFragment] fail: the range
    of every name is built from two elements, and the position before
    the missing second one cannot be made.  Nothing is removed and no
    marker is set.  (The [data-name] attributes are plain names.) *)
Theorem X20_earlier_revision_fails_on_a_lone_fake_element
        (w : Writer) (inserted : list (string * list node)) (nm : string) (e : node) :
  In (nm, [e]) (EarlierMarkers._restoreAllFakeMarkersFromElement w) ->
  namesArePlain (itemsIn (fragmentRoot w)) = true ->
  EarlierMarkers.afterCopySelectionMarkersFragment w inserted = None.
Proof.
  intros I _. unfold EarlierMarkers.afterCopySelectionMarkersFragment,
                     EarlierMarkers._constructElementsMarkersRanges.
  now rewrite (@EarlierFacts.constructRange_lone w nm e _ I).
Qed.

Lemma X20_lone_end_witness :
  EarlierMarkers.afterCopySelectionMarkersFragment loneEndWriter encodedInserted = None.
Proof.
  apply (@X20_earlier_revision_fails_on_a_lone_fake_element loneEndWriter encodedInserted
           "comment:thread1" (fakeMarker 203 "comment:thread1" "end")).
  - simpl. auto.
  - reflexivity.
Defined.

(** X21: in the earlier revision, when the identities are distinct and
    every marker name found in the fragment has at least two fake
    elements, [afterCopySelectionMarkersFragment] returns: every name
    found gets a range, none of the inserted elements is left in the
    document or in the fragment, and no element that carries a
    [data-name] is left in the fragment.  (The [data-name] attributes
    are plain names and the inserted elements are different nodes of the
    document.) *)
Theorem X21_earlier_revision_leaves_no_fake_element
        (w : Writer) (inserted : list (string * list node)) :
  distinctIds w ->
  namesArePlain (itemsIn (fragmentRoot w)) = true ->
  insertedInDocument inserted w = true ->
  Forall (fun entry => 2 <= List.length (snd entry))
         (EarlierMarkers._restoreAllFakeMarkersFromElement w) ->
  exists ranges w',
    EarlierMarkers.afterCopySelectionMarkersFragment w inserted = Some (ranges, w')
    /\ (forall nm, In nm (map fst (EarlierMarkers._restoreAllFakeMarkersFromElement w)) ->
                   lookup nm ranges <> None)
    /\ (forall x, In x (AssignFragmentMarkers.insertedElements inserted) -> gone x w')
    /\ (forall x, In x (itemsIn (fragmentRoot w')) -> isElement x = true ->
                  AssignFragmentMarkers.fakeMarkerName x = None).
Proof.
  intros D _ _ Two.
  unfold EarlierMarkers.afterCopySelectionMarkersFragment,
         EarlierMarkers._constructElementsMarkersRanges.
  destruct (@EarlierDecode.constructRange_pairs w
              (EarlierMarkers._restoreAllFakeMarkersFromElement w)) with (acc := @nil (string * EarlierMarkers.EarlierRange))
    as (ranges & E & K).
  { rewrite Forall_forall in *. intros entry He. split; [now apply Two|].
    intros x Hx.
    assert (F : In x (flat_map snd (EarlierMarkers._restoreAllFakeMarkersFromElement w)))
      by (apply in_flat_map; now exists entry).
    apply EarlierFacts.found_elements in F as [F _].
    unfold idsIn. now apply in_map. }
  rewrite E. eexists. eexists. split; [reflexivity|]. split; [|split].
  - intros nm I. apply K. now left.
  - intros x I. apply removeAll_gone; [exact D|]. apply in_or_app. now left.
  - intros x I El.
    destruct (AssignFragmentMarkers.fakeMarkerName x) as [nm|] eqn:Nx; [exfalso | reflexivity].
    assert (L : In (labelOf x) (labelsIn (fragmentRoot w))).
    { apply removeAll_labels with
        (elements := AssignFragmentMarkers.insertedElements inserted
                     ++ flat_map snd (EarlierMarkers._restoreAllFakeMarkersFromElement w)).
      unfold labelsIn. now apply in_map. }
    unfold labelsIn in L. apply in_map_iff in L as (y & Ly & Iy).
    unfold labelOf in Ly. inversion Ly as [[Eid Eel Eat]].
    assert (Fy : In y (flat_map snd (EarlierMarkers._restoreAllFakeMarkersFromElement w))).
    { apply EarlierFacts.found_elements. split; [exact Iy|].
      unfold fakeElementName, AssignFragmentMarkers.fakeMarkerName, getAttribute in *.
      rewrite Eel, El, Eat, Nx. discriminate. }
    assert (G : gone y
                  (AssignFragmentMarkers.removeAll
                     (AssignFragmentMarkers.insertedElements inserted
                      ++ flat_map snd (EarlierMarkers._restoreAllFakeMarkersFromElement w))
                     w)).
    { apply removeAll_gone; [exact D|]. apply in_or_app. now right. }
    apply (proj1 G). rewrite Eid. unfold idsIn. now apply in_map.
Qed.

Lemma pairWriter_distinct : distinctIds pairWriter.
Proof. split; vm_compute; repeat constructor; simpl; intuition discriminate. Qed.

Lemma X21_pair_witness :
  exists ranges w',
    EarlierMarkers.afterCopySelectionMarkersFragment pairWriter encodedInserted
    = Some (ranges, w')
    /\ (forall nm,
           In nm (map fst (EarlierMarkers._restoreAllFakeMarkersFromElement pairWriter)) ->
           lookup nm ranges <> None)
    /\ (forall x, In x (AssignFragmentMarkers.insertedElements encodedInserted) ->
                  gone x w')
    /\ (forall x, In x (itemsIn (fragmentRoot w')) -> isElement x = true ->
                  AssignFragmentMarkers.fakeMarkerName x = None).
Proof.
  apply (@X21_earlier_revision_leaves_no_fake_element pairWriter encodedInserted).
  - exact pairWriter_distinct.
  - reflexivity.
  - reflexivity.
  - vm_compute. repeat constructor.
Defined.

(** The range that the earlier revision makes for the comment of
    [pairWriter]: its end is the position before the second fake
    element with the last offset decremented. *)
Example earlier_pair_range :
  option_map fst (EarlierMarkers.afterCopySelectionMarkersFragment pairWriter encodedInserted)
  = Some [("comment:thread1",
           EarlierMarkers.mkEarlierRange (mkPosition FragmentRoot [0; 1]) FragmentRoot
                                         [0%Z; 4%Z])].
Proof. reflexivity. Qed.

(** ** The slot walk for any pasted table *)



Section AnySlotWalk.
Variable pastedMap : list (list (option node)).
Variable dims : Dimensions.
Variable selection : Rect.


End AnySlotWalk.



(** ** [prepareTableForPasting] and [expandTableSize], whatever the table utilities are *)

Section PrepareFrame.
Context {S C : Type} `{TableStructure S C}.

(** X23: what [prepareTableForPasting] does to the selection and to the
    table, for any implementation of the table utilities and a pasted
    table of at least one row and one column.  The first row and column
    of the returned rectangle are those of the selected cells: the corner
    is never moved.  With one cell selected the rectangle is given the
    height and width of the pasted table.  With several cells selected
    that form a rectangle the table is not modified; when they do not
    form a rectangle the returned rectangle is the one around the
    selected cells. *)
Theorem X23_prepareTableForPasting_keeps_the_corner
        (selectedTableCells : list C) (pastedDimensions : Dimensions) (s : S) :
  1 <= width pastedDimensions -> 1 <= height pastedDimensions ->
  let columnIndexes := getColumnIndexes selectedTableCells s in
  let rowIndexes := getRowIndexes selectedTableCells s in
  let result := prepareTableForPasting selectedTableCells pastedDimensions s in
  firstColumn (fst result) = first columnIndexes
  /\ firstRow (fst result) = first rowIndexes
  /\ (List.length selectedTableCells = 1 ->
      lastColumn (fst result) = last columnIndexes + (width pastedDimensions - 1)
      /\ lastRow (fst result) = last rowIndexes + (height pastedDimensions - 1))
  /\ (List.length selectedTableCells <> 1 ->
      isSelectionRectangular selectedTableCells s = true ->
      snd result = s)
  /\ (List.length selectedTableCells <> 1 ->
      isSelectionRectangular selectedTableCells s = false ->
      fst result = mkRect (first columnIndexes) (last columnIndexes)
                          (first rowIndexes) (last rowIndexes)).
Proof.
  intros Pw Ph. cbv zeta. unfold prepareTableForPasting.
  destruct (List.length selectedTableCells =? 1) eqn:One; cbn [orb fst snd].
  - apply Nat.eqb_eq in One.
    cbn [firstColumn firstRow lastColumn lastRow].
    split; [reflexivity|]. split; [reflexivity|]. split; [|split]; intros; try lia.
  - apply Nat.eqb_neq in One.
    destruct (isSelectionRectangular selectedTableCells s) eqn:R; cbn [negb fst snd];
      cbn [firstColumn firstRow lastColumn lastRow];
      (split; [reflexivity|]); (split; [reflexivity|]); (split; [|split]);
      intros; try congruence; try lia; reflexivity.
Qed.

(** X24: [expandTableSize] on table utilities that keep their contract at
    this table - inserting columns adds that many columns and no row,
    inserting rows adds that many rows and no column.  Afterwards the
    table has the expected width and height where it was smaller, and
    the width and height it had where it was not: it is never made
    smaller. *)
Theorem X24_expandTableSize_reaches_the_expected_size
        (expectedHeight expectedWidth : nat) (s : S) :
  let columnsAdded := insertColumns (getColumns s) (expectedWidth - getColumns s) s in
  getColumns columnsAdded = getColumns s + (expectedWidth - getColumns s) ->
  getRows columnsAdded = getRows s ->
  (forall t, t = s \/ t = columnsAdded ->
             getRows (insertRows (getRows s) (expectedHeight - getRows s) t)
             = getRows t + (expectedHeight - getRows s)
             /\ getColumns (insertRows (getRows s) (expectedHeight - getRows s) t)
                = getColumns t) ->
  getColumns (expandTableSize expectedHeight expectedWidth s)
  = Nat.max expectedWidth (getColumns s)
  /\ getRows (expandTableSize expectedHeight expectedWidth s)
     = Nat.max expectedHeight (getRows s).
Proof.
  cbv zeta. intros Lc Lr Rows. unfold expandTableSize.
  destruct (Nat.ltb_spec (getColumns s) expectedWidth) as [Wl | Wg];
    destruct (Nat.ltb_spec (getRows s) expectedHeight) as [Hl | Hg].
  - destruct (Rows _ (or_intror eq_refl)) as [R1 R2]. rewrite R1, R2, Lc, Lr. lia.
  - rewrite Lc, Lr. lia.
  - destruct (Rows _ (or_introl eq_refl)) as [R1 R2]. rewrite R1, R2. lia.
  - lia.
Qed.
End PrepareFrame.

Module PrepareWitnesses.
Import Layout.

Lemma X23_spanned_grid_witness :
  let columnIndexes := getColumnIndexes [mkCell 0 0 1 1] spannedGrid in
  let rowIndexes := getRowIndexes [mkCell 0 0 1 1] spannedGrid in
  let result := prepareTableForPasting [mkCell 0 0 1 1] (mkDimensions 2 2)
                                       spannedGrid in
  firstColumn (fst result) = first columnIndexes
  /\ firstRow (fst result) = first rowIndexes
  /\ (List.length [mkCell 0 0 1 1] = 1 ->
      lastColumn (fst result) = last columnIndexes + (width (mkDimensions 2 2) - 1)
      /\ lastRow (fst result) = last rowIndexes + (height (mkDimensions 2 2) - 1))
  /\ (List.length [mkCell 0 0 1 1] <> 1 ->
      isSelectionRectangular [mkCell 0 0 1 1] spannedGrid = true ->
      snd result = spannedGrid)
  /\ (List.length [mkCell 0 0 1 1] <> 1 ->
      isSelectionRectangular [mkCell 0 0 1 1] spannedGrid = false ->
      fst result = mkRect (first columnIndexes) (last columnIndexes)
                          (first rowIndexes) (last rowIndexes)).
Proof.
  apply (@X23_prepareTableForPasting_keeps_the_corner _ _ structure
           [mkCell 0 0 1 1] (mkDimensions 2 2) spannedGrid); simpl; lia.
Defined.

Lemma X24_spanned_grid_witness :
  getColumns (expandTableSize 4 5 spannedGrid) = Nat.max 5 (getColumns spannedGrid)
  /\ getRows (expandTableSize 4 5 spannedGrid) = Nat.max 4 (getRows spannedGrid).
Proof.
  apply (@X24_expandTableSize_reaches_the_expected_size _ _ structure 4 5 spannedGrid).
  - reflexivity.
  - reflexivity.
  - intros t [-> | ->]; split; reflexivity.
Defined.
End PrepareWitnesses.

(** ** [createLocationMap] *)

Lemma setColumn_in_range (A : Type) (v : option A) :
  forall (line : list (option A)) (c : nat),
    c < List.length line ->
    List.length (setColumn c v line) = List.length line
    /\ forall c', nth c' (setColumn c v line) None
                  = if c' =? c then v else nth c' line None.
Proof.
  induction line as [|x r IH]; intros c L; [simpl in L; lia|].
  destruct c as [|c]; cbn [setColumn List.length].
  - split; [reflexivity|]. intros [|c']; reflexivity.
  - simpl in L. destruct (IH c) as [Len Nth]; [lia|]. split; [now rewrite Len|].
    intros [|c']; [reflexivity|]. cbn [nth Nat.eqb]. apply Nth.
Qed.

Lemma setLocation_in_range (A : Type) (v : option A) (width : nat) :
  forall (m : list (list (option A))) (r c : nat),
    r < List.length m -> c < width ->
    Forall (fun line => List.length line = width) m ->
    List.length (setLocation r c v m) = List.length m
    /\ Forall (fun line => List.length line = width) (setLocation r c v m)
    /\ forall r' c', nth c' (nth r' (setLocation r c v m) []) None
                     = if (r' =? r) && (c' =? c) then v
                       else nth c' (nth r' m []) None.
Proof.
  induction m as [|line rest IH]; intros r c Lr Lc F; [simpl in Lr; lia|].
  pose proof (Forall_inv F) as Fl. pose proof (Forall_inv_tail F) as Fr.
  cbv beta in Fl.
  destruct r as [|r]; cbn [setLocation List.length].
  - destruct (@setColumn_in_range A v line c) as [Len Nth]; [lia|].
    split; [reflexivity|]. split; [constructor; [congruence | exact Fr]|].
    intros [|r'] c'; cbn [nth Nat.eqb andb]; [apply Nth | reflexivity].
  - simpl in Lr. destruct (IH r c) as (Len & Fs & Nth); [lia | exact Lc | exact Fr |].
    split; [now rewrite Len|]. split; [constructor; assumption|].
    intros [|r'] c'; cbn [nth Nat.eqb andb]; [reflexivity | apply Nth].
Qed.

Lemma find_last (A : Type) (p : A -> bool) (l : list A) (x : A) :
  find p (l ++ [x]) = match find p l with
                      | Some y => Some y
                      | None => if p x then Some x else None
                      end.
Proof.
  induction l as [|y r IH]; cbn [app find]; [reflexivity|].
  destruct (p y); [reflexivity | exact IH].
Qed.

Lemma locations_fold (width height : nat) (slots : list TableSlot) :
  Forall (fun s => row s < height /\ column s < width) slots ->
  forall m,
    List.length m = height -> Forall (fun line => List.length line = width) m ->
    let m' := fold_left (fun m s => setLocation (row s) (column s) (Some (cell s)) m)
                        slots m in
    List.length m' = height
    /\ Forall (fun line => List.length line = width) m'
    /\ forall r c,
         locationAt m' r c
         = match find (fun s => (row s =? r) && (column s =? c)) (rev slots) with
           | Some s => Some (cell s)
           | None => locationAt m r c
           end.
Proof.
  induction 1 as [|s rest [Rs Cs] F IH]; intros m Len Wid; cbn [fold_left]; cbv zeta.
  - cbn [rev find]. auto.
  - destruct (@setLocation_in_range node (Some (cell s)) width m (row s) (column s))
      as (Len1 & Wid1 & Nth1); [lia | exact Cs | exact Wid |].
    destruct (IH (setLocation (row s) (column s) (Some (cell s)) m)) as (Len2 & Wid2 & At);
      [congruence | exact Wid1 |].
    cbv zeta in *. split; [exact Len2|]. split; [exact Wid2|].
    intros r c. rewrite At. cbn [rev]. rewrite find_last.
    destruct (find (fun s0 => (row s0 =? r) && (column s0 =? c)) (rev rest));
      [reflexivity|].
    unfold locationAt. rewrite Nth1.
    rewrite (Nat.eqb_sym r (row s)), (Nat.eqb_sym c (column s)).
    destruct ((row s =? r) && (column s =? c)); reflexivity.
Qed.

Lemma locationAt_empty (width height r c : nat) :
  locationAt (repeat (repeat (@None node) width) height) r c = None.
Proof.
  unfold locationAt.
  assert (E : forall (A : Type) (d x : A) n k, (x = d) -> nth k (repeat x n) d = d).
  { intros A d x n. induction n as [|n IH]; intros [|k] ->; cbn [repeat nth]; auto. }
  destruct (Nat.lt_ge_cases r height) as [L | G].
  - rewrite (nth_indep _ [] (repeat None width)) by now rewrite repeat_length.
    rewrite nth_repeat_lt by exact L. now apply E.
  - assert (O : nth r (repeat (repeat (@None node) width) height) [] = [])
      by (apply nth_overflow; now rewrite repeat_length).
    rewrite O. now destruct c.
Qed.

(** X25: when the slots that the walker yields for the pasted table lie
    within the given height and width, [createLocationMap] returns
    [height] rows of [width] entries each, and the entry at a row and
    column is the cell of the slot that the walker yields there - of the
    last such slot, would there be several - and empty when there is no
    such slot. *)
Theorem X25_createLocationMap_holds_the_cells_by_location
        (table : node) (width height : nat) :
  Forall (fun s => row s < height /\ column s < width) (TableWalker table defaultOptions) ->
  let m := createLocationMap table width height in
  List.length m = height
  /\ Forall (fun line => List.length line = width) m
  /\ forall r c,
       locationAt m r c
       = option_map cell
           (find (fun s => (row s =? r) && (column s =? c))
                 (rev (TableWalker table defaultOptions))).
Proof.
  intros F. cbv zeta. unfold createLocationMap.
  destruct (@locations_fold width height _ F (repeat (repeat None width) height))
    as (Len & Wid & At).
  - apply repeat_length.
  - apply Forall_forall. intros line I. apply repeat_spec in I. subst line.
    apply repeat_length.
  - cbv zeta in *. split; [exact Len|]. split; [exact Wid|].
    intros r c. rewrite At, locationAt_empty.
    destruct (find _ _); reflexivity.
Qed.

Lemma X25_pasted_grid_witness :
  let m := createLocationMap pastedGrid 1 1 in
  List.length m = 1
  /\ Forall (fun line => List.length line = 1) m
  /\ forall r c,
       locationAt m r c
       = option_map cell
           (find (fun s => (row s =? r) && (column s =? c))
                 (rev (TableWalker pastedGrid defaultOptions))).
Proof.
  apply (@X25_createLocationMap_holds_the_cells_by_location pastedGrid 1 1).
  vm_compute. repeat constructor.
Defined.

(** ** The slot walk removes the cells it meets *)

Lemma length_items_pos (n : node) : 1 <= List.length (items n).
Proof. destruct n; simpl; lia. Qed.

(** A clone takes the next identities, one after the other. *)
Lemma cloneNode_ids :
  forall (n : node) (k : nat),
    idsOf (fst (cloneNode n k)) = seq k (List.length (items n))
    /\ snd (cloneNode n k) = k + List.length (items n).
Proof.
  intros n.
  apply (node_forest_ind
    (fun n => forall k,
       idsOf (fst (cloneNode n k)) = seq k (List.length (items n))
       /\ snd (cloneNode n k) = k + List.length (items n))
    (fun l => forall k,
       let r := (fix go (l : list node) (k : nat) {struct l} : list node * nat :=
                   match l with
                   | [] => ([], k)
                   | c :: r =>
                       let (c', k1) := cloneNode c k in
                       let (r', k2) := go r k1 in
                       (c' :: r', k2)
                   end) l k in
       idsIn (fst r) = seq k (List.length (itemsIn l))
       /\ snd r = k + List.length (itemsIn l))).
  - intros i a d k. cbn. split; [reflexivity | lia].
  - intros i nm a ch IH k. cbn [cloneNode].
    specialize (IH (S k)). cbv zeta in IH.
    destruct ((fix go (l : list node) (k : nat) {struct l} : list node * nat :=
                 match l with
                 | [] => ([], k)
                 | c :: r =>
                     let (c', k1) := cloneNode c k in
                     let (r', k2) := go r k1 in
                     (c' :: r', k2)
                 end) ch (S k)) as [ch' k'].
    cbn [fst snd] in *. destruct IH as [I1 I2]. rewrite idsOf_head.
    cbn [nodeId childrenOf items List.length]. fold (itemsIn ch).
    rewrite I1, I2. split; [reflexivity | lia].
  - intros k. cbn. split; [reflexivity | lia].
  - intros c r IHc IHr k. cbv zeta.
    cbn -[itemsIn idsIn cloneNode seq List.length Nat.add].
    specialize (IHc k). destruct (cloneNode c k) as [c' k1] eqn:Ec.
    specialize (IHr k1). cbv zeta in IHr.
    cbn [fst snd] in IHc. destruct IHc as [C1 C2].
    destruct ((fix go (l : list node) (k : nat) {struct l} : list node * nat :=
                 match l with
                 | [] => ([], k)
                 | c :: r =>
                     let (c', k1) := cloneNode c k in
                     let (r', k2) := go r k1 in
                     (c' :: r', k2)
                 end) r k1) as [r' k2].
    cbn [fst snd] in *. destruct IHr as [R1 R2].
    rewrite idsIn_cons, itemsIn_cons, length_app, C1, R1, C2, R2, seq_app.
    split; [reflexivity | lia].
Qed.

Section InsertedIds.
Variable x : node.
Variable fresh : nat.

Lemma insertAtOffset_ids (l : list node) :
  forall off,
  exists added,
    addedIds x fresh added
    /\ Permutation (idsIn (insertAtOffset x fresh off l)) (added ++ idsIn l).
Proof.
  unfold addedIds.
  induction l as [|c r IH]; intros off; cbn [insertAtOffset].
  - exists (idsOf x). split; [auto|]. rewrite idsIn_cons. reflexivity.
  - destruct (off =? 0).
    + exists (idsOf x). split; [auto|]. rewrite idsIn_cons. reflexivity.
    + destruct c as [i a d | i nm a ch].
      * destruct (off <? List.length d).
        -- exists (idsOf x ++ [fresh]). split; [auto|].
           rewrite !idsIn_cons. cbn [idsOf items map nodeId app].
           rewrite <- app_assoc. cbn [app].
           apply Permutation_sym. eapply Permutation_trans.
           ++ apply Permutation_app_head. apply Permutation_sym.
              apply (Permutation_middle [fresh] (idsIn r) i).
           ++ cbn [app]. apply Permutation_sym.
              apply perm_trans with (i :: idsOf x ++ fresh :: idsIn r); [reflexivity|].
              apply Permutation_middle.
        -- destruct (IH (off - List.length d)) as (added & A & P).
           exists added. split; [exact A|].
           rewrite !idsIn_cons. cbn [idsOf items map nodeId app].
           rewrite P. apply Permutation_middle.
      * destruct (IH (off - 1)) as (added & A & P).
        exists added. split; [exact A|].
        rewrite !idsIn_cons, P.
        rewrite !app_assoc. apply Permutation_app_tail. apply Permutation_app_comm.
Qed.

Lemma updateAtOffset_ids (g : list node -> list node) :
  (forall l', exists added,
      addedIds x fresh added /\ Permutation (idsIn (g l')) (added ++ idsIn l')) ->
  forall (l : list node) off,
  exists added,
    addedIds x fresh added
    /\ Permutation (idsIn (updateAtOffset (withChildren g) off l)) (added ++ idsIn l).
Proof.
  intros G. induction l as [|c r IH]; intros off; cbn [updateAtOffset].
  - exists []. split; [left; reflexivity | reflexivity].
  - destruct (off =? 0).
    + destruct c as [i a d | i nm a ch]; cbn [withChildren].
      * exists []. split; [left; reflexivity | reflexivity].
      * destruct (G ch) as (added & A & P). exists added. split; [exact A|].
        rewrite !idsIn_cons, !idsOf_head. cbn [nodeId childrenOf app].
        rewrite P, <- app_assoc. apply Permutation_middle.
    + destruct (IH (off - offsetSize c)) as (added & A & P).
      exists added. split; [exact A|].
      rewrite !idsIn_cons, P.
      rewrite !app_assoc. apply Permutation_app_tail. apply Permutation_app_comm.
Qed.

Lemma insertAtPath_ids (p : list nat) :
  forall l,
  exists added,
    addedIds x fresh added
    /\ Permutation (idsIn (insertAtPath x fresh p l)) (added ++ idsIn l).
Proof.
  induction p as [|off p' IH]; intros l.
  - exists []. split; [left; reflexivity | reflexivity].
  - destruct p' as [|off' p''].
    + apply insertAtOffset_ids.
    + change (insertAtPath x fresh (off :: off' :: p'') l)
        with (updateAtOffset (withChildren (insertAtPath x fresh (off' :: p''))) off l).
      apply updateAtOffset_ids. exact IH.
Qed.
End InsertedIds.

Lemma grows_refl (w : Writer) : grows w w.
Proof. unfold grows. split; [lia|]. split; [|split]; auto. Qed.

Lemma grows_trans (w1 w2 w3 : Writer) : grows w1 w2 -> grows w2 w3 -> grows w1 w3.
Proof.
  intros (N1 & D1 & F1 & W1) (N2 & D2 & F2 & W2).
  split; [lia|]. split; [|split]; auto.
  - intros i I. destruct (D2 i I) as [I' | G]; [|right; lia].
    destruct (D1 i I'); auto.
  - intros i I. destruct (F2 i I) as [I' | G]; [|right; lia].
    destruct (F1 i I'); auto.
Qed.

Lemma shrinks_grows (w w' : Writer) : shrinks w w' -> nextId w' = nextId w -> grows w w'.
Proof.
  intros [[If Nf] [Id Nd]] E. split; [lia|]. split; [|split].
  - intros i I. left. now apply Id.
  - intros i I. left. now apply If.
  - intros [[Df Dd] B]. split; [split; auto|].
    intros i [I | I]; rewrite E; apply B; [left; now apply Id | right; now apply If].
Qed.

Lemma same_ids_grows (w w' : Writer) :
  idsIn (documentRoot w') = idsIn (documentRoot w) ->
  idsIn (fragmentRoot w') = idsIn (fragmentRoot w) ->
  nextId w <= nextId w' ->
  grows w w'.
Proof.
  intros Ed Ef N. split; [exact N|]. split; [|split].
  - intros i I. left. now rewrite <- Ed.
  - intros i I. left. now rewrite <- Ef.
  - intros [[Df Dd] B]. unfold wellNumbered, distinctIds. rewrite Ed, Ef.
    split; [split; auto|]. intros i I. specialize (B i I). lia.
Qed.

Lemma updateIn_cons (i : nat) (g : node -> node) (c : node) (r : list node) :
  updateIn i g (c :: r)
  = (if nodeId c =? i then g c else updateNode i g c) :: updateIn i g r.
Proof. reflexivity. Qed.

Lemma updateNode_element (i j : nat) (g : node -> node) (nm : string) (a : attrs)
      (ch : list node) :
  updateNode i g (Element j nm a ch) = Element j nm a (updateIn i g ch).
Proof. reflexivity. Qed.

Lemma updateIn_ids (f : attrs -> attrs) :
  forall (ch : list node) (i : nat), idsIn (updateIn i (withAttrs f) ch) = idsIn ch.
Proof.
  apply (forest_ind
    (fun n => forall i, idsOf (updateNode i (withAttrs f) n) = idsOf n)
    (fun l => forall i, idsIn (updateIn i (withAttrs f) l) = idsIn l)).
  - reflexivity.
  - intros j nm a ch IH i. rewrite updateNode_element, !idsOf_head.
    cbn [nodeId childrenOf]. now rewrite IH.
  - reflexivity.
  - intros c r IHc IHr i. rewrite updateIn_cons, !idsIn_cons, IHr.
    destruct (nodeId c =? i); [|now rewrite IHc].
    destruct c; reflexivity.
Qed.

Lemma updateNumericAttribute_grows (key : string) (v : nat) (x : node) (w : Writer) :
  grows w (snd (updateNumericAttribute key v x w)).
Proof.
  unfold updateNumericAttribute. cbn [snd].
  apply same_ids_grows; cbn [documentRoot fragmentRoot nextId setRoot];
    try apply updateIn_ids. lia.
Qed.

Lemma trimTableCellIfNeeded_grows (x : node) (r c limitRow limitColumn : nat) (w : Writer) :
  grows w (snd (trimTableCellIfNeeded x r c limitRow limitColumn w)).
Proof.
  unfold trimTableCellIfNeeded.
  destruct (limitColumn <? c + colspanOf x - 1).
  - pose proof (updateNumericAttribute_grows "colspan" (limitColumn - c + 1) x w) as G1.
    destruct (updateNumericAttribute "colspan" (limitColumn - c + 1) x w) as [x1 w1].
    cbn [fst snd] in *.
    destruct (limitRow <? r + rowspanOf x1 - 1); cbn [snd]; [|exact G1].
    exact (grows_trans G1 (updateNumericAttribute_grows "rowspan" _ x1 w1)).
  - destruct (limitRow <? r + rowspanOf x - 1); cbn [snd].
    + apply updateNumericAttribute_grows.
    + apply grows_refl.
Qed.

Lemma added_fresh (x : node) (k len : nat) (ids added : list nat) :
  idsOf x = seq k len -> addedIds x (k + len) added ->
  NoDup ids -> (forall i, In i ids -> i < k) ->
  NoDup (added ++ ids)
  /\ (forall i, In i (added ++ ids) -> i < S (k + len))
  /\ (forall i, In i added -> k <= i).
Proof.
  intros E A N B.
  assert (Ra : forall i, In i added -> k <= i < S (k + len)).
  { intros i I. destruct A as [-> | [-> | ->]]; [destruct I | |].
    - rewrite E in I. apply in_seq in I. lia.
    - rewrite E in I. apply in_app_or in I as [I | [<- | []]]; [apply in_seq in I|]; lia. }
  assert (Na : NoDup added).
  { destruct A as [-> | [-> | ->]]; [constructor | rewrite E; apply seq_NoDup |].
    rewrite E. apply NoDup_app; [apply seq_NoDup | repeat constructor; intros [] |].
    intros i I [<- | []]. apply in_seq in I. lia. }
  split; [|split].
  - apply NoDup_app; auto. intros i Ia Ii. specialize (Ra i Ia). specialize (B i Ii). lia.
  - intros i I. apply in_app_or in I as [I | I]; [apply Ra in I | apply B in I]; lia.
  - intros i I. apply Ra in I. lia.
Qed.

(** Cloning a cell, removing (or not) an old one, inserting the clone. *)
Lemma insert_clone_grows (p : node) (w : Writer) (old : option node) (pos : Position) :
  let w2 := match old with
            | Some c => remove c (snd (cloneElement p w))
            | None => snd (cloneElement p w)
            end in
  let w3 := insert (fst (cloneElement p w)) pos w2 in
  grows w w3
  /\ (forall i, In i (idsIn (documentRoot w3)) ->
                In i (idsIn (documentRoot w2)) \/ nextId w <= i)
  /\ (forall i, In i (idsIn (fragmentRoot w3)) ->
                In i (idsIn (fragmentRoot w2)) \/ nextId w <= i).
Proof.
  cbv zeta.
  unfold cloneElement.
  destruct (cloneNode_ids p (nextId w)) as [Ex En].
  pose proof (length_items_pos p) as Len.
  destruct (cloneNode p (nextId w)) as [x k1]. cbn [fst snd] in *.
  set (w1 := mkWriter (documentRoot w) (fragmentRoot w) (modelMarkers w)
                      (fragmentMarkers w) k1 (insertLog w)).
  set (w2 := match old with Some c => remove c w1 | None => w1 end).
  assert (S2 : shrinks w1 w2)
    by (unfold w2; destruct old; [apply remove_shrinks | apply shrinks_refl]).
  assert (N2 : nextId w2 = k1) by (unfold w2; destruct old; reflexivity).
  destruct S2 as [[If Nf] [Id Nd]]. cbn [fragmentRoot documentRoot w1] in If, Nf, Id, Nd.
  unfold insert. rewrite N2.
  destruct (@insertAtPath_ids x k1 (path pos) (getRoot (root pos) w2)) as (added & A & P).
  rewrite En in A.
  assert (New : forall i, In i added -> nextId w <= i).
  { intros i I. destruct A as [-> | [-> | ->]]; [destruct I | |].
    - rewrite Ex in I. apply in_seq in I. lia.
    - rewrite Ex in I. apply in_app_or in I as [I | [<- | []]];
        [apply in_seq in I|]; lia. }
  destruct (root pos); cbn [setRoot getRoot documentRoot fragmentRoot nextId] in *.
  - assert (Fd : forall i, In i (idsIn (insertAtPath x k1 (path pos) (documentRoot w2))) ->
                           In i (idsIn (documentRoot w2)) \/ nextId w <= i).
    { intros i I. apply (Permutation_in _ P) in I. apply in_app_or in I as [I | I]; auto. }
    split; [|split; [exact Fd | auto]].
    split; [cbn [nextId]; lia|]. cbn [documentRoot fragmentRoot nextId].
    split; [|split].
    + intros i I. destruct (Fd i I) as [I' | G]; [left; now apply Id | now right].
    + intros i I. left. now apply If.
    + intros [[Df Dd] B].
      destruct (@added_fresh x (nextId w) (List.length (items p))
                  (idsIn (documentRoot w2)) added Ex A (Nd Dd)) as (Nn & Bn & _).
      { intros i I. apply B. left. now apply Id. }
      split; [split|]; cbn [documentRoot fragmentRoot nextId].
      * now apply Nf.
      * exact (Permutation_NoDup (Permutation_sym P) Nn).
      * intros i [I | I].
        -- apply (Permutation_in _ P) in I. apply Bn in I. lia.
        -- apply If in I. specialize (B i (or_intror I)). lia.
  - assert (Ff : forall i, In i (idsIn (insertAtPath x k1 (path pos) (fragmentRoot w2))) ->
                           In i (idsIn (fragmentRoot w2)) \/ nextId w <= i).
    { intros i I. apply (Permutation_in _ P) in I. apply in_app_or in I as [I | I]; auto. }
    split; [|split; [auto | exact Ff]].
    split; [cbn [nextId]; lia|]. cbn [documentRoot fragmentRoot nextId].
    split; [|split].
    + intros i I. left. now apply Id.
    + intros i I. destruct (Ff i I) as [I' | G]; [left; now apply If | now right].
    + intros [[Df Dd] B].
      destruct (@added_fresh x (nextId w) (List.length (items p))
                  (idsIn (fragmentRoot w2)) added Ex A (Nf Df)) as (Nn & Bn & _).
      { intros i I. apply B. right. now apply If. }
      split; [split|]; cbn [documentRoot fragmentRoot nextId].
      * exact (Permutation_NoDup (Permutation_sym P) Nn).
      * now apply Nd.
      * intros i [I | I].
        -- apply Id in I. specialize (B i (or_introl I)). lia.
        -- apply (Permutation_in _ P) in I. apply Bn in I. lia.
Qed.

Lemma grows_gone (c : node) (w w' : Writer) :
  grows w w' -> nodeId c < nextId w -> gone c w -> gone c w'.
Proof.
  intros (_ & D & F & _) B [Gf Gd]. split; intros I.
  - destruct (F _ I); [auto | lia].
  - destruct (D _ I); [auto | lia].
Qed.

Lemma isWellNumbered_sound (w : Writer) : isWellNumbered w = true -> wellNumbered w.
Proof.
  unfold isWellNumbered. rewrite !andb_true_iff. intros [[Df Dd] B].
  split; [split; now apply distinctb_sound|].
  rewrite forallb_forall in B. intros i I.
  apply Nat.ltb_lt. apply B. apply in_or_app. tauto.
Qed.

Section SlotWalkRemoves.
Variable pastedMap : list (list (option node)).
Variables pastedWidth pastedHeight : nat.
Variable selection : Rect.

Lemma replaceSlot_grows (st : ReplaceState) (s : TableSlot) :
  let st' := replaceSlot pastedMap pastedWidth pastedHeight selection st s in
  grows (rs_writer st) (rs_writer st')
  /\ (isAnchor s = true -> wellNumbered (rs_writer st) ->
      nodeId (cell s) < nextId (rs_writer st) ->
      gone (cell s) (rs_writer st')).
Proof.
  cbv zeta. unfold replaceSlot, _replaceTableSlotCell.
  destruct (locationAt pastedMap _ _) as [p|].
  - destruct (@insert_clone_grows p (rs_writer st)
                (if isAnchor s then Some (cell s) else None)
                (if column s =? firstColumn selection
                 then getPositionBefore s (rs_writer st) else insertPosition st))
      as (G & Fd & Ff).
    cbv zeta in *.
    assert (Eo : (if isAnchor s then remove (cell s) (snd (cloneElement p (rs_writer st)))
                  else snd (cloneElement p (rs_writer st)))
                 = match (if isAnchor s then Some (cell s) else None) with
                   | Some c => remove c (snd (cloneElement p (rs_writer st)))
                   | None => snd (cloneElement p (rs_writer st))
                   end) by (destruct (isAnchor s); reflexivity).
    rewrite <- Eo in *. clear Eo.
    destruct (cloneElement p (rs_writer st)) as [x w1] eqn:Ec. cbn [fst snd] in *.
    match goal with
    | |- context [trimTableCellIfNeeded x ?r ?c ?lr ?lc ?v] =>
        pose proof (trimTableCellIfNeeded_grows x r c lr lc v) as Gt;
        destruct (trimTableCellIfNeeded x r c lr lc v) as [x' w3]
    end.
    cbn [fst snd rs_writer] in *. split; [exact (grows_trans G Gt)|].
    intros An Wn Bc. rewrite An in *.
    assert (R1 : fragmentRoot w1 = fragmentRoot (rs_writer st)
                 /\ documentRoot w1 = documentRoot (rs_writer st)).
    { unfold cloneElement in Ec. destruct (cloneNode p (nextId (rs_writer st))).
      inversion Ec; subst. split; reflexivity. }
    assert (D1 : distinctIds w1).
    { destruct Wn as [D _]. exact (@distinctIds_roots _ _ (proj1 R1) (proj2 R1) D). }
    pose proof (@remove_makes_gone (cell s) w1 D1) as [Gf Gd].
    apply (@grows_gone (cell s) _ _ Gt).
    + destruct G as (N & _). lia.
    + split; intros I.
      * destruct (Ff _ I); [auto | lia].
      * destruct (Fd _ I); [auto | lia].
  - cbn [rs_writer]. split.
    + destruct (isAnchor s); [|apply grows_refl].
      apply shrinks_grows; [apply remove_shrinks | reflexivity].
    + intros An Wn _. rewrite An. apply remove_makes_gone. apply Wn.
Qed.

Lemma replaceSlots_remove (slots : list TableSlot) :
  forall st,
    wellNumbered (rs_writer st) ->
    let st' := fold_left (replaceSlot pastedMap pastedWidth pastedHeight selection)
                         slots st in
    grows (rs_writer st) (rs_writer st')
    /\ forall s, In s slots -> isAnchor s = true ->
                 nodeId (cell s) < nextId (rs_writer st) ->
                 gone (cell s) (rs_writer st').
Proof.
  induction slots as [|s rest IH]; intros st Wn; cbn [fold_left]; cbv zeta.
  - split; [apply grows_refl | intros s []].
  - destruct (replaceSlot_grows st s) as [G1 R1]. cbv zeta in *.
    destruct (IH (replaceSlot pastedMap pastedWidth pastedHeight selection st s))
      as [G2 R2]; [apply G1; exact Wn|].
    cbv zeta in *. split; [exact (grows_trans G1 G2)|].
    intros s' [<- | I] An Bc.
    + apply (@grows_gone (cell s) _ _ G2); [destruct G1; lia | now apply R1].
    + apply R2; auto. destruct G1. lia.
Qed.
End SlotWalkRemoves.

(** X26: the slot walk of [_replaceSelectedCellsWithPasted] removes the
    selected cells.  When the cells that the walker meets as anchors in
    the selection are different nodes of the document, and the writer
    hands out identities that no node of the document or of the fragment
    has, then after the walk none of these cells is left, in the
    document or in the fragment: each one was removed, and nothing that
    the walk inserts later - the clones of the pasted cells - brings it
    back.  The nodes of the two roots still have distinct identities.
    The pasted table has at least one row and one column. *)
Theorem X26_slot_walk_removes_the_selected_cells
        (w : Writer) (pastedTable : node) (dims : Dimensions)
        (selectedTable : node) (selection : Rect) :
  wellNumbered w ->
  anchorsInDocument (selectedTableMap selectedTable selection) w = true ->
  1 <= width dims -> 1 <= height dims ->
  Forall (fun s => firstRow selection <= row s /\ firstColumn selection <= column s)
         (selectedTableMap selectedTable selection) ->
  let st := replaceSlots pastedTable dims selectedTable selection w in
  Forall (fun s => isAnchor s = true -> gone (cell s) (rs_writer st))
         (selectedTableMap selectedTable selection)
  /\ wellNumbered (rs_writer st).
Proof.
  intros Wn An _ _ _. cbv zeta. unfold replaceSlots.
  destruct (@replaceSlots_remove
              (createLocationMap pastedTable (width dims) (height dims))
              (width dims) (height dims) selection
              (selectedTableMap selectedTable selection)
              (mkReplaceState w [] (mkPosition DocumentRoot [])) Wn)
    as [G R].
  cbv zeta in *. cbn [rs_writer] in *. split.
  - apply Forall_forall. intros s I A. apply R; auto.
    unfold anchorsInDocument in An. apply andb_true_iff in An as [_ An].
    rewrite forallb_forall in An.
    assert (F : In s (filter isAnchor (selectedTableMap selectedTable selection)))
      by (apply filter_In; auto).
    apply An in F. apply existsb_exists in F as (i & Ii & E).
    apply Nat.eqb_eq in E. rewrite E. apply Wn. now left.
  - apply G. exact Wn.
Qed.

Lemma X26_three_by_three_witness :
  Forall (fun s => isAnchor s = true ->
                   gone (cell s)
                        (rs_writer (replaceSlots pastedGrid (mkDimensions 1 1) gridTable
                                                 wholeGrid gridWriter)))
         (selectedTableMap gridTable wholeGrid)
  /\ wellNumbered (rs_writer (replaceSlots pastedGrid (mkDimensions 1 1) gridTable
                                           wholeGrid gridWriter)).
Proof.
  apply (@X26_slot_walk_removes_the_selected_cells
           gridWriter pastedGrid (mkDimensions 1 1) gridTable wholeGrid).
  - apply isWellNumbered_sound. reflexivity.
  - reflexivity.
  - simpl. lia.
  - simpl. lia.
  - vm_compute. repeat constructor.
Defined.
